(** * Formula parser, dependency analyser and validator of the AI service

    A shallow embedding of
    - [src/backend/services/ai/src/utils/formula_parser.py] (class [FormulaParser]),
    - [src/backend/services/ai/src/utils/validation.py] (class [FormulaValidator]),
    - the constants they read from [src/backend/services/ai/src/constants.py],
    followed by the properties of the specification that are checked against it.

    Modelling conventions.
    - A Python [str] is a [string]; a character is a code point below 256
      (the Latin-1 block), so the Unicode-aware predicates [str.isspace],
      [str.isalpha], [str.isdigit] and the [re] classes are tabulated on
      that block.
    - A result dictionary [{'success': ..., ...}] is a value of a sum type.
    - An exception is a value of [exn]; [try ... except Exception] is a
      [match] on the outcome of the protected block.
    - [re] patterns are values of [regex], run by a backtracking matcher
      with Python's priorities (greedy repetition, leftmost alternative
      first). *)

From Stdlib Require Import String Ascii List ZArith NArith Lia Bool Arith.
From Stdlib Require Import DecimalString.
From stdpp Require Import gmap strings.
Import ListNotations.

Local Open Scope string_scope.
Local Open Scope list_scope.
Local Open Scope nat_scope.

(** ** Characters *)

Module Char.

Definition code (c : ascii) : N := N_of_ascii c.

Definition between (lo hi : N) (c : ascii) : bool :=
  ((lo <=? code c) && (code c <=? hi))%N.

Definition lit (d c : ascii) : bool := Ascii.eqb c d.

Definition dquote : ascii := ascii_of_nat 34.
Definition squote : ascii := ascii_of_nat 39.
Definition newline : ascii := ascii_of_nat 10.

(** [str.isspace()] on code points below 256. *)
Definition isspace (c : ascii) : bool :=
  between 9 13 c || between 28 32 c || between 133 133 c || between 160 160 c.

(** [str.isalpha()] on code points below 256. *)
Definition isalpha (c : ascii) : bool :=
  between 65 90 c || between 97 122 c
  || between 170 170 c || between 181 181 c || between 186 186 c
  || between 192 214 c || between 216 246 c || between 248 255 c.

(** [str.isdigit()] on code points below 256 (the superscripts 1, 2, 3
    are digits for Python). *)
Definition isdigit (c : ascii) : bool :=
  between 48 57 c || between 178 179 c || between 185 185 c.

(** The [re] class [\d]. *)
Definition re_digit (c : ascii) : bool := between 48 57 c.

(** The [re] class [\s]. *)
Definition re_space (c : ascii) : bool := isspace c.

(** [[A-Za-z]], which is also [[A-Z]] under [re.IGNORECASE]. *)
Definition re_letter (c : ascii) : bool := between 65 90 c || between 97 122 c.

(** [[A-Za-z0-9\s]]. *)
Definition re_sheet_char (c : ascii) : bool :=
  re_letter c || re_digit c || re_space c.

(** [[\+\-\*/\^&=><]]. *)
Definition re_operator_char (c : ascii) : bool :=
  lit "+" c || lit "-" c || lit "*" c || lit "/" c || lit "^" c
  || lit "&" c || lit "=" c || lit ">" c || lit "<" c.

(** [[\+\-\*/]]. *)
Definition re_arith_char (c : ascii) : bool :=
  lit "+" c || lit "-" c || lit "*" c || lit "/" c.

(** [.] without [re.DOTALL]. *)
Definition re_dot (c : ascii) : bool := negb (lit newline c).

(** [[^=]]. *)
Definition re_not_equals (c : ascii) : bool := negb (lit "=" c).

(** [str.upper()] on the letters [a-z]; the only caller applies it to a
    capture of [[A-Za-z]{1,3}]. *)
Definition upper (c : ascii) : ascii :=
  if between 97 122 c then ascii_of_N (code c - 32) else c.

End Char.

(** ** Strings *)

Module Str.

(** [s[n:]] *)
Fixpoint drop (n : nat) (s : string) : string :=
  match n, s with
  | 0, _ => s
  | S n', String _ s' => drop n' s'
  | S _, EmptyString => EmptyString
  end.

(** [s[:n]] *)
Fixpoint take (n : nat) (s : string) : string :=
  match n, s with
  | S n', String c s' => String c (take n' s')
  | _, _ => EmptyString
  end.

(** [s[a:b]] *)
Definition slice (a b : nat) (s : string) : string := take (b - a) (drop a s).

Definition of_char (c : ascii) : string := String c EmptyString.

(** [str(n)] and [f'{n}'] for a non-negative integer. *)
Definition of_nat (n : nat) : string := NilEmpty.string_of_uint (Nat.to_uint n).

(** [c in s] for a character [c]. *)
Fixpoint mem (c : ascii) (s : string) : bool :=
  match s with
  | EmptyString => false
  | String d s' => Ascii.eqb c d || mem c s'
  end.

Fixpoint count (c : ascii) (s : string) : nat :=
  match s with
  | EmptyString => 0
  | String d s' => (if Ascii.eqb c d then 1 else 0) + count c s'
  end.

Fixpoint all (p : ascii -> bool) (s : string) : bool :=
  match s with
  | EmptyString => true
  | String c s' => p c && all p s'
  end.

(** [s.split(sep)] for a one-character separator: the pieces between the
    occurrences of [sep], one more than there are occurrences. *)
Fixpoint split (sep : ascii) (s : string) : list string :=
  match s with
  | EmptyString => [EmptyString]
  | String c s' =>
      if Ascii.eqb c sep then EmptyString :: split sep s'
      else match split sep s' with
           | piece :: pieces => String c piece :: pieces
           | [] => [String c EmptyString]
           end
  end.

Fixpoint lstrip (c : ascii) (s : string) : string :=
  match s with
  | String d s' => if Ascii.eqb d c then lstrip c s' else s
  | EmptyString => EmptyString
  end.

Fixpoint rstrip (c : ascii) (s : string) : string :=
  match s with
  | EmptyString => EmptyString
  | String d s' =>
      match rstrip c s' with
      | EmptyString => if Ascii.eqb d c then EmptyString else String d EmptyString
      | t => String d t
      end
  end.

(** [s.strip(c)] for a one-character set. *)
Definition strip (c : ascii) (s : string) : string := rstrip c (lstrip c s).

(** [sep.join(parts)] *)
Fixpoint join (sep : string) (parts : list string) : string :=
  match parts with
  | [] => EmptyString
  | [p] => p
  | p :: ps => p +:+ sep +:+ join sep ps
  end.

(** [s.upper()] *)
Fixpoint upper (s : string) : string :=
  match s with
  | EmptyString => EmptyString
  | String c s' => String (Char.upper c) (upper s')
  end.

(** The part of [s] before, and after, the first occurrence of [c]. *)
Fixpoint before (c : ascii) (s : string) : string :=
  match s with
  | EmptyString => EmptyString
  | String d s' => if Ascii.eqb d c then EmptyString else String d (before c s')
  end.

Fixpoint after (c : ascii) (s : string) : string :=
  match s with
  | EmptyString => EmptyString
  | String d s' => if Ascii.eqb d c then s' else after c s'
  end.

(** [s.startswith(c)] for a character. *)
Definition startswith (c : ascii) (s : string) : bool :=
  match s with
  | String d _ => Ascii.eqb d c
  | EmptyString => false
  end.

(** [s.find(sub)]: the lowest index at which [sub] occurs, or -1. *)
Fixpoint find_from (sub s : string) (i : nat) : Z :=
  if String.prefix sub s then Z.of_nat i
  else match s with
       | EmptyString => (-1)%Z
       | String _ s' => find_from sub s' (S i)
       end.

Definition find (sub s : string) : Z := find_from sub s 0.

Fixpoint lstrip_space (s : string) : string :=
  match s with
  | String d s' => if Char.isspace d then lstrip_space s' else s
  | EmptyString => EmptyString
  end.

Fixpoint rstrip_space (s : string) : string :=
  match s with
  | EmptyString => EmptyString
  | String d s' =>
      match rstrip_space s' with
      | EmptyString => if Char.isspace d then EmptyString else String d EmptyString
      | t => String d t
      end
  end.

(** [s.strip()] *)
Definition strip_space (s : string) : string := rstrip_space (lstrip_space s).

(** [s.split()]: the maximal runs of characters that are not whitespace. *)
Fixpoint words (s : string) : list string :=
  match s with
  | EmptyString => []
  | String c s' =>
      if Char.isspace c then words s'
      else
        match s' with
        | EmptyString => [String c EmptyString]
        | String d _ =>
            if Char.isspace d then String c EmptyString :: words s'
            else match words s' with
                 | w :: ws => String c w :: ws
                 | [] => [String c EmptyString]
                 end
        end
  end.

(** [''.join(char for char in s if p(char))] *)
Fixpoint keep (p : ascii -> bool) (s : string) : string :=
  match s with
  | EmptyString => EmptyString
  | String c s' => if p c then String c (keep p s') else keep p s'
  end.

End Str.

(** ** Regular expressions

    The fragment of Python's [re] that the two modules use: character
    classes, concatenation, greedy [?] on a group, greedy bounded or
    unbounded repetition of a character class, capturing groups, positive
    lookahead and [$].  [^] only occurs at the head of a pattern run with
    [match], where it is the identity. *)

Module Re.

Inductive regex : Type :=
| Eps
| Chr (p : ascii -> bool)
| Seq (r1 r2 : regex)
| Opt (r : regex)
| Rep (lo : nat) (hi : option nat) (p : ascii -> bool)
| Grp (r : regex)
| Ahead (r : regex)
| Eos.

Definition Star (p : ascii -> bool) : regex := Rep 0 None p.
Definition Plus (p : ascii -> bool) : regex := Rep 1 None p.
Definition Maybe (p : ascii -> bool) : regex := Rep 0 (Some 1) p.

Declare Scope regex_scope.
Delimit Scope regex_scope with re.
Infix "+>" := Seq (at level 60, right associativity) : regex_scope.

Definition may_repeat (hi : option nat) : bool :=
  match hi with
  | None => true
  | Some 0 => false
  | Some (S _) => true
  end.

Definition one_less (hi : option nat) : option nat :=
  match hi with
  | None => None
  | Some h => Some (Nat.pred h)
  end.

(** Greedy repetition of a character class: take one more character when
    allowed, and fall back to stopping here when the rest fails. *)
Fixpoint rep {A : Type} (p : ascii -> bool) (lo : nat) (hi : option nat)
    (s : string) (k : string -> option A) : option A :=
  let stop := match lo with 0 => k s | S _ => None end in
  match s with
  | String c s' =>
      if p c && may_repeat hi then
        match rep p (Nat.pred lo) (one_less hi) s' k with
        | Some a => Some a
        | None => stop
        end
      else stop
  | EmptyString => stop
  end.

Definition captures := list string.

(** The backtracking matcher, in continuation-passing style: [k] receives
    the rest of the input and the groups captured so far; the first
    success in priority order wins. *)
Fixpoint run {A : Type} (r : regex) (s : string) (caps : captures)
    (k : string -> captures -> option A) {struct r} : option A :=
  match r with
  | Eps => k s caps
  | Chr p =>
      match s with
      | String c s' => if p c then k s' caps else None
      | EmptyString => None
      end
  | Seq r1 r2 => run r1 s caps (fun s1 caps1 => run r2 s1 caps1 k)
  | Opt r1 =>
      match run r1 s caps k with
      | Some a => Some a
      | None => k s caps
      end
  | Rep lo hi p => rep p lo hi s (fun s' => k s' caps)
  | Grp r1 =>
      run r1 s caps (fun s1 caps1 =>
        k s1 (caps1 ++ [Str.take (String.length s - String.length s1) s]))
  | Ahead r1 =>
      match run r1 s caps (fun _ caps1 => Some caps1) with
      | Some caps1 => k s caps1
      | None => None
      end
  | Eos =>
      match s with
      | EmptyString => k s caps
      | String c EmptyString => if Char.lit Char.newline c then k s caps else None
      | String _ (String _ _) => None
      end
  end.

(** [pattern.match(s)]: the text of the whole match ([group(0)]) and of
    the capturing groups ([groups()]), or [None]. *)
Definition match_ (r : regex) (s : string) : option (string * captures) :=
  run r s [] (fun s' caps =>
    Some (Str.take (String.length s - String.length s') s, caps)).

Definition group0 (r : regex) (s : string) : option string :=
  option_map fst (match_ r s).

(** [pattern.findall(s)] for a pattern without capturing groups that does
    not match the empty string, as are the patterns it is used with: the
    non-overlapping matches from left to right.  [skip] counts the
    characters of the previous match that are still to be passed over. *)
Fixpoint findall_from (r : regex) (skip : nat) (s : string) : list string :=
  match skip with
  | S skip' =>
      match s with
      | String _ s' => findall_from r skip' s'
      | EmptyString => []
      end
  | 0 =>
      match group0 r s with
      | Some m =>
          m :: match s with
               | String _ s' => findall_from r (Nat.pred (String.length m)) s'
               | EmptyString => []
               end
      | None =>
          match s with
          | String _ s' => findall_from r 0 s'
          | EmptyString => []
          end
      end
  end.

Definition findall (r : regex) (s : string) : list string := findall_from r 0 s.

(** What a pattern can match: [lang r w rest] says that [r] matches the
    word [w] when [rest] follows it (the lookahead and [$] look at
    [rest]). *)
Fixpoint lang (r : regex) (w rest : string) : Prop :=
  match r with
  | Eps => w = EmptyString
  | Chr p => exists c, w = String c EmptyString /\ p c = true
  | Seq r1 r2 =>
      exists w1 w2, w = w1 +:+ w2 /\ lang r1 w1 (w2 +:+ rest) /\ lang r2 w2 rest
  | Opt r1 => w = EmptyString \/ lang r1 w rest
  | Rep lo hi p =>
      Str.all p w = true /\ lo <= String.length w /\
      match hi with Some h => String.length w <= h | None => True end
  | Grp r1 => lang r1 w rest
  | Ahead r1 =>
      w = EmptyString /\ exists w1 rest1, rest = w1 +:+ rest1 /\ lang r1 w1 rest1
  | Eos =>
      w = EmptyString /\
      (rest = EmptyString \/ rest = String Char.newline EmptyString)
  end.

(** A lower bound on the length of a match. *)
Fixpoint min_length (r : regex) : nat :=
  match r with
  | Eps | Opt _ | Ahead _ | Eos => 0
  | Chr _ => 1
  | Seq r1 r2 => min_length r1 + min_length r2
  | Rep lo _ _ => lo
  | Grp r1 => min_length r1
  end.

(** An upper bound on the occurrences of the character [c] in a match;
    [None] when there is no bound. *)
Fixpoint max_count (c : ascii) (r : regex) : option nat :=
  match r with
  | Eps | Ahead _ | Eos => Some 0
  | Chr p => Some (if p c then 1 else 0)
  | Seq r1 r2 =>
      match max_count c r1, max_count c r2 with
      | Some a, Some b => Some (a + b)
      | _, _ => None
      end
  | Opt r1 | Grp r1 => max_count c r1
  | Rep _ hi p => if p c then hi else Some 0
  end.

(** [pattern.findall(s)] for a pattern with one capturing group that does
    not match the empty string: the text of the group in each match (the
    empty string when the group took no part in it). *)
Fixpoint findall_group_from (r : regex) (skip : nat) (s : string) : list string :=
  match skip with
  | S skip' =>
      match s with
      | String _ s' => findall_group_from r skip' s'
      | EmptyString => []
      end
  | 0 =>
      match match_ r s with
      | Some (m, caps) =>
          hd EmptyString caps
          :: match s with
             | String _ s' => findall_group_from r (Nat.pred (String.length m)) s'
             | EmptyString => []
             end
      | None =>
          match s with
          | String _ s' => findall_group_from r 0 s'
          | EmptyString => []
          end
      end
  end.

Definition findall_group (r : regex) (s : string) : list string :=
  findall_group_from r 0 s.

End Re.

(** ** Constants ([constants.py])

    [FORMULA_GENERATION['MAX_FORMULA_LENGTH']] is read from the environment
    variable [FORMULA_MAX_LENGTH]; the value below is its default. *)

Module Constants.

Definition MAX_FORMULA_LENGTH : nat := 1000.

Definition AI_002 : string :=
  "Formula Generation Failed - Unable to generate formula. Check input parameters".

Definition AI_003 : string :=
  "Invalid Input Format - Input data does not match required schema".

End Constants.

(** ** Exceptions and results *)

Inductive exn : Type :=
| KeyError (key : string)
| IndexError (msg : string)
| ValueError (msg : string)
| RecursionError (msg : string).

(** [str(e)].  For a [KeyError] this is the [repr] of the key; the keys
    looked up here are operator texts, whose [repr] is the text between
    single quotes. *)
Definition str_of_exn (e : exn) : string :=
  match e with
  | KeyError key => "'" +:+ key +:+ "'"
  | IndexError msg | ValueError msg | RecursionError msg => msg
  end.

(** [{'success': True, ...}] or [{'success': False, 'error': ..., 'details': ...}]. *)
Inductive result (A : Type) : Type :=
| Success (a : A)
| Failure (error details : string).
Arguments Success {A} a.
Arguments Failure {A} error details.

(** The ways a loop body or a protected block can end. *)
Inductive control (S R : Type) : Type :=
| Next (s : S)
| Return (r : R)
| Raise (e : exn).
Arguments Next {S R} s.
Arguments Return {S R} r.
Arguments Raise {S R} e.

(** ** The formula parser ([formula_parser.py]) *)

Module FormulaParser.

Import Re.

(** [re.compile(r'([A-Z]+)(?=\()', re.IGNORECASE)] *)
Definition _function_pattern : regex :=
  (Grp (Plus Char.re_letter) +> Ahead (Chr (Char.lit "(")))%re.

(** [re.compile(r'[\+\-\*/\^&=><]+')] *)
Definition _operator_pattern : regex := Plus Char.re_operator_char.

(** [re.compile(r'(?:\'?[A-Za-z0-9\s]+\'?!)?\$?[A-Z]+\$?\d+(?:\:\$?[A-Z]+\$?\d+)?', re.IGNORECASE)] *)
Definition _reference_pattern : regex :=
  (Opt (Maybe (Char.lit Char.squote) +> Plus Char.re_sheet_char
        +> Maybe (Char.lit Char.squote) +> Chr (Char.lit "!"))
   +> Maybe (Char.lit "$") +> Plus Char.re_letter
   +> Maybe (Char.lit "$") +> Plus Char.re_digit
   +> Opt (Chr (Char.lit ":") +> Maybe (Char.lit "$") +> Plus Char.re_letter
           +> Maybe (Char.lit "$") +> Plus Char.re_digit))%re.

(** *** Tokens *)

Inductive token_type : Type :=
| function | reference | operator | delimiter | number | string_.

Record token : Type := Token {
  type : token_type;
  value : string;
  position : nat
}.

(** The number of leading characters of [s] that satisfy [p]. *)
Fixpoint span (p : ascii -> bool) (s : string) : nat :=
  match s with
  | String c s' => if p c then S (span p s') else 0
  | EmptyString => 0
  end.

(** [while current_pos < formula_len and p(formula[current_pos]): current_pos += 1] *)
Definition scan_while (p : ascii -> bool) (formula : string) (current_pos : nat) : nat :=
  current_pos + span p (Str.drop current_pos formula).

(** The only failure the scanning loop returns. *)
Definition unexpected_character (current_pos : nat) (char : ascii) : result (list token) :=
  Failure Constants.AI_002
    ("Unexpected character at position " +:+ Str.of_nat current_pos +:+ ": "
     +:+ Str.of_char char).

Definition scan_state : Type := (nat * list token)%type.

(** One iteration of [while current_pos < formula_len], for
    [char = formula[current_pos]] and [rest = formula[current_pos:]]: the
    position and tokens of the next iteration, or the failure returned. *)
Definition tokenize_step (formula : string) (current_pos : nat) (char : ascii)
    (rest : string) (tokens : list token)
    : control scan_state (result (list token)) :=
  if Char.isspace char then Next (current_pos + 1, tokens)
  else
  match (if Char.isalpha char then group0 _function_pattern rest else None) with
  | Some func_name =>
      Next (current_pos + String.length func_name,
            tokens ++ [Token function func_name current_pos])
  | None =>
  match group0 _reference_pattern rest with
  | Some ref =>
      Next (current_pos + String.length ref,
            tokens ++ [Token reference ref current_pos])
  | None =>
  match group0 _operator_pattern rest with
  | Some op =>
      Next (current_pos + String.length op,
            tokens ++ [Token operator op current_pos])
  | None =>
  if Str.mem char "(),:" then
    Next (current_pos + 1,
          tokens ++ [Token delimiter (Str.of_char char) current_pos])
  else if Char.isdigit char || Char.lit "." char then
    let num_start := current_pos in
    let current_pos :=
      scan_while (fun c => Char.isdigit c || Char.lit "." c) formula current_pos in
    Next (current_pos,
          tokens ++ [Token number (Str.slice num_start current_pos formula) num_start])
  else if Char.lit Char.dquote char then
    let str_start := current_pos in
    let current_pos :=
      scan_while (fun c => negb (Char.lit Char.dquote c)) formula (current_pos + 1) in
    if current_pos <? String.length formula then
      Next (current_pos + 1,
            tokens ++ [Token string_ (Str.slice str_start (current_pos + 1) formula)
                         str_start])
    else Return (unexpected_character current_pos char)
  else Return (unexpected_character current_pos char)
  end end end.

(** The loop of [tokenize] inside its [try].  One unit of [fuel] is spent
    per iteration; [None] means that the fuel ran out. *)
Fixpoint tokenize_loop (fuel : nat) (formula : string) (current_pos : nat)
    (tokens : list token) : option (result (list token)) :=
  match Str.drop current_pos formula with
  | EmptyString => Some (Success tokens)
  | String char _ as rest =>
      match fuel with
      | 0 => None
      | S fuel' =>
          match tokenize_step formula current_pos char rest tokens with
          | Next (current_pos, tokens) => tokenize_loop fuel' formula current_pos tokens
          | Return r => Some r
          | Raise e =>
              Some (Failure Constants.AI_002 ("Tokenization failed: " +:+ str_of_exn e))
          end
      end
  end.

(** [tokenize]: scanning starts at index 1.  An iteration consumes at
    least one character, so the length of the formula is enough fuel
    ([tokenize_returns] below). *)
Definition tokenize (formula : string) : option (result (list token)) :=
  tokenize_loop (String.length formula) formula 1 [].

(** The states [(current_pos, tokens)] in which the loop of [tokenize]
    stands at the head of an iteration. *)
Inductive reaches (formula : string) : nat -> list token -> Prop :=
| reaches_start : reaches formula 1 []
| reaches_next (pos : nat) (tokens : list token) (char : ascii) (rest : string)
    (pos' : nat) (tokens' : list token) :
    reaches formula pos tokens ->
    Str.drop pos formula = String char rest ->
    tokenize_step formula pos char (String char rest) tokens = Next (pos', tokens') ->
    reaches formula pos' tokens'.

(** The scan arrives at a double quote that no later double quote closes. *)
Definition opens_unterminated_string (formula : string) : Prop :=
  exists pos tokens rest,
    reaches formula pos tokens /\
    Str.drop pos formula = String Char.dquote rest /\
    Str.mem Char.dquote rest = false.

(** An example: a formula that opens a string and never closes it. *)
Definition open_string : string := String "=" (String Char.dquote "abc").

(** *** The tree builder *)

(** The dictionaries that [build_ast] keeps on its stack and in its
    output, by their ['type']. *)
Inductive item : Type :=
| operand (value : string) (token_type : token_type)
| function_item (value : string) (arg_count : nat)
| operator_item (value : string)
| left_paren
| function_call (value : string) (arg_count : nat).

Inductive associativity : Type := left_assoc | right_assoc.

(** The [operators] table: precedence and associativity. *)
Definition operators (op : string) : option (nat * associativity) :=
  if String.eqb op "+" then Some (1, left_assoc)
  else if String.eqb op "-" then Some (1, left_assoc)
  else if String.eqb op "*" then Some (2, left_assoc)
  else if String.eqb op "/" then Some (2, left_assoc)
  else if String.eqb op "^" then Some (3, right_assoc)
  else if String.eqb op "&" then Some (1, left_assoc)
  else if String.eqb op "=" then Some (0, left_assoc)
  else if String.eqb op ">" then Some (0, left_assoc)
  else if String.eqb op "<" then Some (0, left_assoc)
  else None.

(** The nodes of the tree: [{'type': token_type, 'value': ...}],
    [{'type': 'operation', ...}] and [{'type': 'function', ...}]. *)
#[warnings="-register-all"]
Inductive node : Type :=
| operand_node (type : token_type) (value : string)
| operation (operator : string) (left right : node)
| function_node (name : string) (arguments : list node).

(** The failure of the two return sites for unbalanced parentheses. *)
Definition mismatched_parentheses : result (option node) :=
  Failure Constants.AI_002 "Mismatched parentheses".

(** A Python list used as a stack is kept here with its top, the end of
    the Python list, first; [stack[0]] is then the last element. *)
Definition shunting_state : Type := (list item * list item)%type.

(** The [while] loop of the operator case: pop to the output while the top
    of the stack is an operator that binds at least as tightly.  Both
    table lookups raise [KeyError] on a text that is not in the table. *)
Fixpoint pop_operators (tv : string) (stack output : list item)
    : control shunting_state (result (option node)) :=
  match stack with
  | operator_item top :: stack' =>
      match operators tv with
      | None => Raise (KeyError tv)
      | Some (prec, assoc) =>
          match operators top with
          | None => Raise (KeyError top)
          | Some (top_prec, _) =>
              if match assoc with
                 | left_assoc => prec <=? top_prec
                 | right_assoc => prec <? top_prec
                 end
              then pop_operators tv stack' (output ++ [operator_item top])
              else Next (stack, output)
          end
      end
  | _ => Next (stack, output)
  end.

(** [while stack and stack[-1]['type'] != 'left_paren': output.append(stack.pop())] *)
Fixpoint pop_to_paren (stack output : list item) : shunting_state :=
  match stack with
  | [] => ([], output)
  | left_paren :: _ => (stack, output)
  | it :: stack' => pop_to_paren stack' (output ++ [it])
  end.

(** The body of [for token in tokens] in [build_ast]. *)
Definition shunting_step (tok : token) (st : shunting_state)
    : control shunting_state (result (option node)) :=
  let '(stack, output) := st in
  match type tok with
  | number | string_ | reference =>
      Next (stack, output ++ [operand (value tok) (type tok)])
  | function => Next (function_item (value tok) 0 :: stack, output)
  | operator =>
      match pop_operators (value tok) stack output with
      | Next (stack, output) => Next (operator_item (value tok) :: stack, output)
      | other => other
      end
  | delimiter =>
      if String.eqb (value tok) "(" then Next (left_paren :: stack, output)
      else if String.eqb (value tok) ")" then
        match pop_to_paren stack output with
        | ([], _) => Return mismatched_parentheses
        | (_ :: function_item func_value func_arg_count :: stack, output) =>
            Next (stack, output ++ [function_call func_value (func_arg_count + 1)])
        | (_ :: stack, output) => Next (stack, output)
        end
      else if String.eqb (value tok) "," then
        match pop_to_paren stack output with
        | ([], _) => Return (Failure Constants.AI_002 "Invalid formula structure")
        | (function_item v n :: stack, output) =>
            Next (function_item v (n + 1) :: stack, output)
        | (stack, output) => Next (stack, output)
        end
      else Next (stack, output)
  end.

Fixpoint shunting_loop (tokens : list token) (st : shunting_state)
    : control shunting_state (result (option node)) :=
  match tokens with
  | [] => Next st
  | tok :: tokens' =>
      match shunting_step tok st with
      | Next st' => shunting_loop tokens' st'
      | other => other
      end
  end.

(** [while stack: ...] after the tokens: a left parenthesis still on the
    stack is a failure, everything else goes to the output. *)
Fixpoint empty_stack (stack output : list item)
    : control (list item) (result (option node)) :=
  match stack with
  | [] => Next output
  | left_paren :: _ => Return mismatched_parentheses
  | it :: stack' => empty_stack stack' (output ++ [it])
  end.

(** [list.pop()] on an empty list. *)
Definition pop_from_empty_list : exn := IndexError "pop from empty list".

(** [for _ in range(n): args.insert(0, stack.pop())] *)
Fixpoint pop_arguments (n : nat) (stack args : list node)
    : exn + (list node * list node) :=
  match n with
  | 0 => inr (stack, args)
  | S n' =>
      match stack with
      | [] => inl pop_from_empty_list
      | top :: stack' => pop_arguments n' stack' (top :: args)
      end
  end.

(** The [for token in postfix] loop of [_build_tree]. *)
Fixpoint build_tree_loop (postfix : list item) (stack : list node)
    : exn + list node :=
  match postfix with
  | [] => inr stack
  | operand v kind :: postfix' => build_tree_loop postfix' (operand_node kind v :: stack)
  | operator_item v :: postfix' =>
      match stack with
      | rhs :: lhs :: stack' =>
          build_tree_loop postfix' (operation v lhs rhs :: stack')
      | _ => inl pop_from_empty_list
      end
  | function_call v n :: postfix' =>
      match pop_arguments n stack [] with
      | inl e => inl e
      | inr (stack', args) => build_tree_loop postfix' (function_node v args :: stack')
      end
  | _ :: postfix' => build_tree_loop postfix' stack
  end.

(** Whether the operand stack underflows on [postfix], started at the
    given height: only the heights are followed. *)
Fixpoint underflows (postfix : list item) (height : nat) : bool :=
  match postfix with
  | [] => false
  | operand _ _ :: postfix' => underflows postfix' (S height)
  | operator_item _ :: postfix' =>
      if height <? 2 then true else underflows postfix' (height - 1)
  | function_call _ n :: postfix' =>
      if height <? n then true else underflows postfix' (height - n + 1)
  | _ :: postfix' => underflows postfix' height
  end.

(** [_build_tree]: [stack[0] if stack else None]. *)
Definition _build_tree (postfix : list item) : exn + option node :=
  match build_tree_loop postfix [] with
  | inl e => inl e
  | inr stack => inr (List.last (map Some stack) None)
  end.

(** The shunting-yard half of [build_ast]: the postfix output it hands to
    [_build_tree]. *)
Definition to_postfix (tokens : list token)
    : control (list item) (result (option node)) :=
  match shunting_loop tokens ([], []) with
  | Next (stack, output) => empty_stack stack output
  | Return r => Return r
  | Raise e => Raise e
  end.

Definition construction_failed (e : exn) : result (option node) :=
  Failure Constants.AI_002 ("AST construction failed: " +:+ str_of_exn e).

(** [build_ast]: the protected block and its [except Exception] clause. *)
Definition build_ast (tokens : list token) : result (option node) :=
  match to_postfix tokens with
  | Next output =>
      match _build_tree output with
      | inr tree => Success tree
      | inl e => construction_failed e
      end
  | Return r => r
  | Raise e => construction_failed e
  end.

(** An example: the tokens of [=SUM()], whose postfix form asks for one argument that
    was never pushed. *)
Definition sum_without_arguments : list token :=
  [Token function "SUM" 1; Token delimiter "(" 4; Token delimiter ")" 5].

(** *** Validation of the tree and complexity metrics *)

(** [{'success': ..., 'errors': [...], 'warnings': [...]}] *)
Record validation_result : Type := {
  vr_success : bool;
  vr_errors : list string;
  vr_warnings : list string
}.

(** [validate_node]: a [node] is a dictionary with a ['type'], an
    operation has its three keys and a function its two, so none of the
    checks of the source can fail and the walk leaves the accumulator as it
    found it. *)
Fixpoint validate_node (n : node) (acc : validation_result) : validation_result :=
  match n with
  | operand_node _ _ => acc
  | operation _ lhs rhs => validate_node rhs (validate_node lhs acc)
  | function_node _ args => fold_left (fun acc arg => validate_node arg acc) args acc
  end.

(** What [_validate_ast] returns: [{'success': False, 'error': 'Empty AST'}]
    or the accumulated [validation_result]. *)
Inductive ast_validation : Type :=
| empty_ast
| checked (r : validation_result).

Definition succeeded (v : ast_validation) : bool :=
  match v with
  | empty_ast => false
  | checked r => vr_success r
  end.

Definition _validate_ast (ast : option node) : ast_validation :=
  match ast with
  | None => empty_ast
  | Some tree =>
      checked (validate_node tree
                 {| vr_success := true; vr_errors := []; vr_warnings := [] |})
  end.

Record metrics : Type := {
  depth : nat;
  operations : nat;
  functions : nat;
  references : nat
}.

Fixpoint analyze_node (n : node) (d : nat) (m : metrics) : metrics :=
  let m := {| depth := Nat.max (depth m) d; operations := operations m;
              functions := functions m; references := references m |} in
  match n with
  | operation _ lhs rhs =>
      let m := {| depth := depth m; operations := operations m + 1;
                  functions := functions m; references := references m |} in
      analyze_node rhs (d + 1) (analyze_node lhs (d + 1) m)
  | function_node _ args =>
      let m := {| depth := depth m; operations := operations m;
                  functions := functions m + 1; references := references m |} in
      fold_left (fun m arg => analyze_node arg (d + 1) m) args m
  | operand_node reference _ =>
      {| depth := depth m; operations := operations m;
         functions := functions m; references := references m + 1 |}
  | operand_node _ _ => m
  end.

Definition _calculate_complexity (ast : node) : metrics :=
  analyze_node ast 1 {| depth := 0; operations := 0; functions := 0; references := 0 |}.

(** *** [parse] *)

Inductive parse_result : Type :=
| parsed (tree : node) (complexity : metrics) (validation : ast_validation)
| parse_failure (error details : string)
| validation_failure (validation : ast_validation).

(** [parse]: the result of the first stage that fails, or the tree with
    its metrics.  The stages catch their own exceptions and the remaining
    statements cannot raise, so the outer [except] clause is not modelled;
    [None] is the tokenizer out of fuel. *)
Definition parse (formula : string) : option parse_result :=
  if String.eqb formula "" then
    Some (parse_failure Constants.AI_003 "Invalid formula input")
  else
    let formula := if Str.startswith "=" formula then formula else "=" +:+ formula in
    if Constants.MAX_FORMULA_LENGTH <? String.length formula then
      Some (parse_failure Constants.AI_002 "Formula exceeds maximum length")
    else
      match tokenize formula with
      | None => None
      | Some (Failure error details) => Some (parse_failure error details)
      | Some (Success tokens) =>
          match build_ast tokens with
          | Failure error details => Some (parse_failure error details)
          | Success ast =>
              let validation := _validate_ast ast in
              match ast with
              | Some tree =>
                  if succeeded validation then
                    Some (parsed tree (_calculate_complexity tree) validation)
                  else Some (validation_failure validation)
              | None => Some (validation_failure validation)
              end
          end
      end.

(** *** Dependency analysis *)

Record cross_sheet_reference : Type := {
  cs_sheet : string;
  cs_reference : string
}.

Record validation_status : Type := {
  success : bool;
  errors : list string
}.

Record dependencies : Type := {
  direct : list string;
  indirect : list string;
  circular : list string;
  cross_sheet : list cross_sheet_reference;
  validation : validation_status
}.

(** [sheet, cell = parts]: unpacking into two names. *)
Definition unpack_pair (parts : list string) : exn + (string * string) :=
  match parts with
  | [a; b] => inr (a, b)
  | _ :: _ :: _ :: _ => inl (ValueError "too many values to unpack (expected 2)")
  | _ => inl (ValueError ("not enough values to unpack (expected 2, got "
                          +:+ Str.of_nat (length parts) +:+ ")"))
  end.

(** The [for ref in references] loop of [analyze_dependencies]: the lists
    [dependencies['direct']] and [dependencies['cross_sheet']]. *)
Fixpoint classify (refs : list string) (direct : list string)
    (cross_sheet : list cross_sheet_reference)
    : exn + (list string * list cross_sheet_reference) :=
  match refs with
  | [] => inr (direct, cross_sheet)
  | ref :: refs' =>
      if Str.mem "!" ref then
        match unpack_pair (Str.split "!" ref) with
        | inl e => inl e
        | inr (sheet, cell) =>
            classify refs' direct
              (cross_sheet ++ [{| cs_sheet := Str.strip Char.squote sheet;
                                  cs_reference := cell |}])
        end
      else classify refs' (direct ++ [ref]) cross_sheet
  end.

(** The entry of [cross_sheet] that the specification describes for a
    reference with a sheet prefix. *)
Definition cross_sheet_entry (ref : string) : cross_sheet_reference :=
  {| cs_sheet := Str.strip Char.squote (Str.before "!" ref);
     cs_reference := Str.after "!" ref |}.

Section CircularReferences.

(** The instance field [_dependency_map], and the number of nested calls
    of [check_circular] that the interpreter's recursion limit leaves room
    for at the call of [_detect_circular_references]. *)
Variable _dependency_map : gmap string (list string).
Variable recursion_limit : nat.

Definition recursion_error : exn := RecursionError "maximum recursion depth exceeded".

(** The state shared by the calls of [check_circular]: the list
    [circular_refs] and the set [visited]. *)
Definition search_state : Type := (list string * gset string)%type.

(** [check_circular(ref, path)].  [room] is the number of calls that still
    fit on the stack.  [path] is a Python set; it is kept as the list of
    its elements in the order they were added, which fixes the order in
    which ['->'.join(path)] lists them (Python leaves it to the hash
    order). *)
Fixpoint check_circular (room : nat) (ref : string) (path : list string)
    (st : search_state) : exn + search_state :=
  match room with
  | 0 => inl recursion_error
  | S room' =>
      let '(circular_refs, visited) := st in
      if bool_decide (ref ∈ path) then
        inr (circular_refs ++ [Str.join "->" path +:+ "->" +:+ ref], visited)
      else if bool_decide (ref ∈ visited) then inr st
      else
        let visited := visited ∪ {[ref]} in
        let new_path := path ++ [ref] in
        match _dependency_map !! ref with
        | Some deps =>
            (fix each (deps : list string) (st : search_state) : exn + search_state :=
               match deps with
               | [] => inr st
               | dep :: deps' =>
                   match check_circular room' dep new_path st with
                   | inl e => inl e
                   | inr st' => each deps' st'
                   end
               end) deps (circular_refs, visited)
        | None => inr (circular_refs, visited)
        end
  end.

(** The [for ref in current_refs] loop. *)
Fixpoint check_each (refs : list string) (st : search_state) : exn + search_state :=
  match refs with
  | [] => inr st
  | ref :: refs' =>
      match check_circular recursion_limit ref [] st with
      | inl e => inl e
      | inr st' => check_each refs' st'
      end
  end.

(** [_detect_circular_references].  [current_refs] is a Python set, walked
    in the order of its hashes; here it is a list without duplicates,
    walked from its head. *)
Definition _detect_circular_references (formula sheet_name : string)
    (current_refs : list string) : exn + list string :=
  match check_each current_refs ([], ∅) with
  | inl e => inl e
  | inr (circular_refs, _) => inr circular_refs
  end.

(** The protected block of [analyze_dependencies]. *)
Definition analyze_block (formula sheet_name : string) : exn + dependencies :=
  let references := findall _reference_pattern formula in
  match classify references [] [] with
  | inl e => inl e
  | inr (direct, cross_sheet) =>
      match _detect_circular_references formula sheet_name (remove_dups direct) with
      | inl e => inl e
      | inr [] =>
          inr {| direct := direct; indirect := []; circular := [];
                 cross_sheet := cross_sheet;
                 validation := {| success := true; errors := [] |} |}
      | inr circular =>
          inr {| direct := direct; indirect := []; circular := circular;
                 cross_sheet := cross_sheet;
                 validation := {| success := false;
                                  errors := ["Circular reference detected"] |} |}
      end
  end.

(** The record of the [except Exception] clause. *)
Definition analysis_failed (e : exn) : dependencies :=
  {| direct := []; indirect := []; circular := []; cross_sheet := [];
     validation := {| success := false;
                      errors := ["Dependency analysis failed: " +:+ str_of_exn e] |} |}.

Definition analyze_dependencies (formula sheet_name : string) : dependencies :=
  match analyze_block formula sheet_name with
  | inr deps => deps
  | inl e => analysis_failed e
  end.

End CircularReferences.

(** *** Measures used to state properties of the parser *)

(** The index just past a token. *)
Definition token_end (t : token) : nat := position t + String.length (value t).

(** A token stands in the formula: its text is not empty, lies after the
    first character and within the formula, and is the text of the formula
    at its position. *)
Definition in_place (formula : string) (t : token) : Prop :=
  value t <> EmptyString /\
  1 <= position t /\
  token_end t <= String.length formula /\
  Str.slice (position t) (token_end t) formula = value t.

(** Tokens that follow one another without overlap, none of them starting
    before [from]. *)
Fixpoint in_order (from : nat) (tokens : list token) : Prop :=
  match tokens with
  | [] => True
  | t :: tokens' => from <= position t /\ in_order (token_end t) tokens'
  end.

(** Whether a token is the delimiter with the given text. *)
Definition is_delimiter (text : string) (t : token) : bool :=
  match type t with
  | delimiter => String.eqb (value t) text
  | _ => false
  end.

(** The number of opening, and of closing, parentheses among tokens. *)
Definition opens (tokens : list token) : nat :=
  length (List.filter (is_delimiter "(") tokens).

Definition closes (tokens : list token) : nat :=
  length (List.filter (is_delimiter ")") tokens).

(** Whether a token is a number, a string or a reference. *)
Definition is_operand (t : token) : bool :=
  match type t with
  | number | string_ | reference => true
  | _ => false
  end.

(** Every function node of the tree has exactly one argument. *)
Fixpoint single_argument (n : node) : Prop :=
  match n with
  | operand_node _ _ => True
  | operation _ lhs rhs => single_argument lhs /\ single_argument rhs
  | function_node _ arguments =>
      length arguments = 1 /\
      (fix each (l : list node) : Prop :=
         match l with
         | [] => True
         | arg :: l' => single_argument arg /\ each l'
         end) arguments
  end.

(** The number of operand leaves of a tree, and of operands of a postfix
    sequence. *)
Fixpoint leaves (n : node) : nat :=
  match n with
  | operand_node _ _ => 1
  | operation _ lhs rhs => leaves lhs + leaves rhs
  | function_node _ arguments =>
      (fix total (l : list node) : nat :=
         match l with
         | [] => 0
         | arg :: l' => leaves arg + total l'
         end) arguments
  end.

Definition total_leaves (stack : list node) : nat := list_sum (map leaves stack).

Fixpoint operands (postfix : list item) : nat :=
  match postfix with
  | [] => 0
  | operand _ _ :: postfix' => S (operands postfix')
  | _ :: postfix' => operands postfix'
  end.

(** The height of a tree and the numbers of its operation nodes, function
    nodes and reference leaves. *)
Fixpoint height (n : node) : nat :=
  match n with
  | operand_node _ _ => 1
  | operation _ lhs rhs => S (Nat.max (height lhs) (height rhs))
  | function_node _ arguments =>
      S ((fix highest (l : list node) : nat :=
            match l with
            | [] => 0
            | arg :: l' => Nat.max (height arg) (highest l')
            end) arguments)
  end.

Fixpoint operation_nodes (n : node) : nat :=
  match n with
  | operand_node _ _ => 0
  | operation _ lhs rhs => S (operation_nodes lhs + operation_nodes rhs)
  | function_node _ arguments =>
      (fix total (l : list node) : nat :=
         match l with
         | [] => 0
         | arg :: l' => operation_nodes arg + total l'
         end) arguments
  end.

Fixpoint function_nodes (n : node) : nat :=
  match n with
  | operand_node _ _ => 0
  | operation _ lhs rhs => function_nodes lhs + function_nodes rhs
  | function_node _ arguments =>
      S ((fix total (l : list node) : nat :=
            match l with
            | [] => 0
            | arg :: l' => function_nodes arg + total l'
            end) arguments)
  end.

Fixpoint reference_leaves (n : node) : nat :=
  match n with
  | operand_node reference _ => 1
  | operand_node _ _ => 0
  | operation _ lhs rhs => reference_leaves lhs + reference_leaves rhs
  | function_node _ arguments =>
      (fix total (l : list node) : nat :=
         match l with
         | [] => 0
         | arg :: l' => reference_leaves arg + total l'
         end) arguments
  end.

(** The end of the last of the tokens, or [from] when there is none. *)
Definition scanned (from : nat) (tokens : list token) : nat :=
  fold_left (fun _ t => token_end t) tokens from.

(** What holds of the tokens at the head of every iteration. *)
Definition placed (formula : string) (pos : nat) (tokens : list token) : Prop :=
  1 <= pos /\ Forall (in_place formula) tokens /\
  in_order 1 tokens /\ scanned 1 tokens <= pos.

(** What the stack of [build_ast] holds: operators, left parentheses and
    functions whose argument counter is still 0. *)
Definition stack_item (it : item) : Prop :=
  match it with
  | operator_item _ | left_paren => True
  | function_item _ n => n = 0
  | _ => False
  end.

(** What the output of [build_ast] holds: no left parenthesis, and
    function calls of one argument. *)
Definition output_item (it : item) : Prop :=
  match it with
  | function_call _ n => n = 1
  | left_paren => False
  | _ => True
  end.

(** The number of left parentheses on the stack. *)
Definition left_parens (stack : list item) : nat :=
  length (List.filter (fun it => match it with left_paren => true | _ => false end) stack).

(** What a token adds to the opening, and to the closing, parentheses. *)
Definition opening (tok : token) : nat := if is_delimiter "(" tok then 1 else 0.
Definition closing (tok : token) : nat := if is_delimiter ")" tok then 1 else 0.


(** *** Cycles of a dependency map *)

(** The map lists [second] among the references that [first] depends on. *)
Definition depends_on (dependency_map : gmap string (list string))
    (first second : string) : Prop :=
  exists deps, dependency_map !! first = Some deps /\ In second deps.

(** Each reference of the list depends on the next one. *)
Fixpoint chain (dependency_map : gmap string (list string)) (l : list string) : Prop :=
  match l with
  | first :: (second :: _) as l' =>
      depends_on dependency_map first second /\ chain dependency_map l'
  | _ => True
  end.

(** An entry of [circular] that names a cycle of the map: a chain of
    dependencies, joined by arrows, that ends on a reference it has
    already passed. *)
Definition cycle_report (dependency_map : gmap string (list string))
    (entry : string) : Prop :=
  exists path ref,
    entry = Str.join "->" path +:+ "->" +:+ ref /\
    In ref path /\ chain dependency_map (path ++ [ref]).

(** No chain of dependencies leads from a reference back to itself. *)
Definition acyclic (dependency_map : gmap string (list string)) : Prop :=
  forall ref between, ~ chain dependency_map (ref :: between ++ [ref]).

End FormulaParser.

(** ** The formula validator ([validation.py]) *)

Module FormulaValidator.

Import Re.

(** The dataclass [ValidationResult]; [error_code] defaults to the
    empty string and [error_details] to [None]. *)
Record ValidationResult : Type := {
  is_valid : bool;
  error_message : string;
  error_code : string;
  error_details : option (list (string * string))
}.

Definition valid : ValidationResult :=
  {| is_valid := true; error_message := ""; error_code := ""; error_details := None |}.

Definition invalid (message : string) : ValidationResult :=
  {| is_valid := false; error_message := message;
     error_code := Constants.AI_003; error_details := None |}.

(** The entries of [validation_context] that the checks read. *)
Record validation_context : Type := {
  max_rows : option Z;
  max_cols : option Z
}.

(** [re.compile(r'^\s*=\s*([^=].*$)')] *)
Definition _syntax_pattern : regex :=
  (Star Char.re_space +> Chr (Char.lit "=") +> Star Char.re_space
   +> Grp (Chr Char.re_not_equals +> Star Char.re_dot +> Eos))%re.

(** [\$?[A-Za-z]{1,3}\$?\d+] *)
Definition cell (group : regex -> regex) : regex :=
  (Maybe (Char.lit "$") +> group (Rep 1 (Some 3) Char.re_letter)
   +> Maybe (Char.lit "$") +> group (Plus Char.re_digit))%re.

Definition plain (r : regex) : regex := r.

(** [re.compile(r'\$?[A-Za-z]{1,3}\$?\d+(?::\$?[A-Za-z]{1,3}\$?\d+)?')] *)
Definition _reference_pattern : regex :=
  (cell plain +> Opt (Chr (Char.lit ":") +> cell plain))%re.

(** [r'^(\$?[A-Za-z]{1,3}\$?\d+)(:\$?[A-Za-z]{1,3}\$?\d+)?$'] *)
Definition reference_format_pattern : regex :=
  (Grp (cell plain) +> Opt (Grp (Chr (Char.lit ":") +> cell plain)) +> Eos)%re.

(** [r'\$?([A-Za-z]{1,3})\$?(\d+)'] *)
Definition reference_bounds_pattern : regex := cell Grp.

(** [r'[\+\-\*/]{2,}'] *)
Definition operator_run_pattern : regex := Rep 2 None Char.re_arith_char.

(** *** [validate_syntax] *)

(** The [brackets] table. *)
Definition brackets (c : ascii) : option ascii :=
  if Char.lit "(" c then Some ")"%char
  else if Char.lit "[" c then Some "]"%char
  else if Char.lit "{" c then Some "}"%char
  else None.

(** The [for char in formula] loop over the bracket stack; [None] is the
    early return on an unmatched closer. *)
Fixpoint balance (formula : string) (stack : list ascii) : option (list ascii) :=
  match formula with
  | EmptyString => Some stack
  | String char formula' =>
      match brackets char with
      | Some _ => balance formula' (char :: stack)
      | None =>
          if Str.mem char ")]}" then
            match stack with
            | [] => None
            | top :: stack' =>
                if bool_decide (Some char = brackets top) then balance formula' stack'
                else None
            end
          else balance formula' stack
      end
  end.

Section Validator.

(** The fields of the validator instance. *)
Variable _validation_context : validation_context.
Variable _max_formula_length : nat.

(** The body of [validate_syntax], without its cache. *)
Definition validate_syntax_body (formula : string) : ValidationResult :=
  if String.eqb formula "" || (_max_formula_length <? String.length formula) then
    invalid ("Formula length exceeds maximum of " +:+ Str.of_nat _max_formula_length
             +:+ " characters")
  else
  match match_ _syntax_pattern formula with
  | None => invalid "Formula must start with '='"
  | Some _ =>
      match balance formula [] with
      | None => invalid "Unmatched brackets or parentheses"
      | Some (_ :: _) => invalid "Unclosed brackets or parentheses"
      | Some [] =>
          match findall operator_run_pattern formula with
          | _ :: _ => invalid "Invalid operator combination found"
          | [] => valid
          end
      end
  end.

(** The state of [functools.lru_cache(maxsize=1000)], whose keys are the
    pairs of a validator instance and a formula: the cached calls of one
    instance, most recently used first. *)
Definition lru_cache : Type := list (string * ValidationResult).

Definition maxsize : nat := 1000.

Fixpoint cache_lookup (formula : string) (cache : lru_cache) : option ValidationResult :=
  match cache with
  | [] => None
  | (key, res) :: cache' =>
      if String.eqb key formula then Some res else cache_lookup formula cache'
  end.

Fixpoint cache_remove (formula : string) (cache : lru_cache) : lru_cache :=
  match cache with
  | [] => []
  | (key, res) :: cache' =>
      if String.eqb key formula then cache_remove formula cache'
      else (key, res) :: cache_remove formula cache'
  end.

(** A cache that holds results of the body only, as every cache filled by
    [validate_syntax] does. *)
Definition coherent (cache : lru_cache) : Prop :=
  forall formula res,
    cache_lookup formula cache = Some res -> res = validate_syntax_body formula.

(** [validate_syntax] as decorated: a hit returns the stored result and
    makes the entry the most recent; a miss runs the body, stores the
    result and drops the least recently used entry of a full cache. *)
Definition validate_syntax (cache : lru_cache) (formula : string)
    : ValidationResult * lru_cache :=
  match cache_lookup formula cache with
  | Some res => (res, (formula, res) :: cache_remove formula cache)
  | None =>
      let res := validate_syntax_body formula in
      (res, firstn maxsize ((formula, res) :: cache))
  end.

(** *** [validate_references] *)

(** [_column_to_number] *)
Definition _column_to_number (column : string) : Z :=
  fold_left
    (fun result char =>
       (result * 26 + (Z.of_N (Char.code char) - Z.of_N (Char.code "A") + 1))%Z)
    (list_ascii_of_string (Str.upper column)) 0%Z.

(** [int(s)] on a string of decimal digits. *)
Definition int (s : string) : Z :=
  fold_left (fun n c => (n * 10 + (Z.of_N (Char.code c) - 48))%Z)
    (list_ascii_of_string s) 0%Z.

Definition _validate_reference_format (reference : string) : bool :=
  match match_ reference_format_pattern reference with
  | Some _ => true
  | None => false
  end.

Definition _validate_reference_bounds (reference sheet_name : string) : bool :=
  let max_rows := default 1048576%Z (max_rows _validation_context) in
  let max_cols := default 16384%Z (max_cols _validation_context) in
  match match_ reference_bounds_pattern reference with
  | Some (_, [col; row]) =>
      let col_num := _column_to_number col in
      let row_num := int row in
      ((1 <=? row_num) && (row_num <=? max_rows)
       && (1 <=? col_num) && (col_num <=? max_cols))%Z
  | _ => false
  end.

(** The [for ref in references] loop of [validate_references]. *)
Fixpoint check_references (references : list string) (sheet_name : string)
    (existing_references : gset string) : ValidationResult :=
  match references with
  | [] => valid
  | ref :: references' =>
      if bool_decide (ref ∈ existing_references) then
        invalid ("Circular reference detected: " +:+ ref)
      else if negb (_validate_reference_format ref) then
        invalid ("Invalid cell reference format: " +:+ ref)
      else if negb (_validate_reference_bounds ref sheet_name) then
        invalid ("Cell reference " +:+ ref +:+ " is out of worksheet bounds")
      else check_references references' sheet_name existing_references
  end.

(** The three checks that a single reference has to pass. *)
Definition acceptable (sheet_name : string) (existing_references : gset string)
    (ref : string) : bool :=
  negb (bool_decide (ref ∈ existing_references))
  && _validate_reference_format ref
  && _validate_reference_bounds ref sheet_name.

(** [validate_references].  [references] is a Python set, walked in the
    order of its hashes; here it is a list without duplicates, walked from
    its head ([check_references_order] below: whether the result is valid
    does not depend on the order). *)
Definition validate_references (formula sheet_name : string)
    (existing_references : gset string) : ValidationResult :=
  check_references (remove_dups (findall _reference_pattern formula))
    sheet_name existing_references.

End Validator.

(** The brackets of one kind on the stack of [balance]. *)
Definition on_stack (open : ascii) (stack : list ascii) : nat :=
  length (List.filter (Ascii.eqb open) stack).

(** *** [validate_functions] and [check_semantic_validity] *)

(** [[A-Za-z_]] *)
Definition function_name_char (c : ascii) : bool :=
  Char.re_letter c || Char.lit "_" c.

(** [re.compile(r'([A-Za-z_]+)\s*\(')] *)
Definition _function_pattern : regex :=
  (Grp (Plus function_name_char) +> Star Char.re_space +> Chr (Char.lit "("))%re.

(** An entry of the table of valid functions: a dictionary that may hold
    ['min_args'] and ['max_args']. *)
Record function_spec : Type := {
  min_args : option nat;
  max_args : option nat
}.

(** [FORMULA_GENERATION.get('VALID_FUNCTIONS', {})]: the dictionary of
    [constants.py] has no such key, so the table of a validator is empty. *)
Definition VALID_FUNCTIONS : gmap string function_spec := ∅.

(** [_find_closing_parenthesis]: the loop over [enumerate(text)], at index
    [i] with the running [count]. *)
Fixpoint find_closing_from (text : string) (i : nat) (count : Z) : Z :=
  match text with
  | EmptyString => (-1)%Z
  | String char text' =>
      if Char.lit "(" char then find_closing_from text' (S i) (count + 1)%Z
      else if Char.lit ")" char then
        let count := (count - 1)%Z in
        if (count =? -1)%Z then Z.of_nat i
        else find_closing_from text' (S i) count
      else find_closing_from text' (S i) count
  end.

Definition _find_closing_parenthesis (text : string) : Z :=
  find_closing_from text 0 0%Z.

(** The state of the loop of [_parse_function_arguments]. *)
Record argument_state : Type := {
  args : list string;
  current_arg : string;
  paren_count : Z;
  in_quotes : bool
}.

Definition argument_step (st : argument_state) (char : ascii) : argument_state :=
  let append st :=
    {| args := args st; current_arg := current_arg st +:+ Str.of_char char;
       paren_count := paren_count st; in_quotes := in_quotes st |} in
  if Char.lit Char.dquote char then
    append {| args := args st; current_arg := current_arg st;
              paren_count := paren_count st; in_quotes := negb (in_quotes st) |}
  else if negb (in_quotes st) then
    if Char.lit "(" char then
      append {| args := args st; current_arg := current_arg st;
                paren_count := (paren_count st + 1)%Z; in_quotes := in_quotes st |}
    else if Char.lit ")" char then
      append {| args := args st; current_arg := current_arg st;
                paren_count := (paren_count st - 1)%Z; in_quotes := in_quotes st |}
    else if Char.lit "," char && (paren_count st =? 0)%Z then
      {| args := args st ++ [Str.strip_space (current_arg st)];
         current_arg := EmptyString;
         paren_count := paren_count st; in_quotes := in_quotes st |}
    else append st
  else append st.

Fixpoint argument_loop (args_str : string) (st : argument_state) : argument_state :=
  match args_str with
  | EmptyString => st
  | String char args_str' => argument_loop args_str' (argument_step st char)
  end.

(** [_parse_function_arguments] *)
Definition _parse_function_arguments (args_str : string) : list string :=
  let st := argument_loop args_str
              {| args := []; current_arg := EmptyString;
                 paren_count := 0%Z; in_quotes := false |} in
  if String.eqb (current_arg st) EmptyString then args st
  else args st ++ [Str.strip_space (current_arg st)].

(** [_validate_formula_complexity]: the loop that follows the nesting
    depth and its maximum. *)
Fixpoint nesting (formula : string) (depth max_depth : Z) : Z :=
  match formula with
  | EmptyString => max_depth
  | String char formula' =>
      if Char.lit "(" char then
        nesting formula' (depth + 1)%Z (Z.max max_depth (depth + 1)%Z)
      else if Char.lit ")" char then nesting formula' (depth - 1)%Z max_depth
      else nesting formula' depth max_depth
  end.

Definition _validate_formula_complexity (formula : string) : ValidationResult :=
  if (7 <? nesting formula 0 0)%Z then
    invalid "Formula exceeds maximum recommended nesting depth"
  else valid.

(** The entry of a semantic [context] that the checks read. *)
Record semantic_context : Type := {
  locale : option string
}.

(** [_validate_data_types] *)
Definition _validate_data_types (formula : string) (context : semantic_context)
    : ValidationResult := valid.

(** [_validate_locale_specific] *)
Definition _validate_locale_specific (formula : string) (context : semantic_context)
    : ValidationResult :=
  let locale := default "en-US" (locale context) in
  if (String.eqb locale "de-DE" || String.eqb locale "fr-FR")
     && Str.mem "." formula
  then invalid "Invalid decimal separator for locale"
  else valid.

(** [check_semantic_validity] *)
Definition check_semantic_validity (formula : string) (context : semantic_context)
    : ValidationResult :=
  let type_validation := _validate_data_types formula context in
  if negb (is_valid type_validation) then type_validation
  else
    let complexity_validation := _validate_formula_complexity formula in
    if negb (is_valid complexity_validation) then complexity_validation
    else
      let locale_validation := _validate_locale_specific formula context in
      if negb (is_valid locale_validation) then locale_validation
      else valid.

Section Functions.

(** The field [_valid_functions] of the validator instance. *)
Variable _valid_functions : gmap string function_spec.

(** [_validate_function_arguments] *)
Definition _validate_function_arguments (formula function_name : string)
    : ValidationResult :=
  match _valid_functions !! Str.upper function_name with
  | None => valid
  | Some {| min_args := None; max_args := None |} => valid
  | Some function_spec =>
      let args_start :=
        Z.to_nat (Str.find (function_name +:+ "(") formula
                  + Z.of_nat (String.length function_name) + 1) in
      let args_end := _find_closing_parenthesis (Str.drop args_start formula) in
      if (args_end =? -1)%Z then
        invalid ("Invalid argument structure for function: " +:+ function_name)
      else
        let args :=
          _parse_function_arguments
            (Str.slice args_start (args_start + Z.to_nat args_end) formula) in
        if (length args <? default 0 (min_args function_spec))
           || match max_args function_spec with
              | Some most => most <? length args
              | None => false
              end
        then invalid ("Invalid number of arguments for function: " +:+ function_name)
        else valid
  end.

(** The [for func in functions] loop of [validate_functions]. *)
Fixpoint check_functions (formula : string) (functions : list string)
    : ValidationResult :=
  match functions with
  | [] => valid
  | func :: functions' =>
      if negb (bool_decide (is_Some (_valid_functions !! Str.upper func))) then
        invalid ("Invalid or unsupported function: " +:+ func)
      else
        let arg_validation := _validate_function_arguments formula func in
        if negb (is_valid arg_validation) then arg_validation
        else check_functions formula functions'
  end.

(** [validate_functions] *)
Definition validate_functions (formula : string) : ValidationResult :=
  check_functions formula (findall_group _function_pattern formula).

End Functions.

(** A run of calls of [validate_syntax], one after the other: the results
    and the cache that the last call leaves. *)
Fixpoint validate_syntax_each (max_length : nat) (cache : lru_cache)
    (formulas : list string) : list ValidationResult * lru_cache :=
  match formulas with
  | [] => ([], cache)
  | formula :: formulas' =>
      let '(res, cache) := validate_syntax max_length cache formula in
      let '(results, cache) := validate_syntax_each max_length cache formulas' in
      (res :: results, cache)
  end.

(** The input is at its end or goes on with a character outside the class. *)
Definition head_fails (p : ascii -> bool) (s : string) : Prop :=
  match s with
  | EmptyString => True
  | String c _ => p c = false
  end.

(** By how many the opening parentheses of a text outnumber the closing
    ones. *)
Definition excess (text : string) : Z :=
  (Z.of_nat (Str.count "(" text) - Z.of_nat (Str.count ")" text))%Z.

(** A character that [_parse_function_arguments] only appends: no quote,
    parenthesis or comma. *)
Definition plain_char (c : ascii) : bool :=
  negb (Char.lit Char.dquote c || Char.lit "(" c || Char.lit ")" c || Char.lit "," c).

(** An optional [$]: nothing or the one character. *)
Definition dollar (d : string) : Prop := d = EmptyString \/ d = "$".

End FormulaValidator.

(** ** The formula model ([formula_model.py]) *)

Module Formula.

Import FormulaParser.

(** The dictionary [validation_cache]. *)
Record validation_cache_state : Type := {
  last_validated : option bool;
  validation_result : option (bool * string);
  ast_cache : option node
}.

(** The fields of a [Formula] that [validate] reads and writes.  The
    dictionaries [ast] and [dependencies] are empty until a validation
    fills them.  The parser of a formula is a fresh [FormulaParser], whose
    [_dependency_map] is empty and stays so. *)
Record formula : Type := {
  expression : string;
  sheet_name : string;
  ast : option node;
  dependencies : option FormulaParser.dependencies;
  validation_cache : validation_cache_state;
  validation_errors : list string
}.

(** [_sanitize_formula] *)
Definition _sanitize_formula (formula : string) : string :=
  let formula := if Str.startswith "=" formula then formula else "=" +:+ formula in
  let formula := Str.keep (fun char => (Char.code char <? 128)%N) formula in
  Str.join " " (Str.words formula).

(** A word of the sanitized formula: not empty, of characters below 128
    that are not whitespace. *)
Definition is_word (w : string) : bool :=
  negb (String.eqb w EmptyString)
  && Str.all (fun char => negb (Char.isspace char) && (Char.code char <? 128)%N) w.

Definition record_error (self : formula) (messages : list string) : formula :=
  {| expression := expression self; sheet_name := sheet_name self;
     ast := ast self; dependencies := dependencies self;
     validation_cache := validation_cache self;
     validation_errors := validation_errors self ++ messages |}.

Definition store_ast (self : formula) (tree : node) : formula :=
  {| expression := expression self; sheet_name := sheet_name self;
     ast := Some tree; dependencies := dependencies self;
     validation_cache :=
       {| last_validated := last_validated (validation_cache self);
          validation_result := validation_result (validation_cache self);
          ast_cache := Some tree |};
     validation_errors := validation_errors self |}.

Definition store_validation (self : formula) (deps : FormulaParser.dependencies)
    (outcome : bool * string) : formula :=
  {| expression := expression self; sheet_name := sheet_name self;
     ast := ast self; dependencies := Some deps;
     validation_cache :=
       {| last_validated := Some true;
          validation_result := Some outcome;
          ast_cache := ast_cache (validation_cache self) |};
     validation_errors := validation_errors self |}.

(** [validate]: the pair returned and the formula as the call leaves it.
    [recursion_limit] is the room on the stack for the circular search of
    the parser; [None] is the tokenizer out of fuel.  A failure of [parse]
    that comes from [_validate_ast] has no ['details'], and reading it
    raises the [KeyError] that the [except] clause reports. *)
Definition validate (recursion_limit : nat) (self : formula)
    : option ((bool * string) * formula) :=
  match validation_result (validation_cache self) with
  | Some cached => Some (cached, self)
  | None =>
      match parse (expression self) with
      | None => None
      | Some (parse_failure error details) =>
          Some ((false, error), record_error self [details])
      | Some (validation_failure _) =>
          Some ((false, Constants.AI_002),
                record_error self
                  ["Validation error: " +:+ str_of_exn (KeyError "details")])
      | Some (parsed tree _ _) =>
          let self := store_ast self tree in
          let dependency_result :=
            analyze_dependencies ∅ recursion_limit (expression self) (sheet_name self) in
          if negb (success (validation dependency_result)) then
            Some ((false, Constants.AI_002),
                  record_error self (errors (validation dependency_result)))
          else
            let outcome := (true, "Formula validation successful") in
            Some (outcome, store_validation self dependency_result outcome)
      end
  end.

End Formula.

(** ** The controller ([formula_controller.py]) *)

Module FormulaController.

Import FormulaValidator.

(** The context that [__init__] gives to the validator. *)
Definition context : validation_context :=
  {| max_rows := Some 1048576%Z; max_cols := Some 16384%Z |}.

(** [_validate_formula], for the expression of the formula it is given:
    the four checks in turn, the first failure returned.  The state of the
    cache of [validate_syntax] is passed along. *)
Definition _validate_formula (cache : lru_cache) (expression sheet_name locale : string)
    : ValidationResult * lru_cache :=
  let '(syntax_result, cache) :=
    validate_syntax Constants.MAX_FORMULA_LENGTH cache expression in
  if negb (is_valid syntax_result) then (syntax_result, cache)
  else
    let reference_result := validate_references context expression sheet_name ∅ in
    if negb (is_valid reference_result) then (reference_result, cache)
    else
      let function_result := validate_functions VALID_FUNCTIONS expression in
      if negb (is_valid function_result) then (function_result, cache)
      else
        let semantic_result :=
          check_semantic_validity expression {| locale := Some locale |} in
        if negb (is_valid semantic_result) then (semantic_result, cache)
        else (valid, cache).

End FormulaController.

(** * Properties *)

(** ** Strings *)

Module StrFacts.

Import Str.

Lemma app_cons (c : ascii) (a b : string) : String c a +:+ b = String c (a +:+ b).
Proof. reflexivity. Qed.

Lemma app_nil_l (s : string) : "" +:+ s = s.
Proof. reflexivity. Qed.

Lemma app_nil_r (s : string) : s +:+ "" = s.
Proof. induction s as [|c s IH]; [reflexivity|]. rewrite app_cons, IH. reflexivity. Qed.

Lemma app_assoc (a b c : string) : (a +:+ b) +:+ c = a +:+ (b +:+ c).
Proof. induction a as [|x a IH]; [reflexivity|]. rewrite !app_cons, IH. reflexivity. Qed.

Lemma length_app (a b : string) :
  String.length (a +:+ b) = String.length a + String.length b.
Proof. induction a as [|x a IH]; [reflexivity|]. rewrite app_cons. simpl. rewrite IH. reflexivity. Qed.

Lemma take_app (w s : string) :
  take (String.length (w +:+ s) - String.length s) (w +:+ s) = w.
Proof.
  rewrite length_app.
  replace (String.length w + String.length s - String.length s) with (String.length w) by lia.
  induction w as [|c w IH]; simpl.
  - destruct s; reflexivity.
  - rewrite IH. reflexivity.
Qed.

Lemma count_app (c : ascii) (a b : string) : count c (a +:+ b) = count c a + count c b.
Proof.
  induction a as [|x a IH]; [reflexivity|].
  rewrite app_cons. simpl. rewrite IH. lia.
Qed.

Lemma count_le_length (c : ascii) (s : string) : count c s <= String.length s.
Proof. induction s as [|x s IH]; simpl; [lia|]. destruct (Ascii.eqb c x); lia. Qed.

Lemma count_all (p : ascii -> bool) (c : ascii) (s : string) :
  p c = false -> all p s = true -> count c s = 0.
Proof.
  intros Hc. induction s as [|x s IH]; simpl; [reflexivity|].
  intros [Hx Hs]%andb_true_iff.
  destruct (Ascii.eqb_spec c x) as [->|_]; [congruence|]. auto.
Qed.

Lemma mem_count (c : ascii) (s : string) : mem c s = true <-> 1 <= count c s.
Proof.
  induction s as [|x s IH]; simpl; [split; [discriminate|lia]|].
  destruct (Ascii.eqb c x); simpl; [split; [lia|reflexivity]|exact IH].
Qed.

Lemma drop_length (n : nat) (s : string) :
  String.length (drop n s) = String.length s - n.
Proof.
  revert s; induction n as [|n IH]; intros [|c s]; simpl; auto.
Qed.

Lemma drop_succ (n : nat) (s : string) (c : ascii) (r : string) :
  drop n s = String c r -> drop (S n) s = r.
Proof.
  revert s; induction n as [|n IH]; intros [|x s]; simpl; try discriminate.
  - intros [= _ ->]. reflexivity.
  - apply IH.
Qed.

Lemma drop_add_one (n : nat) (s : string) (c : ascii) (r : string) :
  drop n s = String c r -> drop (n + 1) s = r.
Proof. rewrite Nat.add_1_r. apply drop_succ. Qed.

End StrFacts.

(** ** The matcher *)

Module ReFacts.

Import Re StrFacts.

(** What [rep] hands to its continuation. *)
Lemma rep_sound {A : Type} (p : ascii -> bool) (s : string) :
  forall (lo : nat) (hi : option nat) (k : string -> option A) (a : A),
  rep p lo hi s k = Some a ->
  exists w s', s = w +:+ s' /\ Str.all p w = true /\ lo <= String.length w /\
    match hi with Some h => String.length w <= h | None => True end /\
    k s' = Some a.
Proof.
  induction s as [|c s IH]; intros lo hi k a H; simpl in H.
  - destruct lo; [|discriminate].
    exists "", "". repeat split; simpl; auto. destruct hi; [lia|exact I].
  - assert (Hstop : match lo with 0 => k (String c s) | S _ => None end = Some a ->
        exists w s', String c s = w +:+ s' /\ Str.all p w = true /\
          lo <= String.length w /\
          match hi with Some h => String.length w <= h | None => True end /\
          k s' = Some a).
    { destruct lo; [|discriminate]. intros Hk.
      exists "", (String c s). repeat split; simpl; auto. destruct hi; [lia|exact I]. }
    destruct (p c && may_repeat hi) eqn:Hc; [|auto].
    destruct (rep p (Nat.pred lo) (one_less hi) s k) as [a'|] eqn:Hrec; [|auto].
    injection H as ->.
    apply andb_true_iff in Hc as [Hp Hhi].
    destruct (IH _ _ _ _ Hrec) as (w & s' & -> & Hall & Hlo & Hh & Hk).
    exists (String c w), s'. rewrite app_cons. simpl. rewrite Hp, Hall.
    repeat split; auto; [lia|].
    destruct hi as [[|h]|]; simpl in *; [discriminate|lia|exact I].
Qed.

(** Soundness of the matcher: a success of [run] passes through a word
    of the language of the pattern. *)
Lemma run_sound (r : regex) :
  forall (A : Type) (s : string) (caps : captures)
         (k : string -> captures -> option A) (a : A),
  run r s caps k = Some a ->
  exists w s' caps', s = w +:+ s' /\ lang r w s' /\ k s' caps' = Some a.
Proof.
  induction r as [|p|r1 IH1 r2 IH2|r1 IH1|lo hi p|r1 IH1|r1 IH1|];
    intros A s caps k a H; simpl in H.
  - exists "", s, caps. repeat split; auto.
  - destruct s as [|c s]; [discriminate|].
    destruct (p c) eqn:Hp; [|discriminate].
    exists (String c ""), s, caps. repeat split; auto. simpl. eauto.
  - destruct (IH1 _ _ _ _ _ H) as (w1 & s1 & caps1 & -> & L1 & H1).
    destruct (IH2 _ _ _ _ _ H1) as (w2 & s2 & caps2 & -> & L2 & H2).
    exists (w1 +:+ w2), s2, caps2. rewrite app_assoc. repeat split; auto.
    simpl. eauto.
  - destruct (run r1 s caps k) as [a'|] eqn:Hr.
    + injection H as ->.
      destruct (IH1 _ _ _ _ _ Hr) as (w & s' & caps' & -> & L & Hk).
      exists w, s', caps'. simpl. repeat split; auto.
    + exists "", s, caps. simpl. repeat split; auto.
  - destruct (rep_sound _ _ _ _ _ _ H) as (w & s' & -> & Hall & Hlo & Hhi & Hk).
    exists w, s', caps. simpl. repeat split; auto.
  - destruct (IH1 _ _ _ _ _ H) as (w & s' & caps' & -> & L & Hk).
    eexists w, s', _. simpl. repeat split; eauto.
  - destruct (run r1 s caps (fun _ caps1 => Some caps1)) as [caps1|] eqn:Hr;
      [|discriminate].
    destruct (IH1 _ _ _ _ _ Hr) as (w1 & s1 & caps' & -> & L & _).
    exists "", (w1 +:+ s1), caps1. simpl. repeat split; eauto.
  - destruct s as [|c [|d s]]; [| |discriminate].
    + exists "", "", caps. simpl. repeat split; auto.
    + destruct (Char.lit Char.newline c) eqn:Hc; [|discriminate].
      apply Ascii.eqb_eq in Hc as ->.
      exists "", (String Char.newline ""), caps. simpl. repeat split; auto.
Qed.

(** [match_] returns a prefix of its input that is in the language. *)
Lemma match_sound (r : regex) (s m : string) (caps : captures) :
  match_ r s = Some (m, caps) -> exists rest, s = m +:+ rest /\ lang r m rest.
Proof.
  unfold match_. intros H.
  destruct (run_sound _ _ _ _ _ _ H) as (w & s' & caps' & -> & L & Hk).
  injection Hk as <- <-. rewrite take_app. eauto.
Qed.

Lemma group0_sound (r : regex) (s m : string) :
  group0 r s = Some m -> exists rest, s = m +:+ rest /\ lang r m rest.
Proof.
  unfold group0. destruct (match_ r s) as [[m' caps]|] eqn:H; [|discriminate].
  intros [= <-]. eauto using match_sound.
Qed.

Lemma min_length_sound (r : regex) :
  forall w rest, lang r w rest -> min_length r <= String.length w.
Proof.
  induction r as [|p|r1 IH1 r2 IH2|r1 IH1|lo hi p|r1 IH1|r1 IH1|];
    intros w rest L; simpl in *; try lia.
  - destruct L as (c & -> & _). simpl. lia.
  - destruct L as (w1 & w2 & -> & L1 & L2).
    rewrite length_app. apply IH1 in L1. apply IH2 in L2. lia.
  - eauto.
Qed.

Lemma max_count_sound (c : ascii) (r : regex) :
  forall w rest n, lang r w rest -> max_count c r = Some n -> Str.count c w <= n.
Proof.
  induction r as [|p|r1 IH1 r2 IH2|r1 IH1|lo hi p|r1 IH1|r1 IH1|];
    intros w rest n L Hn; simpl in *.
  - subst. simpl. lia.
  - destruct L as (x & -> & Hx). injection Hn as <-. simpl.
    destruct (Ascii.eqb_spec c x) as [->|_]; [rewrite Hx|]; lia.
  - destruct L as (w1 & w2 & -> & L1 & L2).
    destruct (max_count c r1) as [n1|]; [|discriminate].
    destruct (max_count c r2) as [n2|]; [|discriminate].
    injection Hn as <-. rewrite count_app.
    specialize (IH1 _ _ _ L1 eq_refl). specialize (IH2 _ _ _ L2 eq_refl). lia.
  - destruct L as [->|L]; [simpl; lia|eauto].
  - destruct L as (Hall & _ & Hhi).
    destruct (p c) eqn:Hp.
    + subst hi. pose proof (count_le_length c w). lia.
    + injection Hn as <-. rewrite (count_all p); auto.
  - eauto.
  - destruct L as [-> _]. simpl. lia.
  - destruct L as [-> _]. simpl. lia.
Qed.

(** Every element of [findall] is a match of the pattern. *)
Lemma findall_from_sound (r : regex) (s : string) :
  forall skip m, In m (findall_from r skip s) -> exists rest, lang r m rest.
Proof.
  induction s as [|c s IH]; intros skip m H; destruct skip; simpl in H.
  - destruct (group0 r "") as [m'|] eqn:Hm; [|contradiction].
    destruct H as [<-|[]]. apply group0_sound in Hm as (rest & _ & L). eauto.
  - contradiction.
  - destruct (group0 r (String c s)) as [m'|] eqn:Hm; [|eauto].
    destruct H as [<-|H]; [|eauto].
    apply group0_sound in Hm as (rest & _ & L). eauto.
  - eauto.
Qed.

Lemma findall_sound (r : regex) (s m : string) :
  In m (findall r s) -> exists rest, lang r m rest.
Proof. apply findall_from_sound. Qed.

End ReFacts.
(** ** The tokenizer *)

Module TokenizerFacts.

Import Re StrFacts ReFacts FormulaParser.

Lemma function_match_nonempty (s m : string) :
  group0 _function_pattern s = Some m -> 1 <= String.length m.
Proof.
  intros (rest & _ & L)%group0_sound. apply min_length_sound in L. exact L.
Qed.

Lemma reference_match_nonempty (s m : string) :
  group0 _reference_pattern s = Some m -> 1 <= String.length m.
Proof.
  intros (rest & _ & L)%group0_sound. apply min_length_sound in L.
  change (min_length _reference_pattern) with 2 in L. lia.
Qed.

Lemma operator_match_nonempty (s m : string) :
  group0 _operator_pattern s = Some m -> 1 <= String.length m.
Proof.
  intros (rest & _ & L)%group0_sound. apply min_length_sound in L. exact L.
Qed.

Lemma scan_while_ge (p : ascii -> bool) (formula : string) (pos : nat) :
  pos <= scan_while p formula pos.
Proof. unfold scan_while. lia. Qed.

Lemma scan_while_head (p : ascii -> bool) (formula : string) (pos : nat)
    (char : ascii) (rest : string) :
  Str.drop pos formula = String char rest -> p char = true ->
  pos < scan_while p formula pos.
Proof. unfold scan_while. intros -> Hp. simpl. rewrite Hp. lia. Qed.

(** Every iteration that continues has moved forward. *)
Lemma tokenize_step_progress (formula : string) (pos : nat) (char : ascii)
    (rest : string) (tokens : list token) (pos' : nat) (tokens' : list token) :
  Str.drop pos formula = String char rest ->
  tokenize_step formula pos char (String char rest) tokens = Next (pos', tokens') ->
  pos < pos'.
Proof.
  intros Hd. unfold tokenize_step.
  destruct (Char.isspace char); [intros [= <- <-]; lia|].
  destruct (if Char.isalpha char then _ else _) as [m|] eqn:Hf.
  { intros [= <- <-]. destruct (Char.isalpha char); [|discriminate].
    apply function_match_nonempty in Hf. lia. }
  destruct (group0 _reference_pattern _) as [m|] eqn:Hr.
  { intros [= <- <-]. apply reference_match_nonempty in Hr. lia. }
  destruct (group0 _operator_pattern _) as [m|] eqn:Ho.
  { intros [= <- <-]. apply operator_match_nonempty in Ho. lia. }
  destruct (Str.mem char "(),:"); [intros [= <- <-]; lia|].
  destruct (Char.isdigit char || Char.lit "." char) eqn:Hn.
  { intros [= <- <-]. eapply scan_while_head; eauto. }
  destruct (Char.lit Char.dquote char); [|discriminate].
  destruct (_ <? _); [|discriminate].
  intros [= <- <-].
  pose proof (scan_while_ge (fun c => negb (Char.lit Char.dquote c)) formula (pos + 1)).
  lia.
Qed.

Lemma tokenize_loop_unfold (fuel : nat) (formula : string) (pos : nat)
    (tokens : list token) :
  tokenize_loop fuel formula pos tokens =
  match Str.drop pos formula with
  | EmptyString => Some (Success tokens)
  | String char _ as rest =>
      match fuel with
      | 0 => None
      | S fuel' =>
          match tokenize_step formula pos char rest tokens with
          | Next (pos', tokens') => tokenize_loop fuel' formula pos' tokens'
          | Return r => Some r
          | Raise e =>
              Some (Failure Constants.AI_002 ("Tokenization failed: " +:+ str_of_exn e))
          end
      end
  end.
Proof. destruct fuel; reflexivity. Qed.

(** The loop returns when it has a unit of fuel for every character that
    is left. *)
Lemma tokenize_loop_returns (formula : string) (fuel : nat) :
  forall pos tokens,
  String.length formula - pos <= fuel ->
  exists r, tokenize_loop fuel formula pos tokens = Some r.
Proof.
  induction fuel as [|fuel IH]; intros pos tokens Hfuel;
    rewrite tokenize_loop_unfold;
    destruct (Str.drop pos formula) as [|char rest] eqn:Hd; eauto.
  - pose proof (drop_length pos formula) as Hl. rewrite Hd in Hl. simpl in Hl. lia.
  - destruct (tokenize_step _ _ _ _ _) as [[pos' tokens']|r|e] eqn:Hs; eauto.
    apply IH. apply (tokenize_step_progress _ _ _ _ _ _ _ Hd) in Hs.
    pose proof (drop_length pos formula) as Hl. rewrite Hd in Hl. simpl in Hl. lia.
Qed.

(** More fuel does not change a result. *)
Lemma tokenize_loop_more_fuel (formula : string) (fuel : nat) :
  forall fuel' pos tokens r,
  tokenize_loop fuel formula pos tokens = Some r -> fuel <= fuel' ->
  tokenize_loop fuel' formula pos tokens = Some r.
Proof.
  induction fuel as [|fuel IH]; intros fuel' pos tokens r H Hle;
    rewrite tokenize_loop_unfold in H |- *;
    destruct (Str.drop pos formula) as [|char rest] eqn:Hd; auto; [discriminate|].
  destruct fuel' as [|fuel']; [lia|].
  destruct (tokenize_step _ _ _ _ _) as [[pos' tokens']|r'|e]; auto.
  apply IH; [assumption|lia].
Qed.

(** [tokenize] always returns. *)
Lemma tokenize_returns (formula : string) : exists r, tokenize formula = Some r.
Proof. apply tokenize_loop_returns. lia. Qed.

(** What the loop yields from a state it reaches is what [tokenize] yields. *)
Lemma reaches_result (formula : string) (pos : nat) (tokens : list token) :
  reaches formula pos tokens ->
  forall fuel r, tokenize_loop fuel formula pos tokens = Some r ->
  tokenize formula = Some r.
Proof.
  induction 1 as [|pos tokens char rest pos' tokens' _ IH Hd Hs]; intros fuel r Hr.
  - destruct (tokenize_returns formula) as [r' Hr'].
    rewrite Hr'. unfold tokenize in Hr'.
    pose proof (tokenize_loop_more_fuel _ _ (Nat.max fuel (String.length formula))
                  _ _ _ Hr ltac:(lia)) as H1.
    pose proof (tokenize_loop_more_fuel _ _ (Nat.max fuel (String.length formula))
                  _ _ _ Hr' ltac:(lia)) as H2.
    congruence.
  - apply (IH (S fuel)). rewrite tokenize_loop_unfold, Hd, Hs. exact Hr.
Qed.

Lemma drop_first_char (c1 c2 : ascii) (t : string) (pos : nat) :
  1 <= pos -> Str.drop pos (String c1 t) = Str.drop pos (String c2 t).
Proof. destruct pos; [lia|reflexivity]. Qed.

Lemma scan_while_first_char (p : ascii -> bool) (c1 c2 : ascii) (t : string) (pos : nat) :
  1 <= pos -> scan_while p (String c1 t) pos = scan_while p (String c2 t) pos.
Proof. intros H. unfold scan_while. rewrite (drop_first_char c1 c2) by exact H. reflexivity. Qed.

Lemma slice_first_char (c1 c2 : ascii) (t : string) (a b : nat) :
  1 <= a -> Str.slice a b (String c1 t) = Str.slice a b (String c2 t).
Proof. intros H. unfold Str.slice. rewrite (drop_first_char c1 c2) by exact H. reflexivity. Qed.

(** An iteration at a position past the first character does not read the
    first character. *)
Lemma tokenize_step_first_char (c1 c2 : ascii) (t : string) (pos : nat)
    (char : ascii) (rest : string) (tokens : list token) :
  1 <= pos ->
  tokenize_step (String c1 t) pos char rest tokens =
  tokenize_step (String c2 t) pos char rest tokens.
Proof.
  intros H. unfold tokenize_step.
  rewrite !(scan_while_first_char _ c1 c2) by lia.
  rewrite !(slice_first_char c1 c2) by lia.
  reflexivity.
Qed.

Lemma tokenize_loop_first_char (c1 c2 : ascii) (t : string) (fuel : nat) :
  forall pos tokens,
  1 <= pos ->
  tokenize_loop fuel (String c1 t) pos tokens =
  tokenize_loop fuel (String c2 t) pos tokens.
Proof.
  induction fuel as [|fuel IH]; intros pos tokens Hpos;
    rewrite !(tokenize_loop_unfold _ _ pos), (drop_first_char c1 c2 t pos Hpos);
    destruct (Str.drop pos (String c2 t)) as [|char rest] eqn:Hd; auto.
  rewrite (tokenize_step_first_char c1 c2) by exact Hpos.
  destruct (tokenize_step _ _ _ _ _) as [[pos' tokens']|r|e] eqn:Hs; auto.
  apply IH. apply (tokenize_step_progress _ _ _ _ _ _ _ Hd) in Hs. lia.
Qed.

Lemma span_no_match (c : ascii) (s : string) :
  Str.mem c s = false -> span (fun x => negb (Char.lit c x)) s = String.length s.
Proof.
  induction s as [|x s IH]; simpl; [reflexivity|].
  intros [Hx Hs]%orb_false_iff. unfold Char.lit.
  rewrite Ascii.eqb_sym, Hx. simpl. auto.
Qed.

Lemma drop_total_length (formula : string) (pos : nat) (char : ascii) (rest : string) :
  Str.drop pos formula = String char rest ->
  String.length formula = pos + 1 + String.length rest.
Proof.
  intros Hd. pose proof (drop_length pos formula) as Hl.
  rewrite Hd in Hl. simpl in Hl. lia.
Qed.

(** The iteration that stands on a double quote with no closing quote
    after it returns the "unexpected character" failure, at the position
    just past the end of the formula. *)
Lemma tokenize_step_unterminated (formula : string) (pos : nat) (rest : string)
    (tokens : list token) :
  Str.drop pos formula = String Char.dquote rest ->
  Str.mem Char.dquote rest = false ->
  tokenize_step formula pos Char.dquote (String Char.dquote rest) tokens =
  Return (unexpected_character (String.length formula) Char.dquote).
Proof.
  intros Hd Hq. unfold tokenize_step. cbn -[scan_while unexpected_character Nat.ltb String.length].
  unfold scan_while. rewrite (drop_add_one _ _ _ _ Hd), (span_no_match _ _ Hq).
  rewrite <- (drop_total_length _ _ _ _ Hd), Nat.ltb_irrefl. reflexivity.
Qed.

(** The whole scan of such a formula: the position reported is the one
    where the inner loop stopped, the length of the formula. *)
Lemma tokenize_open_string (formula : string) :
  opens_unterminated_string formula ->
  tokenize formula =
    Some (unexpected_character (String.length formula) Char.dquote).
Proof.
  intros (pos & tokens & rest & Hreach & Hd & Hq).
  apply (reaches_result formula pos tokens Hreach 1).
  rewrite tokenize_loop_unfold, Hd.
  rewrite (tokenize_step_unterminated formula pos rest tokens Hd Hq).
  reflexivity.
Qed.

(** [parse] always returns. *)
Lemma parse_returns (formula : string) : exists r, parse formula = Some r.
Proof.
  unfold parse. destruct (String.eqb formula EmptyString); [eauto|].
  destruct (_ <? _); [eauto|].
  destruct (tokenize_returns (if Str.startswith "=" formula then formula
                              else "=" +:+ formula)) as [[tokens|error details] ->];
    [|eauto].
  destruct (build_ast tokens) as [[tree|]|error details]; [|eauto..].
  destruct (succeeded _); eauto.
Qed.

End TokenizerFacts.

(** ** The tree builder *)

Module TreeFacts.

Import FormulaParser.

Lemma pop_arguments_short (n : nat) :
  forall stack args, length stack < n ->
  pop_arguments n stack args = inl pop_from_empty_list.
Proof.
  induction n as [|n IH]; intros [|top stack] args H; simpl in *; try lia; auto.
  apply IH. lia.
Qed.

Lemma pop_arguments_enough (n : nat) :
  forall stack args, n <= length stack ->
  exists stack' args',
    pop_arguments n stack args = inr (stack', args') /\
    length stack' = length stack - n.
Proof.
  induction n as [|n IH]; intros stack args H; simpl.
  - exists stack, args. split; [reflexivity|lia].
  - destruct stack as [|top stack]; simpl in *; [lia|].
    apply IH. lia.
Qed.

(** The loop of [_build_tree] raises exactly when the heights underflow,
    and then with the [IndexError] of [list.pop]. *)
Lemma build_tree_loop_underflow (postfix : list item) :
  forall stack, underflows postfix (length stack) = true ->
  build_tree_loop postfix stack = inl pop_from_empty_list.
Proof.
  induction postfix as [|it postfix IH]; intros stack H; simpl in H; [discriminate|].
  destruct it as [v kind|v n|v| |v n]; simpl; auto.
  - destruct stack as [|rhs [|lhs stack]]; auto.
  - destruct (length stack <? n) eqn:Hn.
    + apply Nat.ltb_lt in Hn. rewrite pop_arguments_short; auto.
    + apply Nat.ltb_ge in Hn.
      destruct (pop_arguments_enough n stack [] Hn) as (stack' & args' & -> & Hl).
      apply (IH (_ :: stack')). simpl. rewrite Hl.
      replace (S (length stack - n)) with (length stack - n + 1) by lia. exact H.
Qed.

Lemma build_tree_loop_no_underflow (postfix : list item) :
  forall stack, underflows postfix (length stack) = false ->
  exists stack', build_tree_loop postfix stack = inr stack'.
Proof.
  induction postfix as [|it postfix IH]; intros stack H; simpl in H; [simpl; eauto|].
  destruct it as [v kind|v n|v| |v n]; simpl; auto.
  - destruct stack as [|rhs [|lhs stack]]; try discriminate.
    apply (IH (_ :: stack)). exact H.
  - destruct (length stack <? n) eqn:Hn; [discriminate|].
    apply Nat.ltb_ge in Hn.
    destruct (pop_arguments_enough n stack [] Hn) as (stack' & args' & -> & Hl).
    apply (IH (_ :: stack')). simpl. rewrite Hl.
    replace (S (length stack - n)) with (length stack - n + 1) by lia. exact H.
Qed.

(** [_build_tree] raises nothing but the [IndexError] of an underflow. *)
Lemma build_tree_raises (postfix : list item) (e : exn) :
  _build_tree postfix = inl e ->
  e = pop_from_empty_list /\ underflows postfix 0 = true.
Proof.
  unfold _build_tree. destruct (underflows postfix 0) eqn:Hu.
  - rewrite (build_tree_loop_underflow postfix [] Hu). intros [= <-]. auto.
  - destruct (build_tree_loop_no_underflow postfix [] Hu) as [stack' ->]. discriminate.
Qed.

(** An exception of the protected block of [build_ast] comes back as the
    "AST construction failed" failure. *)
Lemma build_ast_catches (tokens : list token) (e : exn) :
  to_postfix tokens = Raise e -> build_ast tokens = construction_failed e.
Proof. unfold build_ast. intros ->. reflexivity. Qed.

(** Every failure of [build_ast] carries the code [AI_002]. *)
Lemma build_ast_failure_code (tokens : list token) (error details : string) :
  build_ast tokens = Failure error details -> error = Constants.AI_002.
Proof.
  unfold build_ast, to_postfix.
  destruct (shunting_loop tokens ([], [])) as [[stack output]|r|e] eqn:Hl.
  - destruct (empty_stack stack output) as [out|r|e] eqn:He.
    + destruct (_build_tree out); [|discriminate]. intros [= <- _]. reflexivity.
    + intros ->. clear Hl. revert output He.
      induction stack as [|it stack IH]; intros output He; simpl in He; [discriminate|].
      destruct it; eauto; injection He as [= <- _]; reflexivity.
    + intros [= <- _]. reflexivity.
  - intros ->. revert Hl. generalize (@nil item, @nil item).
    induction tokens as [|tok tokens IH]; intros st Hl; simpl in Hl; [discriminate|].
    destruct (shunting_step tok st) as [st'|r|e] eqn:Hs; [eauto| |discriminate].
    injection Hl as ->. destruct st as [stack output].
    unfold shunting_step in Hs.
    destruct (type tok).
    + discriminate.
    + discriminate.
    + destruct (pop_operators _ _ _) as [[? ?]|r|e] eqn:Hp; try discriminate.
      injection Hs as ->. clear IH. revert output Hp.
      induction stack as [|it stack IH]; intros output Hp; simpl in Hp; [discriminate|].
      destruct it; try discriminate.
      destruct (operators (value tok)) as [[prec assoc]|]; [|discriminate].
      destruct (operators value0) as [[top_prec ?]|]; [|discriminate].
      destruct (match assoc with left_assoc => _ | right_assoc => _ end);
        [eauto|discriminate].
    + destruct (String.eqb (value tok) "("); [discriminate|].
      destruct (String.eqb (value tok) ")").
      { destruct (pop_to_paren stack output) as [[|? [|[] ?]] ?];
          try discriminate; injection Hs as [= <- _]; reflexivity. }
      destruct (String.eqb (value tok) ","); [|discriminate].
      destruct (pop_to_paren stack output) as [[|[] ?] ?];
        try discriminate; injection Hs as [= <- _]; reflexivity.
    + discriminate.
    + discriminate.
  - intros [= <- _]. reflexivity.
Qed.

End TreeFacts.

(** ** Dependency analysis *)

Module DependencyFacts.

Import Re StrFacts ReFacts FormulaParser.

Lemma split_none (c : ascii) (s : string) :
  Str.count c s = 0 -> Str.split c s = [s].
Proof.
  induction s as [|d s IH]; simpl; [reflexivity|].
  rewrite (Ascii.eqb_sym d c).
  destruct (Ascii.eqb c d); [discriminate|].
  intros H. rewrite IH by exact H. reflexivity.
Qed.

Lemma split_one (c : ascii) (s : string) :
  Str.count c s = 1 -> Str.split c s = [Str.before c s; Str.after c s].
Proof.
  induction s as [|d s IH]; simpl; [discriminate|].
  rewrite (Ascii.eqb_sym d c).
  destruct (Ascii.eqb c d); simpl; intros H.
  - rewrite split_none by lia. reflexivity.
  - rewrite IH by exact H. reflexivity.
Qed.

(** A match of the reference pattern holds at most one exclamation mark:
    the one that ends the sheet prefix. *)
Lemma reference_one_bang (formula ref : string) :
  In ref (findall _reference_pattern formula) -> Str.count "!" ref <= 1.
Proof.
  intros (rest & L)%findall_sound.
  apply (max_count_sound "!" _ _ _ 1 L). reflexivity.
Qed.

(** The unpacking of the two pieces cannot fail on such a reference. *)
Lemma classify_spec (refs : list string) :
  (forall ref, In ref refs -> Str.count "!" ref <= 1) ->
  forall direct cross_sheet,
  classify refs direct cross_sheet =
  inr (direct ++ List.filter (fun ref => negb (Str.mem "!" ref)) refs,
       cross_sheet ++ map cross_sheet_entry (List.filter (Str.mem "!") refs)).
Proof.
  induction refs as [|ref refs IH]; intros Hone direct cross_sheet; simpl.
  - rewrite !List.app_nil_r. reflexivity.
  - assert (Href : Str.count "!" ref <= 1) by (apply Hone; simpl; auto).
    assert (Hrefs : forall r, In r refs -> Str.count "!" r <= 1)
      by (intros r Hr; apply Hone; simpl; auto).
    destruct (Str.mem "!" ref) eqn:Hm; simpl.
    + apply mem_count in Hm. rewrite split_one by lia. simpl.
      rewrite IH by exact Hrefs. rewrite <- !List.app_assoc. reflexivity.
    + rewrite IH by exact Hrefs. rewrite <- !List.app_assoc. reflexivity.
Qed.

Lemma classify_findall (formula : string) :
  let refs := findall _reference_pattern formula in
  classify refs [] [] =
  inr (List.filter (fun ref => negb (Str.mem "!" ref)) refs,
       map cross_sheet_entry (List.filter (Str.mem "!") refs)).
Proof.
  intros refs. apply (classify_spec refs).
  intros ref. apply reference_one_bang.
Qed.

Section Search.

Variable _dependency_map : gmap string (list string).

(** The search raises nothing but [RecursionError]. *)
Lemma check_circular_raises (room : nat) :
  forall ref path st e,
  check_circular _dependency_map room ref path st = inl e -> e = recursion_error.
Proof.
  induction room as [|room IH]; intros ref path [circular_refs visited] e; simpl.
  - intros [= <-]. reflexivity.
  - destruct (bool_decide (ref ∈ path)); [discriminate|].
    destruct (bool_decide (ref ∈ visited)); [discriminate|].
    destruct (_dependency_map !! ref) as [deps|]; [|discriminate].
    generalize (circular_refs, visited ∪ {[ref]}).
    induction deps as [|dep deps IHdeps]; intros st; [discriminate|].
    destruct (check_circular _ room dep (path ++ [ref]) st) as [e'|st'] eqn:Hc.
    + intros [= <-]. eauto.
    + apply IHdeps.
Qed.

Lemma check_each_raises (room : nat) (refs : list string) :
  forall st e,
  check_each _dependency_map room refs st = inl e -> e = recursion_error.
Proof.
  induction refs as [|ref refs IH]; intros st e; simpl; [discriminate|].
  destruct (check_circular _ room ref [] st) as [e'|st'] eqn:Hc.
  - intros [= <-]. eauto using check_circular_raises.
  - apply IH.
Qed.

(** The protected block of [analyze_dependencies] raises nothing but
    [RecursionError]: the unpacking never fails. *)
Lemma analyze_block_raises (room : nat) (formula sheet_name : string) (e : exn) :
  analyze_block _dependency_map room formula sheet_name = inl e ->
  e = recursion_error.
Proof.
  unfold analyze_block, _detect_circular_references.
  rewrite classify_findall.
  destruct (check_each _ _ _ _) as [e'|[circular_refs visited]] eqn:Hc.
  - intros [= <-]. eauto using check_each_raises.
  - destruct circular_refs; discriminate.
Qed.

(** Whenever the block completes, the two lists are the two halves of the
    references found. *)
Lemma analyze_block_classifies (room : nat) (formula sheet_name : string)
    (deps : dependencies) :
  analyze_block _dependency_map room formula sheet_name = inr deps ->
  let refs := findall _reference_pattern formula in
  direct deps = List.filter (fun ref => negb (Str.mem "!" ref)) refs /\
  cross_sheet deps = map cross_sheet_entry (List.filter (Str.mem "!") refs).
Proof.
  unfold analyze_block. rewrite classify_findall.
  destruct (_detect_circular_references _ _ _ _ _) as [e|[|c circular]];
    [discriminate| |]; intros [= <-]; simpl; auto.
Qed.

End Search.

(** Without a dependency map a call of [check_circular] finds nothing. *)
Lemma check_circular_empty_map (room : nat) (ref : string) (visited : gset string) :
  exists visited',
    check_circular ∅ (S room) ref [] ([], visited) = inr ([], visited').
Proof.
  cbn [check_circular]. rewrite bool_decide_eq_false_2 by (apply not_elem_of_nil).
  destruct (bool_decide (ref ∈ visited)); [eauto|].
  rewrite lookup_empty. eauto.
Qed.

Lemma check_each_empty_map (room : nat) (refs : list string) :
  forall visited, exists visited',
    check_each ∅ (S room) refs ([], visited) = inr ([], visited').
Proof.
  induction refs as [|ref refs IH]; intros visited; [simpl; eauto|].
  cbn [check_each].
  destruct (check_circular_empty_map room ref visited) as [visited' ->].
  apply IH.
Qed.

Section Room.

Variable _dependency_map : gmap string (list string).

Lemma path_length (path : list string) :
  NoDup path -> (forall x, x ∈ path -> is_Some (_dependency_map !! x)) ->
  length path <= size _dependency_map.
Proof.
  intros Hnd Hin. rewrite <- size_dom.
  unfold size at 1, set_size. simpl.
  apply submseteq_length, NoDup_submseteq; [exact Hnd|].
  intros x Hx. apply elem_of_elements, elem_of_dom, Hin, Hx.
Qed.

(** With more room than the map has keys the search does not run out of
    stack: a path holds distinct keys of the map. *)
Lemma check_circular_completes (room : nat) :
  forall ref path st,
  NoDup path -> (forall x, x ∈ path -> is_Some (_dependency_map !! x)) ->
  size _dependency_map < room + length path ->
  exists st', check_circular _dependency_map room ref path st = inr st'.
Proof.
  induction room as [|room IH]; intros ref path [circular_refs visited] Hnd Hin Hroom.
  - pose proof (path_length path Hnd Hin). simpl in Hroom. lia.
  - cbn [check_circular].
    destruct (bool_decide (ref ∈ path)) eqn:Hpath; [eauto|].
    destruct (bool_decide (ref ∈ visited)); [eauto|].
    destruct (_dependency_map !! ref) as [deps|] eqn:Hdeps; [|eauto].
    apply bool_decide_eq_false in Hpath.
    assert (Hnd' : NoDup (path ++ [ref])).
    { apply NoDup_app. split; [exact Hnd|]. split; [|apply NoDup_singleton].
      intros x Hx ->%list_elem_of_singleton. contradiction. }
    assert (Hin' : forall x, x ∈ path ++ [ref] -> is_Some (_dependency_map !! x)).
    { intros x [Hx| ->%list_elem_of_singleton]%elem_of_app; [auto|eauto]. }
    assert (Hroom' : size _dependency_map < room + length (path ++ [ref])).
    { rewrite List.length_app. simpl. lia. }
    clear Hdeps. generalize (circular_refs, visited ∪ {[ref]}).
    induction deps as [|dep deps IHdeps]; intros st; [eauto|].
    destruct (IH dep (path ++ [ref]) st Hnd' Hin' Hroom') as [st' ->].
    apply IHdeps.
Qed.

Lemma check_each_completes (room : nat) (refs : list string) :
  size _dependency_map < room ->
  forall st, exists st', check_each _dependency_map room refs st = inr st'.
Proof.
  intros Hroom. induction refs as [|ref refs IH]; intros st; cbn [check_each]; [eauto|].
  destruct (check_circular_completes room ref [] st) as [st' ->];
    [constructor|intros x Hx; inversion Hx|simpl; lia|].
  apply IH.
Qed.

(** With more room on the stack than the dependency map has keys, the
    protected block of [analyze_dependencies] completes. *)
Lemma analyze_block_completes (room : nat) (formula sheet_name : string) :
  size _dependency_map < room ->
  exists deps, analyze_block _dependency_map room formula sheet_name = inr deps.
Proof.
  intros Hroom. unfold analyze_block, _detect_circular_references.
  rewrite classify_findall.
  destruct (check_each_completes room
              (remove_dups (List.filter (fun ref => negb (Str.mem "!" ref))
                              (findall _reference_pattern formula))) Hroom ([], ∅))
    as [[circular_refs visited] ->].
  destruct circular_refs; eauto.
Qed.

End Room.

(** Without a dependency map the block completes with no circular
    reference. *)
Lemma analyze_block_without_map (room : nat) (formula sheet_name : string) :
  let refs := findall _reference_pattern formula in
  analyze_block ∅ (S room) formula sheet_name =
  inr {| direct := List.filter (fun ref => negb (Str.mem "!" ref)) refs;
         indirect := []; circular := [];
         cross_sheet := map cross_sheet_entry (List.filter (Str.mem "!") refs);
         validation := {| success := true; errors := [] |} |}.
Proof.
  intros refs. unfold analyze_block, _detect_circular_references.
  rewrite classify_findall.
  destruct (check_each_empty_map room
              (remove_dups (List.filter (fun ref => negb (Str.mem "!" ref))
                              (findall _reference_pattern formula))) ∅)
    as [visited ->].
  reflexivity.
Qed.

End DependencyFacts.

(** ** The validator *)

Module ValidatorFacts.

Import FormulaValidator.

Section Checks.

Variable context : validation_context.
Variable max_length : nat.

(** The loop accepts exactly when every reference passes. *)
Lemma check_references_valid (refs : list string) (sheet_name : string)
    (existing_references : gset string) :
  is_valid (check_references context refs sheet_name existing_references) =
  forallb (acceptable context sheet_name existing_references) refs.
Proof.
  induction refs as [|ref refs IH]; simpl; [reflexivity|].
  unfold acceptable at 1.
  destruct (bool_decide (ref ∈ existing_references)); [reflexivity|].
  destruct (_validate_reference_format ref); [|reflexivity].
  destruct (_validate_reference_bounds context ref sheet_name); [|reflexivity].
  exact IH.
Qed.

(** Whether the references are accepted does not depend on the order in
    which the set is walked. *)
Lemma check_references_order (refs refs' : list string) (sheet_name : string)
    (existing_references : gset string) :
  Permutation refs refs' ->
  is_valid (check_references context refs sheet_name existing_references) =
  is_valid (check_references context refs' sheet_name existing_references).
Proof.
  intros Hp. rewrite !check_references_valid.
  induction Hp as [|x l l' _ IH|x y l|l l' l'' _ IH1 _ IH2]; simpl.
  - reflexivity.
  - rewrite IH. reflexivity.
  - rewrite !andb_assoc, (andb_comm (acceptable _ _ _ y)). reflexivity.
  - congruence.
Qed.

Lemma cache_lookup_head (formula : string) (res : ValidationResult) (cache : lru_cache) :
  cache_lookup formula ((formula, res) :: cache) = Some res.
Proof. simpl. rewrite String.eqb_refl. reflexivity. Qed.

(** After a call the cache holds the result of that call. *)
Lemma validate_syntax_stores (cache : lru_cache) (formula : string) :
  let '(res, cache') := validate_syntax max_length cache formula in
  cache_lookup formula cache' = Some res.
Proof.
  unfold validate_syntax.
  destruct (cache_lookup formula cache) as [res|]; apply cache_lookup_head.
Qed.

Lemma cache_lookup_removed (formula : string) (cache : lru_cache) :
  cache_lookup formula (cache_remove formula cache) = None.
Proof.
  induction cache as [|[k r] cache IH]; simpl; [reflexivity|].
  destruct (String.eqb k formula) eqn:Hk; [exact IH|].
  simpl. rewrite Hk. exact IH.
Qed.

Lemma cache_lookup_remove (formula key : string) (cache : lru_cache) (res : ValidationResult) :
  cache_lookup key (cache_remove formula cache) = Some res ->
  cache_lookup key cache = Some res.
Proof.
  induction cache as [|[k r] cache IH]; simpl; [discriminate|].
  destruct (String.eqb_spec k formula) as [->|Hk]; simpl.
  - destruct (String.eqb_spec formula key) as [->|_]; [|exact IH].
    rewrite cache_lookup_removed. discriminate.
  - destruct (String.eqb k key); auto.
Qed.

Lemma cache_lookup_firstn (n : nat) (key : string) (cache : lru_cache) (res : ValidationResult) :
  cache_lookup key (firstn n cache) = Some res -> cache_lookup key cache = Some res.
Proof.
  revert n; induction cache as [|[k r] cache IH]; intros [|n]; simpl; try discriminate.
  destruct (String.eqb k key); eauto.
Qed.

(** From a coherent cache a call returns what the body computes, and
    leaves a coherent cache. *)
Lemma validate_syntax_coherent (cache : lru_cache) (formula : string) :
  coherent max_length cache ->
  fst (validate_syntax max_length cache formula) = validate_syntax_body max_length formula /\
  coherent max_length (snd (validate_syntax max_length cache formula)).
Proof.
  intros Hc. unfold validate_syntax.
  destruct (cache_lookup formula cache) as [res|] eqn:Hl; simpl.
  - split; [auto|]. intros key r. simpl.
    destruct (String.eqb_spec formula key) as [<-|_].
    + intros [= <-]. auto.
    + intros H. eapply Hc, cache_lookup_remove, H.
  - split; [reflexivity|]. intros key r.
    change maxsize with (S 999). simpl.
    destruct (String.eqb_spec formula key) as [<-|_].
    + intros [= <-]. reflexivity.
    + intros H. eapply Hc, cache_lookup_firstn, H.
Qed.

End Checks.

End ValidatorFacts.

Module TokenPlacement.

Import Re StrFacts ReFacts FormulaParser TokenizerFacts.

Lemma take_app_exact (m r : string) : Str.take (String.length m) (m +:+ r) = m.
Proof.
  induction m as [|c m IH]; simpl.
  - destruct r; reflexivity.
  - rewrite IH. reflexivity.
Qed.

Lemma take_length (n : nat) (s : string) :
  n <= String.length s -> String.length (Str.take n s) = n.
Proof.
  revert s; induction n as [|n IH]; intros [|c s]; simpl; intros H; try lia; auto.
  rewrite IH by lia. reflexivity.
Qed.

Lemma span_le (p : ascii -> bool) (s : string) : span p s <= String.length s.
Proof. induction s as [|c s IH]; simpl; [lia|]. destruct (p c); lia. Qed.

Lemma in_order_snoc (tokens : list token) (t : token) :
  forall from,
  in_order from tokens -> scanned from tokens <= position t ->
  in_order from (tokens ++ [t]).
Proof.
  induction tokens as [|t' tokens IH]; intros from; simpl.
  - auto.
  - intros [H1 H2] H3. split; [exact H1|]. apply IH; auto.
Qed.

Lemma scanned_snoc (tokens : list token) (t : token) (from : nat) :
  scanned from (tokens ++ [t]) = token_end t.
Proof. unfold scanned. rewrite fold_left_app. reflexivity. Qed.

Lemma placed_snoc (formula : string) (pos : nat) (tokens : list token)
    (kind : token_type) (text : string) (rest : string) :
  placed formula pos tokens ->
  Str.drop pos formula = text +:+ rest ->
  text <> EmptyString ->
  placed formula (pos + String.length text) (tokens ++ [Token kind text pos]).
Proof.
  intros (Hpos & Hall & Hord & Hend) Hd Hne.
  assert (Hlen : pos + String.length text <= String.length formula).
  { pose proof (drop_length pos formula) as Hl. rewrite Hd, length_app in Hl.
    destruct text; [congruence|]. simpl in Hl. simpl. lia. }
  split; [lia|]. split; [|split].
  - apply Forall_app. split; [exact Hall|]. constructor; [|constructor].
    unfold in_place, token_end. simpl. repeat split; auto.
    unfold Str.slice. rewrite Hd.
    replace (pos + String.length text - pos) with (String.length text) by lia.
    apply take_app_exact.
  - apply in_order_snoc; auto.
  - rewrite scanned_snoc. unfold token_end. simpl. lia.
Qed.

Lemma take_drop (n : nat) (s : string) : s = Str.take n s +:+ Str.drop n s.
Proof.
  revert s; induction n as [|n IH]; intros [|c s]; simpl; auto.
  rewrite app_cons. f_equal. apply IH.
Qed.

Lemma match_text (r : regex) (s m : string) :
  group0 r s = Some m -> exists rest, s = m +:+ rest.
Proof. intros (rest & H & _)%group0_sound. eauto. Qed.

Lemma nonempty_length (s : string) : 1 <= String.length s -> s <> EmptyString.
Proof. destruct s; simpl; [lia|discriminate]. Qed.

(** An iteration keeps the tokens placed. *)
Lemma tokenize_step_placed (formula : string) (pos : nat) (char : ascii)
    (rest : string) (tokens : list token) (pos' : nat) (tokens' : list token) :
  Str.drop pos formula = String char rest ->
  tokenize_step formula pos char (String char rest) tokens = Next (pos', tokens') ->
  placed formula pos tokens -> placed formula pos' tokens'.
Proof.
  intros Hd. unfold tokenize_step.
  destruct (Char.isspace char).
  { intros [= <- <-] (Hpos & Hall & Hord & Hend). repeat split; auto; lia. }
  destruct (if Char.isalpha char then _ else _) as [m|] eqn:Hf.
  { intros [= <- <-] Hp. destruct (Char.isalpha char); [|discriminate].
    destruct (match_text _ _ _ Hf) as [r Hr].
    apply (placed_snoc _ _ _ _ _ r Hp); [congruence|].
    apply nonempty_length. eauto using function_match_nonempty. }
  destruct (group0 _reference_pattern _) as [m|] eqn:Href.
  { intros [= <- <-] Hp. destruct (match_text _ _ _ Href) as [r Hr].
    apply (placed_snoc _ _ _ _ _ r Hp); [congruence|].
    apply nonempty_length. eauto using reference_match_nonempty. }
  destruct (group0 _operator_pattern _) as [m|] eqn:Ho.
  { intros [= <- <-] Hp. destruct (match_text _ _ _ Ho) as [r Hr].
    apply (placed_snoc _ _ _ _ _ r Hp); [congruence|].
    apply nonempty_length. eauto using operator_match_nonempty. }
  destruct (Str.mem char "(),:").
  { intros [= <- <-] Hp.
    apply (placed_snoc formula pos tokens delimiter (Str.of_char char) rest Hp);
      [exact Hd|discriminate]. }
  destruct (Char.isdigit char || Char.lit "." char) eqn:Hn.
  { intros [= <- <-] Hp. unfold scan_while, Str.slice.
    set (p := fun c => Char.isdigit c || Char.lit "." c) in *.
    set (n := span p (Str.drop pos formula)).
    assert (Hn1 : 1 <= n) by (unfold n; rewrite Hd; simpl; unfold p; rewrite Hn; lia).
    assert (Hn2 : n <= String.length (Str.drop pos formula)) by apply span_le.
    replace (pos + n - pos) with n by lia.
    pose proof (take_length n _ Hn2) as Hl.
    rewrite <- Hl at 1.
    apply (placed_snoc _ _ _ _ _ (Str.drop n (Str.drop pos formula)) Hp).
    - apply take_drop.
    - apply nonempty_length. lia. }
  destruct (Char.lit Char.dquote char); [|discriminate].
  destruct (_ <? _) eqn:Hlt; [|discriminate].
  intros [= <- <-] Hp. apply Nat.ltb_lt in Hlt.
  set (e := scan_while _ formula (pos + 1)) in *.
  assert (He : pos + 1 <= e) by apply scan_while_ge.
  unfold Str.slice.
  set (n := e + 1 - pos).
  assert (Hn2 : n <= String.length (Str.drop pos formula)).
  { rewrite drop_length. unfold n. lia. }
  pose proof (take_length n _ Hn2) as Hl.
  replace (e + 1) with (pos + String.length (Str.take n (Str.drop pos formula)))
    by (rewrite Hl; unfold n; lia).
  apply (placed_snoc _ _ _ _ _ (Str.drop n (Str.drop pos formula)) Hp).
  - apply take_drop.
  - apply nonempty_length. rewrite Hl. unfold n. lia.
Qed.

(** An iteration returns nothing but the failure for an unexpected
    character. *)
Lemma tokenize_step_return (formula : string) (pos : nat) (char : ascii)
    (rest : string) (tokens : list token) (r : result (list token)) :
  tokenize_step formula pos char rest tokens = Return r ->
  exists pos' char', r = unexpected_character pos' char'.
Proof.
  unfold tokenize_step.
  repeat match goal with
         | |- context [if ?b then _ else _] => destruct b
         | |- context [match ?o with Some _ => _ | None => _ end] => destruct o
         end; try discriminate; intros [= <-]; eauto.
Qed.

Lemma tokenize_loop_placed (formula : string) (fuel : nat) :
  forall pos tokens tokens',
  tokenize_loop fuel formula pos tokens = Some (Success tokens') ->
  placed formula pos tokens ->
  Forall (in_place formula) tokens' /\ in_order 1 tokens'.
Proof.
  induction fuel as [|fuel IH]; intros pos tokens tokens' H Hp;
    rewrite tokenize_loop_unfold in H;
    destruct (Str.drop pos formula) as [|char rest] eqn:Hd.
  - injection H as <-. destruct Hp as (_ & ? & ? & _). auto.
  - discriminate.
  - injection H as <-. destruct Hp as (_ & ? & ? & _). auto.
  - destruct (tokenize_step _ _ _ _ _) as [[pos1 tokens1]|r|e] eqn:Hs.
    + eapply IH; [exact H|]. eapply tokenize_step_placed; eauto.
    + apply tokenize_step_return in Hs as (? & ? & ->). discriminate.
    + discriminate.
Qed.

End TokenPlacement.

(** * The properties of the specification *)

Section ParserProperties.

Import FormulaParser TokenizerFacts TreeFacts.

(** Claim C1.  [parse] of [=2+3*4] succeeds; the tokens are the five
    expected ones, the postfix order is [2 3 4 * +], and the tree has [+]
    at its root with the number [2] on the left and, on the right, the
    operation [*] over the numbers [3] and [4]: [*] has precedence 2 in
    the table and [+] precedence 1, so the pop-while rule leaves [+] on
    the stack when [*] arrives. *)
Theorem parse_multiplication_binds_tighter :
  let tokens :=
    [Token number "2" 1; Token operator "+" 2; Token number "3" 3;
     Token operator "*" 4; Token number "4" 5] in
  let tree :=
    operation "+" (operand_node number "2")
      (operation "*" (operand_node number "3") (operand_node number "4")) in
  operators "+" = Some (1, left_assoc) /\
  operators "*" = Some (2, left_assoc) /\
  tokenize "=2+3*4" = Some (Success tokens) /\
  to_postfix tokens =
    Next [operand "2" number; operand "3" number; operand "4" number;
          operator_item "*"; operator_item "+"] /\
  build_ast tokens = Success (Some tree) /\
  parse "=2+3*4" =
    Some (parsed tree
            {| depth := 3; operations := 2; functions := 0; references := 0 |}
            (checked {| vr_success := true; vr_errors := []; vr_warnings := [] |})).
Proof. repeat split; vm_compute; reflexivity. Qed.

(** Claim C2.  [tokenize] of [=SUM(A1:A10)] returns exactly the function
    [SUM], the delimiter [(], the reference [A1:A10] and the delimiter [)],
    in that order, and [parse] of the same formula returns a function node
    named [SUM] whose only argument is the reference operand [A1:A10]. *)
Theorem tokenize_and_parse_sum :
  tokenize "=SUM(A1:A10)" =
    Some (Success [Token function "SUM" 1; Token delimiter "(" 4;
                   Token reference "A1:A10" 5; Token delimiter ")" 11]) /\
  parse "=SUM(A1:A10)" =
    Some (parsed (function_node "SUM" [operand_node reference "A1:A10"])
            {| depth := 2; operations := 0; functions := 1; references := 1 |}
            (checked {| vr_success := true; vr_errors := []; vr_warnings := [] |})).
Proof. split; vm_compute; reflexivity. Qed.

(** Claim C5, as stated, fails: for [=SUM()] the postfix form underflows
    the operand stack, and [build_ast] reports "AST construction failed:
    pop from empty list", which is not the failure of unbalanced
    parentheses. *)
Lemma underflow_is_not_mismatched_parentheses :
  tokenize "=SUM()" = Some (Success sum_without_arguments) /\
  to_postfix sum_without_arguments = Next [function_call "SUM" 1] /\
  underflows [function_call "SUM" 1] 0 = true /\
  build_ast sum_without_arguments =
    Failure Constants.AI_002 "AST construction failed: pop from empty list" /\
  build_ast sum_without_arguments <> mismatched_parentheses.
Proof. repeat split; try (vm_compute; reflexivity). discriminate. Qed.

(** Claim C5, amended.  Whenever the postfix form that the shunting-yard
    pass hands over underflows the operand stack, [build_ast] returns the
    failure with code [AI_002] and details "AST construction failed: pop
    from empty list": the [IndexError] is caught and does not leave
    [build_ast]. *)
Theorem build_ast_reports_underflow (tokens : list token) (postfix : list item) :
  to_postfix tokens = Next postfix ->
  underflows postfix 0 = true ->
  build_ast tokens =
    Failure Constants.AI_002 "AST construction failed: pop from empty list".
Proof.
  intros Hp Hu. unfold build_ast, _build_tree. rewrite Hp.
  rewrite (build_tree_loop_underflow postfix [] Hu). reflexivity.
Qed.

(** The amended claim C5 at the tokens of [=SUM()]. *)
Lemma build_ast_reports_underflow_witness :
  to_postfix sum_without_arguments = Next [function_call "SUM" 1] /\
  underflows [function_call "SUM" 1] 0 = true /\
  build_ast sum_without_arguments =
    Failure Constants.AI_002 "AST construction failed: pop from empty list".
Proof.
  split; [reflexivity|]. split; [reflexivity|].
  apply (build_ast_reports_underflow sum_without_arguments [function_call "SUM" 1]);
    reflexivity.
Defined.

(** In [open_string] the scan starts on a double quote, at index 1, and
    no double quote follows. *)
Lemma open_string_unterminated : opens_unterminated_string open_string.
Proof.
  exists 1, [], "abc". split; [constructor|]. split; reflexivity.
Qed.

(** Claim C6, as stated, fails: the formula [open_string] opens a string
    that is never closed, and [tokenize] returns the failure it returns for an
    unrecognised character, not a failure of a kind of its own. *)
Lemma unterminated_string_is_unexpected_character :
  opens_unterminated_string open_string /\
  tokenize open_string = Some (unexpected_character 5 Char.dquote).
Proof. split; [exact open_string_unterminated|reflexivity]. Qed.

(** Claim C6, amended.  For every formula in which the scan arrives at a
    double quote that is not closed before the end of the input,
    [tokenize] returns the failure that it returns for an unrecognised
    character, naming the double quote: there is no failure of a kind of
    its own for an unterminated string. *)
Theorem tokenize_unterminated_string (formula : string) :
  opens_unterminated_string formula ->
  exists pos, tokenize formula = Some (unexpected_character pos Char.dquote).
Proof.
  intros H. exists (String.length formula). exact (tokenize_open_string formula H).
Qed.

(** The amended claim C6 at the formula [open_string]. *)
Lemma tokenize_unterminated_string_witness :
  opens_unterminated_string open_string /\
  exists pos, tokenize open_string = Some (unexpected_character pos Char.dquote).
Proof.
  assert (H : opens_unterminated_string open_string).
  { exists 1, [], "abc". split; [constructor|]. split; reflexivity. }
  split; [exact H|].
  apply (tokenize_unterminated_string open_string). exact H.
Defined.

(** Claim C10.  [tokenize] starts at index 1 and never reads the first
    character: two formulas that differ in it at most have the same
    result, so the leading [=] is not checked. *)
Theorem tokenize_ignores_first_character (c1 c2 : ascii) (t : string) :
  tokenize (String c1 t) = tokenize (String c2 t).
Proof. apply (tokenize_loop_first_char c1 c2 t). lia. Qed.

Example tokenize_hash_for_equals :
  tokenize "#A1+2" =
  Some (Success [Token reference "A1" 1; Token operator "+" 3; Token number "2" 4]) /\
  tokenize "=A1+2" = tokenize "#A1+2".
Proof. split; reflexivity. Qed.

End ParserProperties.

Section ValidatorProperties.

Import FormulaValidator ValidatorFacts StrFacts.

(** [_column_to_number] reads its argument in base 26. *)
Lemma column_to_number_snoc (column : string) (c : ascii) :
  _column_to_number (column +:+ String c "") =
  (_column_to_number column * 26
   + (Z.of_N (Char.code (Char.upper c)) - Z.of_N (Char.code "A") + 1))%Z.
Proof.
  unfold _column_to_number.
  assert (H : list_ascii_of_string (Str.upper (column +:+ String c "")) =
              list_ascii_of_string (Str.upper column) ++ [Char.upper c]).
  { induction column as [|d column IH]; [reflexivity|].
    rewrite app_cons. simpl. rewrite IH. reflexivity. }
  rewrite H, fold_left_app. reflexivity.
Qed.

(** Claim C4.  With the default bounds and no existing references,
    [validate_references] accepts formulas that refer to [A1], [Z99],
    [AA1] and [XFD1048576], one at a time or together, and rejects
    [XFD1048577] as out of bounds; columns are read in base 26 with
    [A] = 1, so that [XFD] is column 16384. *)
Theorem validate_references_default_bounds (sheet_name : string) :
  let context := {| max_rows := None; max_cols := None |} in
  let check formula := validate_references context formula sheet_name ∅ in
  is_valid (check "=A1") = true /\
  is_valid (check "=Z99") = true /\
  is_valid (check "=AA1") = true /\
  is_valid (check "=XFD1048576") = true /\
  is_valid (check "=A1+Z99+AA1+XFD1048576") = true /\
  check "=XFD1048577" =
    invalid "Cell reference XFD1048577 is out of worksheet bounds" /\
  _validate_reference_bounds context "XFD1048577" sheet_name = false /\
  _column_to_number "A" = 1%Z /\ _column_to_number "Z" = 26%Z /\
  _column_to_number "AA" = 27%Z /\ _column_to_number "XFD" = 16384%Z /\
  forall column c,
    _column_to_number (column +:+ String c "") =
    (_column_to_number column * 26
     + (Z.of_N (Char.code (Char.upper c)) - Z.of_N (Char.code "A") + 1))%Z.
Proof.
  repeat split; try (vm_compute; reflexivity).
  apply column_to_number_snoc.
Qed.

(** Claim C9.  Two calls of [validate_syntax] in a row on the same formula
    return the same [ValidationResult], whatever the cache held before the
    first one. *)
Theorem validate_syntax_twice (max_length : nat) (cache : lru_cache) (formula : string) :
  let '(first, cache') := validate_syntax max_length cache formula in
  let '(second, _) := validate_syntax max_length cache' formula in
  second = first.
Proof.
  pose proof (validate_syntax_stores max_length cache formula) as Hs.
  destruct (validate_syntax max_length cache formula) as [first cache'].
  unfold validate_syntax. rewrite Hs. reflexivity.
Qed.

End ValidatorProperties.

Section DependencyProperties.

Import Re FormulaParser DependencyFacts.

(** Claim C3.  With no dependency map and room for one call of the search,
    [analyze_dependencies] of [=Sheet2!B2+A1] on [Sheet1] returns the
    direct reference [A1] and the cross-sheet reference ([Sheet2], [B2]).
    In general, whenever the protected block completes, the references
    found without an exclamation mark are the direct ones, and each
    reference found with one gives a cross-sheet entry made of the text
    before the mark, stripped of surrounding quotes, and the text after
    it. *)
Theorem analyze_dependencies_classifies :
  (forall recursion_limit, 0 < recursion_limit ->
   analyze_dependencies ∅ recursion_limit "=Sheet2!B2+A1" "Sheet1" =
   {| direct := ["A1"]; indirect := []; circular := [];
      cross_sheet := [{| cs_sheet := "Sheet2"; cs_reference := "B2" |}];
      validation := {| success := true; errors := [] |} |}) /\
  (forall _dependency_map recursion_limit formula sheet_name deps,
   analyze_block _dependency_map recursion_limit formula sheet_name = inr deps ->
   let refs := findall _reference_pattern formula in
   analyze_dependencies _dependency_map recursion_limit formula sheet_name = deps /\
   direct deps = List.filter (fun ref => negb (Str.mem "!" ref)) refs /\
   cross_sheet deps = map cross_sheet_entry (List.filter (Str.mem "!") refs)).
Proof.
  split.
  - intros [|room] Hroom; [lia|]. vm_compute. reflexivity.
  - intros dependency_map recursion_limit formula sheet_name deps Hblock refs.
    split.
    + unfold analyze_dependencies. rewrite Hblock. reflexivity.
    + exact (analyze_block_classifies _ _ _ _ _ Hblock).
Qed.

(** Claim C3 at the formula of the example, and at a formula with a quoted
    sheet name analysed with a dependency map that holds a cycle. *)
Lemma analyze_dependencies_classifies_witness :
  analyze_dependencies ∅ 1000 "=Sheet2!B2+A1" "Sheet1" =
  {| direct := ["A1"]; indirect := []; circular := [];
     cross_sheet := [{| cs_sheet := "Sheet2"; cs_reference := "B2" |}];
     validation := {| success := true; errors := [] |} |} /\
  direct (analyze_dependencies {["A1" := ["B1"]; "B1" := ["A1"]]} 1000
            "='My Sheet'!$B$2+A1+C3" "Sheet1") = ["A1"; "C3"] /\
  cross_sheet (analyze_dependencies {["A1" := ["B1"]; "B1" := ["A1"]]} 1000
                 "='My Sheet'!$B$2+A1+C3" "Sheet1") =
    [{| cs_sheet := "My Sheet"; cs_reference := "$B$2" |}].
Proof.
  split.
  - apply (proj1 analyze_dependencies_classifies 1000). lia.
  - pose proof (proj2 analyze_dependencies_classifies
                  {["A1" := ["B1"]; "B1" := ["A1"]]} 1000
                  "='My Sheet'!$B$2+A1+C3" "Sheet1" _ eq_refl) as (Hd & Hdirect & Hcross).
    rewrite Hd. split; [exact Hdirect|exact Hcross].
Defined.

(** Claim C7.  [analyze_dependencies] always returns a record.  When its
    protected block raises, which only a [RecursionError] of the search
    can make it do, the record has empty [direct], [indirect], [circular]
    and [cross_sheet] lists, [success] false and the message "Dependency
    analysis failed: ..." with the text of the exception; otherwise the
    record is the one the block built. *)
Theorem analyze_dependencies_never_raises
    (_dependency_map : gmap string (list string)) (recursion_limit : nat)
    (formula sheet_name : string) :
  let deps := analyze_dependencies _dependency_map recursion_limit formula sheet_name in
  match analyze_block _dependency_map recursion_limit formula sheet_name with
  | inr built => deps = built
  | inl e =>
      e = recursion_error /\
      direct deps = [] /\ indirect deps = [] /\ circular deps = [] /\
      cross_sheet deps = [] /\
      validation deps =
        {| success := false;
           errors := ["Dependency analysis failed: " +:+ str_of_exn e] |}
  end.
Proof.
  unfold analyze_dependencies.
  destruct (analyze_block _ _ _ _) as [e|built] eqn:Hblock; simpl; [|reflexivity].
  split; [exact (analyze_block_raises _ _ _ _ _ Hblock)|]. repeat split.
Qed.

(** A chain of dependencies longer than the room left on the stack makes
    the analysis degrade. *)
Example analyze_dependencies_degrades :
  analyze_dependencies {["A1" := ["B1"]; "B1" := ["C1"]]} 2 "=A1" "Sheet1" =
  {| direct := []; indirect := []; circular := []; cross_sheet := [];
     validation :=
       {| success := false;
          errors := ["Dependency analysis failed: maximum recursion depth exceeded"] |} |}.
Proof. vm_compute. reflexivity. Qed.

(** Claim C8.  With an empty dependency map, and room on the stack for one
    call of the search, [analyze_dependencies] reports no circular
    reference and a successful validation, for every formula and sheet
    name. *)
Theorem analyze_dependencies_without_map (recursion_limit : nat)
    (formula sheet_name : string) :
  0 < recursion_limit ->
  let deps := analyze_dependencies ∅ recursion_limit formula sheet_name in
  circular deps = [] /\ validation deps = {| success := true; errors := [] |}.
Proof.
  intros Hroom. destruct recursion_limit as [|room]; [lia|].
  unfold analyze_dependencies. rewrite analyze_block_without_map.
  split; reflexivity.
Qed.

(** Claim C8 at a formula with direct and cross-sheet references. *)
Lemma analyze_dependencies_without_map_witness :
  0 < 1000 /\
  circular (analyze_dependencies ∅ 1000 "=A1+B2*Sheet2!C3" "Sheet1") = [] /\
  validation (analyze_dependencies ∅ 1000 "=A1+B2*Sheet2!C3" "Sheet1") =
    {| success := true; errors := [] |}.
Proof.
  split; [lia|].
  apply (analyze_dependencies_without_map 1000 "=A1+B2*Sheet2!C3" "Sheet1"). lia.
Defined.

(** Without a dependency map no circular reference is reported, whatever
    the room on the stack. *)
Lemma analyze_dependencies_without_map_circular (recursion_limit : nat)
    (formula sheet_name : string) :
  circular (analyze_dependencies ∅ recursion_limit formula sheet_name) = [].
Proof.
  unfold analyze_dependencies. destruct recursion_limit as [|room].
  - destruct (analyze_block _ _ _ _) as [e|deps] eqn:Hblock; [reflexivity|].
    revert Hblock. unfold analyze_block, _detect_circular_references.
    rewrite classify_findall.
    destruct (remove_dups _) as [|ref refs]; simpl; [|discriminate].
    intros [= <-]. reflexivity.
  - rewrite analyze_block_without_map. reflexivity.
Qed.

(** With more room on the stack than the dependency map has keys, the
    analysis does not degrade: the record returned is the one built by
    the protected block. *)
Lemma analyze_dependencies_completes (_dependency_map : gmap string (list string))
    (recursion_limit : nat) (formula sheet_name : string) :
  size _dependency_map < recursion_limit ->
  analyze_block _dependency_map recursion_limit formula sheet_name =
  inr (analyze_dependencies _dependency_map recursion_limit formula sheet_name).
Proof.
  intros Hroom. unfold analyze_dependencies.
  destruct (analyze_block_completes _ _ formula sheet_name Hroom) as [deps ->].
  reflexivity.
Qed.

End DependencyProperties.

(** * Further properties of the code *)

Section TokenizerMore.

Import FormulaParser TokenizerFacts TokenPlacement.

(** Property X1.  Every token of a successful [tokenize] stands in the
    formula: its text is not empty and is the text of the formula at the
    position it records, after the first character; and the tokens come in
    the order of their positions, none overlapping the next. *)
Theorem tokens_stand_in_formula (formula : string) (tokens : list token) :
  tokenize formula = Some (Success tokens) ->
  Forall (in_place formula) tokens /\ in_order 1 tokens.
Proof.
  intros H. apply (tokenize_loop_placed formula _ 1 [] tokens H).
  repeat split; simpl; auto.
Qed.

(** Property X1 at the formula [=SUM(A1:A10)]. *)
Lemma tokens_stand_in_formula_witness :
  let tokens := [Token function "SUM" 1; Token delimiter "(" 4;
                 Token reference "A1:A10" 5; Token delimiter ")" 11] in
  tokenize "=SUM(A1:A10)" = Some (Success tokens) /\
  Forall (in_place "=SUM(A1:A10)") tokens /\ in_order 1 tokens.
Proof.
  split; [reflexivity|].
  apply (tokens_stand_in_formula "=SUM(A1:A10)"). reflexivity.
Defined.

End TokenizerMore.

Module ParseEdges.

Import Re StrFacts ReFacts FormulaParser TokenizerFacts.

Lemma all_drop (p : ascii -> bool) (n : nat) (s : string) :
  Str.all p s = true -> Str.all p (Str.drop n s) = true.
Proof.
  revert s; induction n as [|n IH]; intros [|c s]; simpl; auto.
  intros [_ H]%andb_true_iff. auto.
Qed.

(** Over whitespace the loop only moves forward. *)
Lemma tokenize_loop_whitespace (formula : string) (fuel : nat) :
  forall pos tokens,
  Str.all Char.isspace (Str.drop pos formula) = true ->
  String.length formula - pos <= fuel ->
  tokenize_loop fuel formula pos tokens = Some (Success tokens).
Proof.
  induction fuel as [|fuel IH]; intros pos tokens Hws Hfuel;
    rewrite tokenize_loop_unfold;
    destruct (Str.drop pos formula) as [|char rest] eqn:Hd; auto.
  - pose proof (drop_length pos formula) as Hl. rewrite Hd in Hl. simpl in Hl. lia.
  - simpl in Hws. apply andb_true_iff in Hws as [Hc Hrest].
    unfold tokenize_step. rewrite Hc. apply IH.
    + rewrite (drop_add_one _ _ _ _ Hd). exact Hrest.
    + pose proof (drop_length pos formula) as Hl. rewrite Hd in Hl. simpl in Hl. lia.
Qed.

Lemma tokenize_blank (blank : string) :
  Str.all Char.isspace blank = true ->
  tokenize (String "=" blank) = Some (Success []).
Proof.
  intros H. apply tokenize_loop_whitespace; [exact H|lia].
Qed.

End ParseEdges.

Section ParseMore.

Import FormulaParser ParseEdges.

(** Property X2.  A formula that holds nothing but whitespace after its
    [=] has no tokens and no tree: [parse] returns the failure of
    [_validate_ast] for an empty tree, the dictionary with ['error'] but
    without ['details']. *)
Theorem parse_blank_formula (blank : string) :
  Str.all Char.isspace blank = true ->
  String.length blank < Constants.MAX_FORMULA_LENGTH ->
  tokenize (String "=" blank) = Some (Success []) /\
  parse (String "=" blank) = Some (validation_failure empty_ast).
Proof.
  intros Hws Hlen. pose proof (tokenize_blank blank Hws) as Ht.
  split; [exact Ht|]. unfold parse.
  change (String.eqb (String "=" blank) EmptyString) with false.
  change (Str.startswith "=" (String "=" blank)) with true.
  cbv iota.
  destruct (Constants.MAX_FORMULA_LENGTH <? String.length (String "=" blank)) eqn:Hl.
  { apply Nat.ltb_lt in Hl. simpl in Hl. lia. }
  rewrite Ht. reflexivity.
Qed.

(** Property X2 at a formula of three blanks. *)
Lemma parse_blank_formula_witness :
  parse "=   " = Some (validation_failure empty_ast).
Proof.
  apply (parse_blank_formula "   "); [reflexivity|].
  unfold Constants.MAX_FORMULA_LENGTH. simpl. lia.
Defined.

(** Property X3.  [parse] puts the [=] in front of a formula that lacks it
    before it compares the length with the maximum: without the [=] a
    formula is too long from 1000 characters on, with it from 1001 on. *)
Theorem parse_length_limit (formula : string) :
  formula <> EmptyString ->
  (if Str.startswith "=" formula
   then Constants.MAX_FORMULA_LENGTH < String.length formula
   else Constants.MAX_FORMULA_LENGTH <= String.length formula) ->
  parse formula =
    Some (parse_failure Constants.AI_002 "Formula exceeds maximum length").
Proof.
  intros Hne Hlen. unfold parse.
  destruct (String.eqb_spec formula EmptyString) as [->|_]; [congruence|].
  destruct (Str.startswith "=" formula).
  - apply Nat.ltb_lt in Hlen. rewrite Hlen. reflexivity.
  - assert (H : (Constants.MAX_FORMULA_LENGTH <? String.length ("=" +:+ formula)) = true).
    { apply Nat.ltb_lt. rewrite StrFacts.length_app. simpl. lia. }
    rewrite H. reflexivity.
Qed.

(** Property X3 at a formula of 1000 letters without [=]. *)
Lemma parse_length_limit_witness :
  parse (string_of_list_ascii (repeat "A"%char 1000)) =
    Some (parse_failure Constants.AI_002 "Formula exceeds maximum length").
Proof.
  apply (parse_length_limit (string_of_list_ascii (repeat "A"%char 1000))).
  - vm_compute. discriminate.
  - vm_compute. reflexivity.
Defined.

End ParseMore.
Module ShuntingFacts.

Import FormulaParser.

Lemma stack_item_output (it : item) : stack_item it -> it <> left_paren -> output_item it.
Proof. destruct it; simpl; intros H1 H2; auto; try contradiction; congruence. Qed.

Lemma pop_operators_items (tv : string) (stack : list item) :
  forall output stack' output',
  pop_operators tv stack output = Next (stack', output') ->
  Forall stack_item stack -> Forall output_item output ->
  Forall stack_item stack' /\ Forall output_item output'.
Proof.
  induction stack as [|it stack IH]; intros output stack' output' H Hs Ho; simpl in H.
  - injection H as <- <-. auto.
  - destruct it; try (injection H as <- <-; auto).
    destruct (operators tv) as [[prec assoc]|]; [|discriminate].
    destruct (operators value0) as [[top_prec ?]|]; [|discriminate].
    destruct (match assoc with left_assoc => _ | right_assoc => _ end).
    + apply (IH _ _ _ H); [inversion Hs; auto|].
      apply Forall_app. split; [exact Ho|]. repeat constructor.
    + injection H as <- <-. auto.
Qed.

(** [pop_to_paren] stops at a left parenthesis or empties the stack. *)
Lemma pop_to_paren_items (stack : list item) :
  forall output stack' output',
  pop_to_paren stack output = (stack', output') ->
  Forall stack_item stack -> Forall output_item output ->
  Forall stack_item stack' /\ Forall output_item output' /\
  (stack' = [] \/ exists below, stack' = left_paren :: below).
Proof.
  induction stack as [|it stack IH]; intros output stack' output' H Hs Ho; simpl in H.
  - injection H as <- <-. auto.
  - inversion Hs as [|? ? Hit Hstack]; subst.
    destruct it; simpl in Hit; try contradiction.
    + apply (IH _ _ _ H Hstack). apply Forall_app. split; [exact Ho|].
      repeat constructor.
    + apply (IH _ _ _ H Hstack). apply Forall_app. split; [exact Ho|].
      repeat constructor.
    + injection H as <- <-. eauto 6.
Qed.

Lemma shunting_step_items (tok : token) (stack output stack' output' : list item) :
  shunting_step tok (stack, output) = Next (stack', output') ->
  Forall stack_item stack -> Forall output_item output ->
  Forall stack_item stack' /\ Forall output_item output'.
Proof.
  unfold shunting_step. intros H Hs Ho.
  assert (Hoperand : forall v k, Forall output_item (output ++ [operand v k])).
  { intros. apply Forall_app. split; [exact Ho|]. repeat constructor. }
  destruct (type tok).
  - injection H as <- <-. split; [|exact Ho]. constructor; simpl; auto.
  - injection H as <- <-. auto.
  - destruct (pop_operators _ _ _) as [[stack1 output1]|r|e] eqn:Hp; try discriminate.
    injection H as <- <-.
    destruct (pop_operators_items _ _ _ _ _ Hp Hs Ho) as [Hs1 Ho1].
    split; [|exact Ho1]. constructor; simpl; auto.
  - destruct (String.eqb (value tok) "(").
    { injection H as <- <-. split; [|exact Ho]. constructor; simpl; auto. }
    destruct (String.eqb (value tok) ")").
    { destruct (pop_to_paren stack output) as [stack1 output1] eqn:Hp.
      destruct (pop_to_paren_items _ _ _ _ Hp Hs Ho) as (Hs1 & Ho1 & Hshape).
      destruct stack1 as [|top [|[] below]]; try discriminate;
        injection H as <- <-; inversion Hs1 as [|? ? ? Hbelow]; subst; auto.
      inversion Hbelow as [|? ? Hf Hrest]; subst. simpl in Hf. subst.
      split; [exact Hrest|]. apply Forall_app. split; [exact Ho1|].
      repeat constructor. }
    destruct (String.eqb (value tok) ",").
    { destruct (pop_to_paren stack output) as [stack1 output1] eqn:Hp.
      destruct (pop_to_paren_items _ _ _ _ Hp Hs Ho) as (Hs1 & Ho1 & Hshape).
      destruct Hshape as [->|[below ->]]; [discriminate|].
      injection H as <- <-. auto. }
    injection H as <- <-. auto.
  - injection H as <- <-. auto.
  - injection H as <- <-. auto.
Qed.

Lemma shunting_loop_items (tokens : list token) :
  forall stack output stack' output',
  shunting_loop tokens (stack, output) = Next (stack', output') ->
  Forall stack_item stack -> Forall output_item output ->
  Forall stack_item stack' /\ Forall output_item output'.
Proof.
  induction tokens as [|tok tokens IH]; intros stack output stack' output' H Hs Ho;
    cbn [shunting_loop] in H.
  - injection H as <- <-. auto.
  - destruct (shunting_step tok (stack, output)) as [[stack1 output1]|r|e] eqn:Hstep;
      try discriminate.
    destruct (shunting_step_items _ _ _ _ _ Hstep Hs Ho) as [Hs1 Ho1].
    exact (IH _ _ _ _ H Hs1 Ho1).
Qed.

Lemma empty_stack_items (stack : list item) :
  forall output output',
  empty_stack stack output = Next output' ->
  Forall stack_item stack -> Forall output_item output ->
  Forall output_item output'.
Proof.
  induction stack as [|it stack IH]; intros output output' H Hs Ho; simpl in H.
  - injection H as <-. exact Ho.
  - inversion Hs as [|? ? Hit Hstack]; subst.
    destruct it; simpl in Hit; try contradiction; try discriminate;
      apply (IH _ _ H Hstack); apply Forall_app; (split; [exact Ho|]);
      repeat constructor.
Qed.

(** The postfix sequence handed to [_build_tree] only holds function
    calls of one argument: a comma never reaches the counter of its
    function, which lies under the left parenthesis. *)
Lemma to_postfix_items (tokens : list token) (output : list item) :
  to_postfix tokens = Next output -> Forall output_item output.
Proof.
  unfold to_postfix.
  destruct (shunting_loop tokens ([], [])) as [[stack out]|r|e] eqn:Hl; try discriminate.
  destruct (shunting_loop_items _ _ _ _ _ Hl) as [Hs Ho]; [constructor..|].
  intros H. exact (empty_stack_items _ _ _ H Hs Ho).
Qed.

(** The shunting-yard pass returns nothing but failures. *)
Lemma pop_operators_return (tv : string) (stack : list item) :
  forall output r, pop_operators tv stack output <> Return r.
Proof.
  induction stack as [|it stack IH]; intros output r; simpl; [discriminate|].
  destruct it; try discriminate.
  destruct (operators tv) as [[prec assoc]|]; [|discriminate].
  destruct (operators value0) as [[top_prec ?]|]; [|discriminate].
  destruct (match assoc with left_assoc => _ | right_assoc => _ end);
    [apply IH|discriminate].
Qed.

Lemma shunting_step_return (tok : token) (st : shunting_state)
    (r : result (option node)) :
  shunting_step tok st = Return r ->
  exists details, r = Failure Constants.AI_002 details.
Proof.
  destruct st as [stack output]. unfold shunting_step.
  destruct (type tok); try discriminate.
  - destruct (pop_operators _ _ _) as [[? ?]|r'|e] eqn:Hp; try discriminate.
    intros _. exfalso. exact (pop_operators_return _ _ _ _ Hp).
  - destruct (String.eqb (value tok) "("); [discriminate|].
    destruct (String.eqb (value tok) ")").
    { destruct (pop_to_paren stack output) as [[|? [|[] ?]] ?];
        try discriminate; intros [= <-]; unfold mismatched_parentheses; eauto. }
    destruct (String.eqb (value tok) ","); [|discriminate].
    destruct (pop_to_paren stack output) as [[|[] ?] ?];
      try discriminate; intros [= <-]; eauto.
Qed.

Lemma shunting_loop_return (tokens : list token) :
  forall st r, shunting_loop tokens st = Return r ->
  exists details, r = Failure Constants.AI_002 details.
Proof.
  induction tokens as [|tok tokens IH]; intros st r; cbn [shunting_loop];
    [discriminate|].
  destruct (shunting_step tok st) as [st'|r'|e] eqn:Hs; [apply IH| |discriminate].
  intros [= <-]. exact (shunting_step_return _ _ _ Hs).
Qed.

Lemma empty_stack_return (stack : list item) :
  forall output r, empty_stack stack output = Return r ->
  r = mismatched_parentheses.
Proof.
  induction stack as [|it stack IH]; intros output r; simpl; [discriminate|].
  destruct it; try apply IH. intros [= <-]. reflexivity.
Qed.

Lemma to_postfix_return (tokens : list token) (r : result (option node)) :
  to_postfix tokens = Return r ->
  exists details, r = Failure Constants.AI_002 details.
Proof.
  unfold to_postfix.
  destruct (shunting_loop tokens ([], [])) as [[stack out]|r'|e] eqn:Hl.
  - intros ->%empty_stack_return. unfold mismatched_parentheses. eauto.
  - intros [= <-]. exact (shunting_loop_return _ _ _ Hl).
  - discriminate.
Qed.

Lemma build_tree_loop_single (postfix : list item) :
  forall stack stack',
  build_tree_loop postfix stack = inr stack' ->
  Forall output_item postfix -> Forall single_argument stack ->
  Forall single_argument stack'.
Proof.
  induction postfix as [|it postfix IH]; intros stack stack' H Hp Hs; simpl in H.
  - injection H as <-. exact Hs.
  - inversion Hp as [|? ? Hit Hrest]; subst.
    destruct it as [v kind|v n|v| |v n]; simpl in Hit; try contradiction.
    + apply (IH _ _ H Hrest). constructor; simpl; auto.
    + apply (IH _ _ H Hrest Hs).
    + destruct stack as [|rhs [|lhs stack]]; try discriminate.
      apply (IH _ _ H Hrest).
      inversion Hs as [|? ? Hr Hs1]; subst. inversion Hs1 as [|? ? Hl Hs2]; subst.
      constructor; simpl; auto.
    + subst n. simpl in H. destruct stack as [|top stack]; [discriminate|].
      apply (IH _ _ H Hrest).
      inversion Hs; subst. constructor; simpl; auto.
Qed.

Lemma last_some {A : Type} (l : list A) (x : A) :
  List.last (map Some l) None = Some x -> In x l.
Proof.
  induction l as [|y [|z l] IH]; simpl; [discriminate| |].
  - intros [= <-]. auto.
  - intros H. right. apply IH. exact H.
Qed.

End ShuntingFacts.

Section BuilderMore.

Import FormulaParser ShuntingFacts.

(** Property X4.  Every function node of a tree that [build_ast] returns
    has exactly one argument, however many commas stand between the
    parentheses of the call: a comma looks for its function on top of the
    stack, where the left parenthesis is, so no argument counter is ever
    incremented. *)
Theorem build_ast_single_argument (tokens : list token) (tree : node) :
  build_ast tokens = Success (Some tree) -> single_argument tree.
Proof.
  unfold build_ast.
  destruct (to_postfix tokens) as [output|r|e] eqn:Hp.
  - unfold _build_tree.
    destruct (build_tree_loop output []) as [e|stack] eqn:Hb; [discriminate|].
    intros [= H]. apply last_some in H.
    pose proof (build_tree_loop_single _ _ _ Hb (to_postfix_items _ _ Hp) ltac:(constructor))
      as Hall.
    rewrite List.Forall_forall in Hall. auto.
  - apply to_postfix_return in Hp as [details ->]. discriminate.
  - discriminate.
Qed.

(** Property X4 at the tokens of [=SUM(A1)+1]. *)
Lemma build_ast_single_argument_witness :
  let tokens := [Token function "SUM" 1; Token delimiter "(" 4;
                 Token reference "A1" 5; Token delimiter ")" 7;
                 Token operator "+" 8; Token number "1" 9] in
  let tree := operation "+" (function_node "SUM" [operand_node reference "A1"])
                (operand_node number "1") in
  build_ast tokens = Success (Some tree) /\ single_argument tree.
Proof.
  split; [reflexivity|].
  apply (build_ast_single_argument
           [Token function "SUM" 1; Token delimiter "(" 4;
            Token reference "A1" 5; Token delimiter ")" 7;
            Token operator "+" 8; Token number "1" 9]).
  reflexivity.
Defined.

(** Property X5.  The tree of a call with two operand arguments is its
    first argument alone: the call is built over the second argument only,
    and [_build_tree] returns the bottom of its stack, where the first
    argument was left. *)
Theorem build_ast_two_arguments (name : string) (first second : token)
    (p1 p2 p3 p4 : nat) :
  is_operand first = true -> is_operand second = true ->
  build_ast [Token function name p1; Token delimiter "(" p2; first;
             Token delimiter "," p3; second; Token delimiter ")" p4] =
  Success (Some (operand_node (type first) (value first))).
Proof.
  destruct first as [[] v1 q1], second as [[] v2 q2]; simpl;
    intros H1 H2; try discriminate; reflexivity.
Qed.

(** Property X5 at the tokens of [=SUM(A1,B1)]. *)
Lemma build_ast_two_arguments_witness :
  build_ast [Token function "SUM" 1; Token delimiter "(" 4;
             Token reference "A1" 5; Token delimiter "," 7;
             Token reference "B1" 8; Token delimiter ")" 10] =
  Success (Some (operand_node reference "A1")).
Proof.
  apply (build_ast_two_arguments "SUM" (Token reference "A1" 5)
           (Token reference "B1" 8) 1 4 7 10); reflexivity.
Defined.

End BuilderMore.
Module ParenthesisFacts.

Import FormulaParser ShuntingFacts.

Lemma pop_operators_parens (tv : string) (stack : list item) :
  forall output stack' output',
  pop_operators tv stack output = Next (stack', output') ->
  left_parens stack' = left_parens stack.
Proof.
  induction stack as [|it stack IH]; intros output stack' output' H; simpl in H.
  - injection H as <- <-. reflexivity.
  - destruct it; try (injection H as <- <-; reflexivity).
    destruct (operators tv) as [[prec assoc]|]; [|discriminate].
    destruct (operators value0) as [[top_prec ?]|]; [|discriminate].
    destruct (match assoc with left_assoc => _ | right_assoc => _ end).
    + rewrite (IH _ _ _ H). reflexivity.
    + injection H as <- <-. reflexivity.
Qed.

Lemma pop_to_paren_parens (stack : list item) :
  forall output stack' output',
  pop_to_paren stack output = (stack', output') ->
  left_parens stack' = left_parens stack /\
  (stack' = [] \/ exists below, stack' = left_paren :: below).
Proof.
  induction stack as [|it stack IH]; intros output stack' output' H; simpl in H.
  - injection H as <- <-. auto.
  - destruct it; try (apply IH in H; exact H).
    injection H as <- <-. eauto.
Qed.

(** A step keeps the count: the left parentheses on the stack are the
    opening ones read less the closing ones. *)
Lemma shunting_step_parens (tok : token) (stack output stack' output' : list item) :
  shunting_step tok (stack, output) = Next (stack', output') ->
  left_parens stack' + closing tok = left_parens stack + opening tok.
Proof.
  unfold shunting_step, opening, closing, is_delimiter, left_parens.
  destruct (type tok).
  - intros [= <- <-]. simpl. lia.
  - intros [= <- <-]. simpl. lia.
  - destruct (pop_operators _ _ _) as [[stack1 output1]|r|e] eqn:Hp; try discriminate.
    intros [= <- <-]. apply pop_operators_parens in Hp. unfold left_parens in *.
    simpl. lia.
  - destruct (String.eqb (value tok) "(") eqn:Hopen.
    { apply String.eqb_eq in Hopen. rewrite Hopen. intros [= <- <-]. simpl. lia. }
    destruct (String.eqb (value tok) ")") eqn:Hclose.
    { destruct (pop_to_paren stack output) as [stack1 output1] eqn:Hp.
      destruct (pop_to_paren_parens _ _ _ _ Hp) as [Hn Hshape].
      destruct Hshape as [->|[below ->]]; [discriminate|].
      unfold left_parens in Hn. rewrite <- Hn.
      destruct below as [|[] below]; intros [= <- <-]; simpl; lia. }
    destruct (String.eqb (value tok) ",").
    { destruct (pop_to_paren stack output) as [stack1 output1] eqn:Hp.
      destruct (pop_to_paren_parens _ _ _ _ Hp) as [Hn Hshape].
      destruct Hshape as [->|[below ->]]; [discriminate|].
      unfold left_parens in Hn. intros [= <- <-]. lia. }
    intros [= <- <-]. lia.
  - intros [= <- <-]. simpl. lia.
  - intros [= <- <-]. simpl. lia.
Qed.

Lemma opens_cons (tok : token) (tokens : list token) :
  opens (tok :: tokens) = opening tok + opens tokens.
Proof. unfold opens, opening. simpl. destruct (is_delimiter "(" tok); reflexivity. Qed.

Lemma closes_cons (tok : token) (tokens : list token) :
  closes (tok :: tokens) = closing tok + closes tokens.
Proof. unfold closes, closing. simpl. destruct (is_delimiter ")" tok); reflexivity. Qed.

Lemma shunting_loop_parens (tokens : list token) :
  forall stack output stack' output',
  shunting_loop tokens (stack, output) = Next (stack', output') ->
  left_parens stack' + closes tokens = left_parens stack + opens tokens.
Proof.
  induction tokens as [|tok tokens IH]; intros stack output stack' output' H;
    cbn [shunting_loop] in H.
  - injection H as <- <-. reflexivity.
  - destruct (shunting_step tok (stack, output)) as [[stack1 output1]|r|e] eqn:Hs;
      try discriminate.
    apply shunting_step_parens in Hs. apply IH in H.
    rewrite opens_cons, closes_cons. lia.
Qed.

Lemma empty_stack_parens (stack : list item) :
  forall output,
  (left_parens stack = 0 -> exists output', empty_stack stack output = Next output') /\
  (0 < left_parens stack -> empty_stack stack output = Return mismatched_parentheses).
Proof.
  induction stack as [|it stack IH]; intros output; simpl.
  - split; [eauto|]. unfold left_parens. simpl. lia.
  - unfold left_parens in *. destruct it; simpl; try apply IH.
    split; [lia|reflexivity].
Qed.

Lemma shunting_loop_app (pre rest : list token) :
  forall st,
  shunting_loop (pre ++ rest) st =
  match shunting_loop pre st with
  | Next st' => shunting_loop rest st'
  | other => other
  end.
Proof.
  induction pre as [|tok pre IH]; intros st; cbn [shunting_loop app]; [reflexivity|].
  destruct (shunting_step tok st) as [st'|r|e]; auto.
Qed.

Lemma pop_to_paren_none (stack : list item) :
  forall output, left_parens stack = 0 ->
  exists output', pop_to_paren stack output = ([], output').
Proof.
  induction stack as [|it stack IH]; intros output; simpl; [eauto|].
  unfold left_parens in *. destruct it; simpl; try apply IH. lia.
Qed.

Lemma construction_failed_not_mismatched (e : exn) :
  construction_failed e <> mismatched_parentheses.
Proof. unfold construction_failed, mismatched_parentheses. intros [= H]. Qed.

End ParenthesisFacts.

Section ParenthesesMore.

Import FormulaParser ShuntingFacts ParenthesisFacts.

(** Property X6.  When the loop over the tokens of [build_ast] completes,
    it has not read more closing than opening parentheses, and [build_ast]
    returns the "Mismatched parentheses" failure exactly when it has read
    more opening than closing ones. *)
Theorem build_ast_unclosed_parenthesis (tokens : list token) (st : shunting_state) :
  shunting_loop tokens ([], []) = Next st ->
  closes tokens <= opens tokens /\
  (build_ast tokens = mismatched_parentheses <-> closes tokens < opens tokens).
Proof.
  destruct st as [stack output]. intros Hl.
  pose proof (shunting_loop_parens _ _ _ _ _ Hl) as Hn.
  change (left_parens []) with 0 in Hn.
  split; [lia|]. unfold build_ast, to_postfix. rewrite Hl.
  destruct (empty_stack_parens stack output) as [Hzero Hpos].
  destruct (Nat.eq_dec (left_parens stack) 0) as [Hz|Hnz].
  - destruct (Hzero Hz) as [output' ->]. split; [|lia].
    destruct (_build_tree output') as [e|tree].
    + intros H. exfalso. exact (construction_failed_not_mismatched _ H).
    + discriminate.
  - rewrite Hpos by lia. split; [lia|reflexivity].
Qed.

(** Property X6 at the tokens of [=(1+2]. *)
Lemma build_ast_unclosed_parenthesis_witness :
  let tokens := [Token delimiter "(" 1; Token number "1" 2;
                 Token operator "+" 3; Token number "2" 4] in
  closes tokens <= opens tokens /\
  (build_ast tokens = mismatched_parentheses <-> closes tokens < opens tokens).
Proof.
  apply (build_ast_unclosed_parenthesis
           [Token delimiter "(" 1; Token number "1" 2;
            Token operator "+" 3; Token number "2" 4]
           ([operator_item "+"; left_paren],
            [operand "1" number; operand "2" number])).
  reflexivity.
Defined.

(** Property X7.  A closing parenthesis read when as many closing as
    opening ones were read before it makes [build_ast] return the
    "Mismatched parentheses" failure, and a comma read then the "Invalid
    formula structure" failure, whatever tokens follow. *)
Theorem build_ast_unopened_parenthesis (before after : list token)
    (st : shunting_state) (position : nat) :
  shunting_loop before ([], []) = Next st ->
  opens before = closes before ->
  build_ast (before ++ Token delimiter ")" position :: after) = mismatched_parentheses /\
  build_ast (before ++ Token delimiter "," position :: after) =
    Failure Constants.AI_002 "Invalid formula structure".
Proof.
  destruct st as [stack output]. intros Hl Hbalance.
  pose proof (shunting_loop_parens _ _ _ _ _ Hl) as Hn.
  change (left_parens []) with 0 in Hn.
  assert (Hz : left_parens stack = 0) by lia.
  destruct (pop_to_paren_none stack output Hz) as [output' Hp].
  unfold build_ast, to_postfix.
  rewrite !shunting_loop_app, Hl. cbn [shunting_loop].
  unfold shunting_step. simpl. rewrite Hp. auto.
Qed.

(** Property X7 at the tokens of [=(1)] followed by one more token. *)
Lemma build_ast_unopened_parenthesis_witness :
  let before := [Token delimiter "(" 1; Token number "1" 2; Token delimiter ")" 3] in
  build_ast (before ++ Token delimiter ")" 4 :: []) = mismatched_parentheses /\
  build_ast (before ++ Token delimiter "," 4 :: []) =
    Failure Constants.AI_002 "Invalid formula structure".
Proof.
  apply (build_ast_unopened_parenthesis
           [Token delimiter "(" 1; Token number "1" 2; Token delimiter ")" 3] []
           ([], [operand "1" number]) 4); reflexivity.
Defined.

End ParenthesesMore.
Module TreeMeasures.

Import FormulaParser.

(** Induction over trees that reaches the arguments of a function node. *)
Lemma node_induction (P : node -> Prop) :
  (forall kind v, P (operand_node kind v)) ->
  (forall op lhs rhs, P lhs -> P rhs -> P (operation op lhs rhs)) ->
  (forall name arguments, Forall P arguments -> P (function_node name arguments)) ->
  forall n, P n.
Proof.
  intros Hoperand Hoperation Hfunction.
  fix IH 1. intros [kind v|op lhs rhs|name arguments].
  - apply Hoperand.
  - apply Hoperation; apply IH.
  - apply Hfunction. induction arguments as [|arg arguments IHargs]; constructor.
    + apply IH.
    + exact IHargs.
Qed.

Lemma pop_arguments_leaves (n : nat) :
  forall stack args stack' args',
  pop_arguments n stack args = inr (stack', args') ->
  total_leaves stack' + total_leaves args' = total_leaves stack + total_leaves args.
Proof.
  induction n as [|n IH]; intros stack args stack' args'; simpl.
  - intros [= <- <-]. reflexivity.
  - destruct stack as [|top stack]; [discriminate|].
    intros H. apply IH in H. unfold total_leaves in *. simpl in *. lia.
Qed.

Lemma leaves_function (name : string) (arguments : list node) :
  leaves (function_node name arguments) = total_leaves arguments.
Proof.
  unfold total_leaves. simpl.
  induction arguments as [|arg arguments IH]; simpl; [reflexivity|].
  rewrite IH. reflexivity.
Qed.

Lemma total_leaves_cons (top : node) (stack : list node) :
  total_leaves (top :: stack) = leaves top + total_leaves stack.
Proof. reflexivity. Qed.

(** The loop of [_build_tree] loses no operand: the leaves of the trees on
    its stack are the operands read. *)
Lemma build_tree_loop_leaves (postfix : list item) :
  forall stack stack',
  build_tree_loop postfix stack = inr stack' ->
  total_leaves stack' = total_leaves stack + operands postfix.
Proof.
  induction postfix as [|it postfix IH]; intros stack stack' H; simpl in H.
  - injection H as <-. simpl. lia.
  - destruct it as [v kind|v n|v| |v n]; simpl.
    + apply IH in H. unfold total_leaves in *. simpl in *. lia.
    + apply IH in H. exact H.
    + destruct stack as [|rhs [|lhs stack]]; try discriminate.
      apply IH in H. unfold total_leaves in *. simpl in *. lia.
    + apply IH in H. exact H.
    + destruct (pop_arguments n stack []) as [e|[stack1 args1]] eqn:Hp; [discriminate|].
      apply IH in H. apply pop_arguments_leaves in Hp.
      rewrite total_leaves_cons, leaves_function in H.
      change (total_leaves []) with 0 in Hp. lia.
Qed.

Lemma last_leaves (stack : list node) (tree : node) :
  List.last (map Some stack) None = Some tree ->
  leaves tree <= total_leaves stack.
Proof.
  unfold total_leaves.
  induction stack as [|top [|next stack] IH]; simpl; [discriminate| |].
  - intros [= <-]. lia.
  - intros H. apply IH in H. simpl in H. lia.
Qed.

Lemma fold_analyze (f : node -> nat -> metrics -> metrics) (arguments : list node) :
  forall d m (measure : metrics -> nat) (size : node -> nat),
  Forall (fun arg => forall d m, measure (f arg d m) = measure m + size arg) arguments ->
  measure (fold_left (fun m arg => f arg d m) arguments m) =
  measure m + list_sum (map size arguments).
Proof.
  induction arguments as [|arg arguments IH]; intros d m measure size Hall; simpl.
  - lia.
  - inversion Hall as [|? ? Harg Hrest]; subst.
    rewrite (IH _ _ _ _ Hrest), Harg. lia.
Qed.

Lemma total_sum (size : node -> nat) (arguments : list node) :
  (fix total (l : list node) : nat :=
     match l with
     | [] => 0
     | arg :: l' => size arg + total l'
     end) arguments = list_sum (map size arguments).
Proof. induction arguments as [|arg arguments IH]; simpl; [reflexivity|]. rewrite IH. reflexivity. Qed.

Lemma analyze_node_operations (n : node) :
  forall d m, operations (analyze_node n d m) = operations m + operation_nodes n.
Proof.
  induction n as [kind v|op lhs rhs IHl IHr|name arguments IH] using node_induction;
    intros d m.
  - destruct kind; simpl; lia.
  - simpl. rewrite IHr, IHl. simpl. lia.
  - cbn [analyze_node operation_nodes]. rewrite total_sum.
    rewrite (fold_analyze analyze_node arguments (d + 1) _ operations operation_nodes IH).
    reflexivity.
Qed.

Lemma analyze_node_functions (n : node) :
  forall d m, functions (analyze_node n d m) = functions m + function_nodes n.
Proof.
  induction n as [kind v|op lhs rhs IHl IHr|name arguments IH] using node_induction;
    intros d m.
  - destruct kind; simpl; lia.
  - simpl. rewrite IHr, IHl. simpl. lia.
  - cbn [analyze_node function_nodes]. rewrite total_sum.
    rewrite (fold_analyze analyze_node arguments (d + 1) _ functions function_nodes IH).
    simpl. lia.
Qed.

Lemma analyze_node_references (n : node) :
  forall d m, references (analyze_node n d m) = references m + reference_leaves n.
Proof.
  induction n as [kind v|op lhs rhs IHl IHr|name arguments IH] using node_induction;
    intros d m.
  - destruct kind; simpl; lia.
  - simpl. rewrite IHr, IHl. simpl. lia.
  - cbn [analyze_node reference_leaves]. rewrite total_sum.
    rewrite (fold_analyze analyze_node arguments (d + 1) _ references reference_leaves IH).
    reflexivity.
Qed.

Lemma highest_max (arguments : list node) :
  forall d m,
  Forall (fun arg => forall d m,
            depth (analyze_node arg d m) = Nat.max (depth m) (d + height arg - 1))
         arguments ->
  depth (fold_left (fun m arg => analyze_node arg d m) arguments m) =
  Nat.max (depth m)
    (match arguments with
     | [] => 0
     | _ => d + (fix highest (l : list node) : nat :=
                   match l with
                   | [] => 0
                   | arg :: l' => Nat.max (height arg) (highest l')
                   end) arguments - 1
     end).
Proof.
  induction arguments as [|arg arguments IH]; intros d m Hall; [simpl; lia|].
  inversion Hall as [|? ? Harg Hrest]; subst.
  cbn [fold_left]. rewrite (IH _ _ Hrest), Harg.
  destruct arguments as [|arg' arguments]; lia.
Qed.

Lemma height_positive (n : node) : 1 <= height n.
Proof. destruct n; simpl; lia. Qed.

Lemma analyze_node_depth (n : node) :
  forall d m, depth (analyze_node n d m) = Nat.max (depth m) (d + height n - 1).
Proof.
  induction n as [kind v|op lhs rhs IHl IHr|name arguments IH] using node_induction;
    intros d m.
  - destruct kind; simpl; lia.
  - simpl. rewrite IHr, IHl. simpl.
    pose proof (height_positive lhs). pose proof (height_positive rhs). lia.
  - cbn [analyze_node height]. rewrite (highest_max arguments (d + 1) _ IH).
    cbn [depth].
    destruct arguments as [|arg arguments]; [lia|].
    pose proof (height_positive arg). lia.
Qed.

End TreeMeasures.

Section TreeMore.

Import FormulaParser TreeMeasures.

(** Property X8.  [_build_tree] loses no operand while it reads the
    postfix sequence: when it raises nothing, the trees left on its stack
    have as many leaves as the sequence has operands.  It returns the
    bottom one of these trees only, so the tree returned has at most that
    many leaves. *)
Theorem build_tree_keeps_operands (postfix : list item) (stack : list node) :
  build_tree_loop postfix [] = inr stack ->
  total_leaves stack = operands postfix /\
  _build_tree postfix = inr (List.last (map Some stack) None) /\
  forall tree, List.last (map Some stack) None = Some tree ->
               leaves tree <= operands postfix.
Proof.
  intros H. pose proof (build_tree_loop_leaves _ _ _ H) as Hl.
  change (total_leaves []) with 0 in Hl. simpl in Hl.
  split; [exact Hl|]. split.
  - unfold _build_tree. rewrite H. reflexivity.
  - intros tree Ht. apply last_leaves in Ht. lia.
Qed.

(** Property X8 at the postfix sequence of [=SUM(A1,B1)]: two operands,
    two trees left, the bottom one returned. *)
Lemma build_tree_keeps_operands_witness :
  let postfix := [operand "A1" reference; operand "B1" reference;
                  function_call "SUM" 1] in
  let stack := [function_node "SUM" [operand_node reference "B1"];
                operand_node reference "A1"] in
  total_leaves stack = operands postfix /\
  _build_tree postfix = inr (Some (operand_node reference "A1")).
Proof.
  destruct (build_tree_keeps_operands
              [operand "A1" reference; operand "B1" reference; function_call "SUM" 1]
              [function_node "SUM" [operand_node reference "B1"];
               operand_node reference "A1"] eq_refl) as (H1 & H2 & _).
  split; [exact H1|exact H2].
Defined.

(** Property X9.  The metrics of [_calculate_complexity] are the measures
    of the tree: [depth] is its height, [operations] the number of its
    operation nodes, [functions] the number of its function nodes and
    [references] the number of its reference leaves. *)
Theorem calculate_complexity_measures (tree : node) :
  _calculate_complexity tree =
  {| depth := height tree; operations := operation_nodes tree;
     functions := function_nodes tree; references := reference_leaves tree |}.
Proof.
  unfold _calculate_complexity.
  pose proof (analyze_node_depth tree 1
                {| depth := 0; operations := 0; functions := 0; references := 0 |}) as Hd.
  pose proof (analyze_node_operations tree 1
                {| depth := 0; operations := 0; functions := 0; references := 0 |}) as Ho.
  pose proof (analyze_node_functions tree 1
                {| depth := 0; operations := 0; functions := 0; references := 0 |}) as Hf.
  pose proof (analyze_node_references tree 1
                {| depth := 0; operations := 0; functions := 0; references := 0 |}) as Hr.
  destruct (analyze_node tree 1 _) as [d o f r]. simpl in *.
  pose proof (height_positive tree). f_equal; lia.
Qed.

End TreeMore.
Section OperatorsMore.

Import FormulaParser.




End OperatorsMore.
Module CycleFacts.

Import Re FormulaParser DependencyFacts.

Section Cycles.

Variable _dependency_map : gmap string (list string).

Lemma chain_app (l1 l2 : list string) (a : string) :
  chain _dependency_map (l1 ++ [a]) -> chain _dependency_map (a :: l2) ->
  chain _dependency_map (l1 ++ a :: l2).
Proof.
  induction l1 as [|x l1 IH]; [auto|].
  destruct l1 as [|y l1]; simpl in *.
  - intros [H _] H2. auto.
  - intros [H H1] H2. split; [exact H|]. apply IH; auto.
Qed.

Lemma chain_snoc (path : list string) (ref dep : string) :
  chain _dependency_map (path ++ [ref]) -> depends_on _dependency_map ref dep ->
  chain _dependency_map ((path ++ [ref]) ++ [dep]).
Proof.
  intros H Hd. rewrite <- List.app_assoc. apply chain_app; [exact H|].
  simpl. auto.
Qed.

Lemma chain_suffix (l1 l2 : list string) :
  chain _dependency_map (l1 ++ l2) -> chain _dependency_map l2.
Proof.
  induction l1 as [|x l1 IH]; [auto|].
  destruct l1 as [|y l1]; simpl.
  - destruct l2; [auto|]. intros [_ H]. exact H.
  - intros [_ H]. apply IH. exact H.
Qed.

(** What the search adds to [circular_refs] are reports of cycles. *)
Lemma check_circular_reports (room : nat) :
  forall ref path circular_refs visited circular_refs' visited',
  chain _dependency_map (path ++ [ref]) ->
  check_circular _dependency_map room ref path (circular_refs, visited) =
    inr (circular_refs', visited') ->
  exists added,
    circular_refs' = circular_refs ++ added /\
    Forall (cycle_report _dependency_map) added.
Proof.
  induction room as [|room IH];
    intros ref path circular_refs visited circular_refs' visited' Hchain;
    cbn [check_circular]; [discriminate|].
  destruct (bool_decide (ref ∈ path)) eqn:Hpath.
  { intros [= <- <-]. eexists. split; [reflexivity|].
    repeat constructor. exists path, ref. repeat split; auto.
    apply bool_decide_eq_true in Hpath. apply list_elem_of_In. exact Hpath. }
  destruct (bool_decide (ref ∈ visited)).
  { intros [= <- <-]. exists []. rewrite List.app_nil_r. auto. }
  destruct (_dependency_map !! ref) as [deps|] eqn:Hdeps.
  2:{ intros [= <- <-]. exists []. rewrite List.app_nil_r. auto. }
  assert (Hall : forall dep, In dep deps -> depends_on _dependency_map ref dep)
    by (intros dep Hin; exists deps; auto).
  clear Hdeps. revert Hall. generalize (visited ∪ {[ref]}). generalize circular_refs.
  induction deps as [|dep deps IHdeps]; intros c v Hall.
  - intros [= <- <-]. exists []. rewrite List.app_nil_r. auto.
  - destruct (check_circular _ room dep (path ++ [ref]) (c, v)) as [e|[c1 v1]] eqn:Hc;
      [discriminate|].
    intros H.
    destruct (IH _ _ _ _ _ _ (chain_snoc _ _ _ Hchain (Hall dep ltac:(simpl; auto))) Hc)
      as (added1 & -> & Hadded1).
    destruct (IHdeps (c ++ added1) v1 ltac:(intros; apply Hall; simpl; auto) H)
      as (added2 & -> & Hadded2).
    exists (added1 ++ added2). rewrite List.app_assoc. split; [reflexivity|].
    apply Forall_app. auto.
Qed.

Lemma check_each_reports (room : nat) (refs : list string) :
  forall circular_refs visited circular_refs' visited',
  check_each _dependency_map room refs (circular_refs, visited) =
    inr (circular_refs', visited') ->
  exists added,
    circular_refs' = circular_refs ++ added /\
    Forall (cycle_report _dependency_map) added.
Proof.
  induction refs as [|ref refs IH]; intros c v c' v'; cbn [check_each].
  - intros [= <- <-]. exists []. rewrite List.app_nil_r. auto.
  - destruct (check_circular _ room ref [] (c, v)) as [e|[c1 v1]] eqn:Hc; [discriminate|].
    intros H.
    destruct (check_circular_reports room ref [] c v c1 v1 I Hc) as (added1 & -> & Hadded1).
    destruct (IH _ _ _ _ H) as (added2 & -> & Hadded2).
    exists (added1 ++ added2). rewrite List.app_assoc. split; [reflexivity|].
    apply Forall_app. auto.
Qed.

Lemma detect_reports (room : nat) (formula sheet_name : string)
    (refs circular_refs : list string) :
  _detect_circular_references _dependency_map room formula sheet_name refs =
    inr circular_refs ->
  Forall (cycle_report _dependency_map) circular_refs.
Proof.
  unfold _detect_circular_references.
  destruct (check_each _ _ _ _) as [e|[c v]] eqn:Hc; [discriminate|].
  intros [= <-]. destruct (check_each_reports _ _ _ _ _ _ Hc) as (added & -> & H).
  exact H.
Qed.

(** A report of a cycle contradicts a map without cycles. *)
Lemma acyclic_no_report (entry : string) :
  acyclic _dependency_map -> ~ cycle_report _dependency_map entry.
Proof.
  intros Hacyclic (path & ref & _ & Hin & Hchain).
  apply in_split in Hin as (l1 & l2 & ->).
  rewrite <- List.app_assoc in Hchain. apply chain_suffix in Hchain.
  exact (Hacyclic ref l2 Hchain).
Qed.

(** A map whose dependencies go down a rank has no cycle. *)
Lemma ranked_chain (rank : string -> nat) :
  (forall first second, depends_on _dependency_map first second ->
                        rank second < rank first) ->
  forall between first last,
  chain _dependency_map (first :: between ++ [last]) -> rank last < rank first.
Proof.
  intros Hrank. induction between as [|next between IH]; intros first last; simpl.
  - intros [H _]. auto.
  - intros [H Hrest]. apply Hrank in H. apply IH in Hrest. lia.
Qed.

Lemma ranked_acyclic (rank : string -> nat) :
  (forall first second, depends_on _dependency_map first second ->
                        rank second < rank first) ->
  acyclic _dependency_map.
Proof.
  intros Hrank ref between Hchain.
  apply (ranked_chain rank Hrank) in Hchain. lia.
Qed.

End Cycles.

End CycleFacts.

Section CyclesMore.

Import Re FormulaParser DependencyFacts CycleFacts.


(** Property X12.  With a dependency map that has no cycle, and more room
    on the stack than the map has keys, [analyze_dependencies] reports no
    circular reference and a successful validation, with the direct and
    cross-sheet references of the formula. *)
Theorem analyze_dependencies_acyclic
    (_dependency_map : gmap string (list string)) (recursion_limit : nat)
    (formula sheet_name : string) :
  acyclic _dependency_map ->
  size _dependency_map < recursion_limit ->
  let refs := findall _reference_pattern formula in
  analyze_dependencies _dependency_map recursion_limit formula sheet_name =
  {| direct := List.filter (fun ref => negb (Str.mem "!" ref)) refs;
     indirect := []; circular := [];
     cross_sheet := map cross_sheet_entry (List.filter (Str.mem "!") refs);
     validation := {| success := true; errors := [] |} |}.
Proof.
  intros Hacyclic Hroom refs.
  pose proof (analyze_block_completes _dependency_map recursion_limit
                formula sheet_name Hroom) as Hblock.
  revert Hblock. unfold analyze_dependencies, analyze_block.
  rewrite classify_findall.
  destruct (_detect_circular_references _ _ _ _ _) as [e|circular_refs] eqn:Hd.
  - intros [deps Hdeps]. discriminate.
  - intros _. apply detect_reports in Hd.
    destruct circular_refs as [|entry rest]; [reflexivity|].
    inversion Hd as [|? ? Hentry _]; subst.
    exfalso. exact (acyclic_no_report _ _ Hacyclic Hentry).
Qed.

(** Property X12 at a map in which [A1] depends on [B1]. *)
Lemma analyze_dependencies_acyclic_witness :
  analyze_dependencies {["A1" := ["B1"]]} 1000 "=A1+Sheet2!B1" "Sheet1" =
  {| direct := ["A1"]; indirect := []; circular := [];
     cross_sheet := [{| cs_sheet := "Sheet2"; cs_reference := "B1" |}];
     validation := {| success := true; errors := [] |} |}.
Proof.
  apply (analyze_dependencies_acyclic {["A1" := ["B1"]]} 1000 "=A1+Sheet2!B1" "Sheet1").
  - apply (ranked_acyclic _ (fun ref => if String.eqb ref "A1" then 1 else 0)).
    intros first second (deps & Hlookup & Hin).
    apply lookup_singleton_Some in Hlookup as [<- <-].
    destruct Hin as [<-|[]]. simpl. lia.
  - rewrite map_size_singleton. lia.
Defined.

(** A map with a cycle through the reference of the formula: the entry
    reported is the chain that closes it. *)
Example analyze_dependencies_cycle :
  circular (analyze_dependencies {["A1" := ["B1"]; "B1" := ["A1"]]} 1000
              "=A1" "Sheet1") = ["A1->B1->A1"].
Proof. vm_compute. reflexivity. Qed.

End CyclesMore.
Module SyntaxFacts.

Import Re StrFacts ReFacts FormulaValidator.

Lemma opener_cases (c : ascii) :
  brackets c <> None -> c = "("%char \/ c = "["%char \/ c = "{"%char.
Proof.
  unfold brackets, Char.lit.
  destruct (Ascii.eqb_spec c "("); [auto|].
  destruct (Ascii.eqb_spec c "["); [auto|].
  destruct (Ascii.eqb_spec c "{"); [auto|]. congruence.
Qed.

Lemma not_opener (c : ascii) :
  brackets c = None -> c <> "("%char /\ c <> "["%char /\ c <> "{"%char.
Proof.
  intros H. repeat split; intros ->; discriminate.
Qed.

Lemma closer_cases (c : ascii) :
  Str.mem c ")]}" = true -> c = ")"%char \/ c = "]"%char \/ c = "}"%char.
Proof.
  simpl.
  destruct (Ascii.eqb_spec c ")"); [auto|].
  destruct (Ascii.eqb_spec c "]"); [auto|].
  destruct (Ascii.eqb_spec c "}"); [auto|]. discriminate.
Qed.

Lemma not_closer (c : ascii) :
  Str.mem c ")]}" = false -> c <> ")"%char /\ c <> "]"%char /\ c <> "}"%char.
Proof.
  intros H. repeat split; intros ->; discriminate.
Qed.

(** The numbers that the loop over the brackets keeps equal, for one kind
    of bracket: the opening ones read, with those already on the stack,
    are the closing ones read, with those left on the stack. *)
Lemma balance_counts (open close : ascii) :
  brackets open = Some close ->
  forall formula stack stack',
  balance formula stack = Some stack' ->
  Forall (fun c => brackets c <> None) stack ->
  Str.count open formula + on_stack open stack =
  Str.count close formula + on_stack open stack'.
Proof.
  intros Hpair.
  assert (Hopen : brackets open <> None) by congruence.
  induction formula as [|char formula IH]; intros stack stack' H Hstack;
    cbn [balance] in H.
  - injection H as <-. simpl. reflexivity.
  - destruct (brackets char) as [closer|] eqn:Hb.
    + assert (Hchar : brackets char <> None) by congruence.
      apply IH in H; [|constructor; assumption]. revert H. clear IH.
      unfold on_stack. simpl (Str.count _ (String _ _)).
      destruct (opener_cases _ Hopen) as [->|[->| ->]];
        injection Hpair as <-;
        destruct (opener_cases _ Hchar) as [->|[->| ->]]; simpl; lia.
    + destruct (Str.mem char ")]}") eqn:Hm.
      * destruct stack as [|top stack]; [discriminate|].
        destruct (bool_decide (Some char = brackets top)) eqn:Htop; [|discriminate].
        apply bool_decide_eq_true in Htop.
        inversion Hstack as [|? ? Htop' Hrest]; subst.
        apply IH in H; [|exact Hrest]. revert H. clear IH.
        unfold on_stack. simpl (Str.count _ (String _ _)).
        destruct (opener_cases _ Hopen) as [->|[->| ->]];
          injection Hpair as <-;
          destruct (opener_cases _ Htop') as [->|[->| ->]];
          injection Htop as ->; simpl; lia.
      * apply IH in H; [|exact Hstack]. revert H. clear IH.
        destruct (not_opener _ Hb) as (? & ? & ?).
        destruct (not_closer _ Hm) as (? & ? & ?).
        simpl (Str.count _ (String _ _)).
        destruct (opener_cases _ Hopen) as [->|[->| ->]];
          injection Hpair as <-;
          repeat match goal with
                 | |- context [Ascii.eqb ?a char] =>
                     destruct (Ascii.eqb_spec a char); [congruence|]
                 end; simpl; lia.
Qed.

(** What an accepted formula has passed. *)
Lemma validate_syntax_body_valid (max_length : nat) (formula : string) :
  is_valid (validate_syntax_body max_length formula) = true ->
  formula <> EmptyString /\ String.length formula <= max_length /\
  (exists groups, match_ _syntax_pattern formula = Some groups) /\
  balance formula [] = Some [] /\
  findall operator_run_pattern formula = [].
Proof.
  unfold validate_syntax_body.
  destruct (String.eqb_spec formula EmptyString) as [->|Hne]; [discriminate|].
  destruct (max_length <? String.length formula) eqn:Hlen; [discriminate|].
  apply Nat.ltb_ge in Hlen. simpl.
  destruct (match_ _syntax_pattern formula) as [groups|]; [|discriminate].
  destruct (balance formula []) as [[|? ?]|]; try discriminate.
  destruct (findall operator_run_pattern formula); [|discriminate].
  eauto 10.
Qed.

(** An unbounded repetition succeeds when enough characters of the class
    stand at the head of the input and the continuation accepts any rest. *)
Lemma rep_succeeds {A : Type} (p : ascii -> bool) (k : string -> option A) :
  (forall s, k s <> None) ->
  forall s lo, lo <= FormulaParser.span p s -> rep p lo None s k <> None.
Proof.
  intros Hk. induction s as [|c s IH]; intros lo Hlo; simpl in *.
  - destruct lo; [apply Hk|lia].
  - destruct (p c); simpl.
    + destruct (rep p (Nat.pred lo) None s k) eqn:Hr; [discriminate|].
      exfalso. apply (IH (Nat.pred lo)); [lia|exact Hr].
    + destruct lo; [apply Hk|lia].
Qed.

(** A run of two arithmetic operators is a match of the pattern. *)
Lemma operator_run_matches (c1 c2 : ascii) (s : string) :
  Char.re_arith_char c1 = true -> Char.re_arith_char c2 = true ->
  group0 operator_run_pattern (String c1 (String c2 s)) <> None.
Proof.
  intros H1 H2. unfold group0, match_, operator_run_pattern. cbn [run].
  destruct (rep _ _ _ _ _) eqn:Hr; [discriminate|].
  exfalso. revert Hr. apply rep_succeeds; [discriminate|].
  simpl. rewrite H1, H2. lia.
Qed.

(** [findall] is empty only when the pattern matches at no position. *)
Lemma findall_from_empty (r : regex) (before after : string) :
  findall_from r 0 (before +:+ after) = [] -> group0 r after = None.
Proof.
  induction before as [|b before IH].
  - change ("" +:+ after) with after.
    destruct after; simpl; destruct (group0 r _); auto; discriminate.
  - rewrite app_cons. cbn [findall_from].
    destruct (group0 r (String b _)); [discriminate|]. exact IH.
Qed.

End SyntaxFacts.

Section SyntaxMore.

Import Re StrFacts ReFacts FormulaValidator SyntaxFacts.

(** Property X13.  A formula that [validate_syntax] accepts has as many
    closing as opening brackets of each of the three kinds. *)
Theorem validate_syntax_balanced (max_length : nat) (formula : string) :
  is_valid (validate_syntax_body max_length formula) = true ->
  Str.count "(" formula = Str.count ")" formula /\
  Str.count "[" formula = Str.count "]" formula /\
  Str.count "{" formula = Str.count "}" formula.
Proof.
  intros (_ & _ & _ & Hb & _)%validate_syntax_body_valid.
  pose proof (balance_counts "(" ")" eq_refl _ _ _ Hb ltac:(constructor)) as H1.
  pose proof (balance_counts "[" "]" eq_refl _ _ _ Hb ltac:(constructor)) as H2.
  pose proof (balance_counts "{" "}" eq_refl _ _ _ Hb ltac:(constructor)) as H3.
  unfold on_stack in *. simpl in *. lia.
Qed.

(** Property X13 at the formula [=SUM(A1:A10)]. *)
Lemma validate_syntax_balanced_witness :
  Str.count "(" "=SUM(A1:A10)" = Str.count ")" "=SUM(A1:A10)" /\
  Str.count "[" "=SUM(A1:A10)" = Str.count "]" "=SUM(A1:A10)" /\
  Str.count "{" "=SUM(A1:A10)" = Str.count "}" "=SUM(A1:A10)".
Proof.
  apply (validate_syntax_balanced 1000 "=SUM(A1:A10)"). reflexivity.
Defined.

(** Property X14.  A formula in which two of the characters [+], [-], [*]
    and [/] stand side by side is not accepted by [validate_syntax]: a
    sign after an operator, as in [=A1*-1], is refused. *)
Theorem validate_syntax_operator_run (max_length : nat) (before after : string)
    (c1 c2 : ascii) :
  Char.re_arith_char c1 = true -> Char.re_arith_char c2 = true ->
  is_valid (validate_syntax_body max_length
              (before +:+ String c1 (String c2 after))) = false.
Proof.
  intros H1 H2.
  destruct (is_valid _) eqn:Hv; [|reflexivity]. exfalso.
  apply validate_syntax_body_valid in Hv as (_ & _ & _ & _ & Hf).
  apply (operator_run_matches c1 c2 after H1 H2).
  exact (findall_from_empty _ before _ Hf).
Qed.

(** Property X14 at the formula [=A1*-1]. *)
Lemma validate_syntax_operator_run_witness :
  is_valid (validate_syntax_body 1000 "=A1*-1") = false.
Proof.
  apply (validate_syntax_operator_run 1000 "=A1" "1" "*" "-"); reflexivity.
Defined.

End SyntaxMore.
Section SyntaxShape.

Import Re StrFacts ReFacts FormulaValidator SyntaxFacts.

(** Property X15.  A formula that [validate_syntax] accepts is made of
    blanks, an [=], blanks, a character other than [=], a body without
    line break and, at most, one final line break; it is not empty and not
    longer than the maximum. *)
Theorem validate_syntax_shape (max_length : nat) (formula : string) :
  is_valid (validate_syntax_body max_length formula) = true ->
  String.length formula <= max_length /\
  exists blank1 blank2 c body tail,
    formula = blank1 +:+ String "=" (blank2 +:+ String c (body +:+ tail)) /\
    Str.all Char.isspace blank1 = true /\
    Str.all Char.isspace blank2 = true /\
    c <> "="%char /\
    Str.mem Char.newline body = false /\
    (tail = EmptyString \/ tail = String Char.newline EmptyString).
Proof.
  intros (_ & Hlen & [[m groups] Hm] & _ & _)%validate_syntax_body_valid.
  split; [exact Hlen|].
  apply match_sound in Hm as (rest & -> & L).
  unfold _syntax_pattern in L. simpl in L.
  destruct L as (blank1 & w1 & -> & (Hb1 & _ & _) & L).
  destruct L as (eq & w2 & -> & (c0 & -> & Hc0) & L).
  destruct L as (blank2 & w3 & -> & (Hb2 & _ & _) & L).
  destruct L as (first & w4 & -> & (c & -> & Hc) & L).
  destruct L as (body & w5 & -> & (Hbody & _ & _) & (-> & Htail)).
  apply Ascii.eqb_eq in Hc0. subst c0.
  exists blank1, blank2, c, body, rest.
  rewrite !app_assoc. split; [reflexivity|]. repeat split; auto.
  - unfold Char.re_not_equals, Char.lit in Hc. apply negb_true_iff in Hc.
    apply Ascii.eqb_neq in Hc. exact Hc.
  - clear -Hbody. induction body as [|x body IH]; [reflexivity|].
    cbn [Str.mem Str.all] in *. apply andb_true_iff in Hbody as [Hx Hrest].
    unfold Char.re_dot, Char.lit in Hx. apply negb_true_iff in Hx.
    rewrite (Ascii.eqb_sym Char.newline x), Hx. simpl. auto.
Qed.

(** Property X15 at the formula [= A1+B2]. *)
Lemma validate_syntax_shape_witness :
  String.length "= A1+B2" <= 1000 /\
  exists blank1 blank2 c body tail,
    "= A1+B2" = blank1 +:+ String "=" (blank2 +:+ String c (body +:+ tail)) /\
    Str.all Char.isspace blank1 = true /\
    Str.all Char.isspace blank2 = true /\
    c <> "="%char /\
    Str.mem Char.newline body = false /\
    (tail = EmptyString \/ tail = String Char.newline EmptyString).
Proof.
  apply (validate_syntax_shape 1000 "= A1+B2"). reflexivity.
Defined.

End SyntaxShape.
Module CacheFacts.

Import FormulaValidator ValidatorFacts.

Lemma cache_remove_shorter (formula : string) (cache : lru_cache) :
  length (cache_remove formula cache) <= length cache.
Proof.
  induction cache as [|[k r] cache IH]; simpl; [lia|].
  destruct (String.eqb k formula); simpl; lia.
Qed.

Lemma cache_remove_hit (formula : string) (cache : lru_cache) (res : ValidationResult) :
  cache_lookup formula cache = Some res ->
  length (cache_remove formula cache) < length cache.
Proof.
  induction cache as [|[k r] cache IH]; simpl; [discriminate|].
  destruct (String.eqb k formula); simpl.
  - intros _. pose proof (cache_remove_shorter formula cache). lia.
  - intros H. apply IH in H. lia.
Qed.

(** A call leaves no more entries than the larger of the capacity and the
    number of entries it found. *)
Lemma validate_syntax_size (max_length : nat) (cache : lru_cache) (formula : string) :
  length cache <= maxsize ->
  length (snd (validate_syntax max_length cache formula)) <= maxsize.
Proof.
  intros H. unfold validate_syntax.
  destruct (cache_lookup formula cache) as [res|] eqn:Hl; cbn [snd].
  - apply cache_remove_hit in Hl. simpl. lia.
  - rewrite length_firstn. lia.
Qed.

Lemma validate_syntax_each_spec (max_length : nat) (formulas : list string) :
  forall cache,
  coherent max_length cache -> length cache <= maxsize ->
  fst (validate_syntax_each max_length cache formulas) =
    map (validate_syntax_body max_length) formulas /\
  coherent max_length (snd (validate_syntax_each max_length cache formulas)) /\
  length (snd (validate_syntax_each max_length cache formulas)) <= maxsize.
Proof.
  induction formulas as [|formula formulas IH]; intros cache Hc Hsize;
    cbn [validate_syntax_each].
  - auto.
  - pose proof (validate_syntax_coherent max_length cache formula Hc) as [Hres Hc1].
    pose proof (validate_syntax_size max_length cache formula Hsize) as Hsize1.
    destruct (validate_syntax max_length cache formula) as [res cache1].
    cbn [fst snd] in *.
    destruct (IH cache1 Hc1 Hsize1) as (Hresults & Hc2 & Hsize2).
    destruct (validate_syntax_each max_length cache1 formulas) as [results cache2].
    cbn [fst snd map] in *. subst. auto.
Qed.

End CacheFacts.

Section CacheMore.

Import FormulaValidator ValidatorFacts CacheFacts.

(** Property X16.  The cache of [validate_syntax] does not change its
    answers and does not grow past its capacity: whatever formulas a
    validator is asked about, in whatever order and however often, from
    its creation on, every call returns what the body of the function
    computes for its formula, and the cache never holds more than 1000
    entries. *)
Theorem validate_syntax_cache_transparent (max_length : nat) (formulas : list string) :
  let '(results, cache) := validate_syntax_each max_length [] formulas in
  results = map (validate_syntax_body max_length) formulas /\
  length cache <= 1000.
Proof.
  pose proof (validate_syntax_each_spec max_length formulas []) as H.
  destruct (validate_syntax_each max_length [] formulas) as [results cache].
  destruct H as (H1 & _ & H2).
  - intros formula res. discriminate.
  - simpl. unfold maxsize. lia.
  - auto.
Qed.

End CacheMore.
Module ReferenceFacts.

Import Re StrFacts ReFacts FormulaValidator ValidatorFacts.

(** A greedy repetition that takes a whole run of its class, and whose
    continuation then succeeds, succeeds at once. *)
Lemma rep_greedy {A : Type} (p : ascii -> bool) (k : string -> option A) (a : A)
    (s : string) :
  forall w lo hi,
  Str.all p w = true -> lo <= String.length w ->
  match hi with Some h => String.length w <= h | None => True end ->
  head_fails p s \/ hi = Some (String.length w) ->
  k s = Some a ->
  rep p lo hi (w +:+ s) k = Some a.
Proof.
  induction w as [|x w IH]; intros lo hi Hall Hlo Hhi Hstop Hk.
  - change ("" +:+ s) with s. simpl in Hlo. assert (lo = 0) by lia. subst lo.
    destruct s as [|c s']; simpl; [exact Hk|].
    destruct Hstop as [Hc| ->]; [simpl in Hc; rewrite Hc|rewrite andb_false_r];
      exact Hk.
  - rewrite app_cons. simpl in *. apply andb_true_iff in Hall as [Hx Hw].
    rewrite Hx.
    assert (Hmay : may_repeat hi = true) by (destruct hi as [[|h]|]; simpl; auto; lia).
    rewrite Hmay. simpl.
    rewrite (IH (Nat.pred lo) (one_less hi)); auto; try lia.
    + destruct hi as [h|]; simpl; [lia|exact I].
    + destruct Hstop as [Hc| ->]; [auto|]. right. reflexivity.
Qed.

Lemma letter_not_dollar (c : ascii) :
  Char.re_letter c = true -> Char.lit "$" c = false.
Proof.
  intros H. unfold Char.lit. destruct (Ascii.eqb_spec c "$") as [->|_];
    [discriminate|reflexivity].
Qed.

Lemma digit_not_dollar (c : ascii) :
  Char.re_digit c = true -> Char.lit "$" c = false.
Proof.
  intros H. unfold Char.lit. destruct (Ascii.eqb_spec c "$") as [->|_];
    [discriminate|reflexivity].
Qed.

Lemma digit_not_letter (c : ascii) :
  Char.re_digit c = true -> Char.re_letter c = false.
Proof.
  unfold Char.re_digit, Char.re_letter, Char.between. intros H.
  apply andb_true_iff in H as [H1 H2]. apply N.leb_le in H1, H2.
  apply orb_false_iff. split; apply andb_false_iff.
  - left. apply N.leb_gt. lia.
  - left. apply N.leb_gt. lia.
Qed.

Lemma head_of_run (p q : ascii -> bool) (w s : string) :
  (forall c, p c = true -> q c = false) ->
  Str.all p w = true -> 1 <= String.length w -> head_fails q (w +:+ s).
Proof.
  intros Hpq Hall Hlen. destruct w as [|c w]; [simpl in Hlen; lia|].
  simpl in Hall. apply andb_true_iff in Hall as [Hc _].
  rewrite app_cons. simpl. auto.
Qed.


End ReferenceFacts.

Section ReferencesMore.

Import Re StrFacts FormulaValidator ValidatorFacts ReferenceFacts.





End ReferencesMore.
Module FunctionFacts.

Import Re StrFacts ReFacts FormulaValidator ValidatorFacts ReferenceFacts.

Lemma findall_group_from_empty (r : regex) (before after : string) :
  findall_group_from r 0 (before +:+ after) = [] -> match_ r after = None.
Proof.
  induction before as [|b before IH].
  - change ("" +:+ after) with after.
    destruct after; simpl; destruct (match_ r _) as [[m caps]|]; auto; discriminate.
  - rewrite app_cons. cbn [findall_group_from].
    destruct (match_ r (String b _)) as [[m caps]|]; [discriminate|]. exact IH.
Qed.

Lemma space_not_name (c : ascii) :
  Char.re_space c = true -> function_name_char c = false.
Proof.
  intros H. destruct c as [[] [] [] [] [] [] [] []]; try discriminate; reflexivity.
Qed.

(** The pattern of a call matches where a name, blanks and an opening
    parenthesis stand. *)
Lemma function_pattern_matches (name spaces after : string) :
  Str.all function_name_char name = true ->
  1 <= String.length name ->
  Str.all Char.re_space spaces = true ->
  exists m, match_ _function_pattern (name +:+ spaces +:+ "(" +:+ after) = Some (m, [name]).
Proof.
  intros Hname Hlen Hspaces. eexists.
  unfold match_, _function_pattern, Plus, Star. cbn [run].
  apply (rep_greedy function_name_char _ _ (spaces +:+ "(" +:+ after) name 1 None);
    [assumption|lia|exact I| |].
  { left. destruct spaces as [|c spaces]; [reflexivity|].
    simpl in Hspaces. apply andb_true_iff in Hspaces as [Hc _].
    rewrite app_cons. simpl. apply space_not_name, Hc. }
  apply (rep_greedy Char.re_space _ _ ("(" +:+ after) spaces 0 None);
    [assumption|lia|exact I|left; reflexivity|].
  rewrite app_cons, app_nil_l. cbn [Char.lit Ascii.eqb Bool.eqb].
  cbv beta iota. rewrite take_app. reflexivity.
Qed.

Lemma findall_group_call (before name spaces after : string) :
  Str.all function_name_char name = true ->
  1 <= String.length name ->
  Str.all Char.re_space spaces = true ->
  findall_group _function_pattern (before +:+ name +:+ spaces +:+ "(" +:+ after) <> [].
Proof.
  intros Hname Hlen Hspaces Hnil.
  apply findall_group_from_empty in Hnil.
  destruct (function_pattern_matches name spaces after Hname Hlen Hspaces) as [m Hm].
  congruence.
Qed.

Lemma check_functions_unknown (table : gmap string function_spec) (formula func : string) :
  forall functions,
  In func functions -> table !! Str.upper func = None ->
  is_valid (check_functions table formula functions) = false.
Proof.
  induction functions as [|f functions IH]; intros Hin Hnone; [destruct Hin|].
  cbn [check_functions].
  destruct (bool_decide (is_Some (table !! Str.upper f))) eqn:Hf; [|reflexivity].
  cbn [negb].
  destruct (is_valid (_validate_function_arguments table formula f)) eqn:Hv;
    cbn [negb]; [|exact Hv].
  destruct Hin as [->|Hin]; [|auto].
  apply bool_decide_eq_true in Hf. rewrite Hnone in Hf. destruct Hf; discriminate.
Qed.

Lemma validate_functions_empty_table (formula : string) :
  findall_group _function_pattern formula <> [] ->
  is_valid (validate_functions VALID_FUNCTIONS formula) = false.
Proof.
  intros Hne. unfold validate_functions.
  destruct (findall_group _function_pattern formula) as [|func functions] eqn:Hf;
    [congruence|].
  apply (check_functions_unknown _ formula func); [left; reflexivity|].
  apply lookup_empty.
Qed.

End FunctionFacts.

Section FunctionsMore.

Import Re StrFacts FormulaValidator ValidatorFacts FunctionFacts.

(** Property X19.  [validate_functions] does not accept a formula in which
    it finds a function whose name, in upper case, is not a key of the
    table of valid functions. *)
Theorem validate_functions_unknown (table : gmap string function_spec)
    (formula func : string) :
  In func (findall_group _function_pattern formula) ->
  table !! Str.upper func = None ->
  is_valid (validate_functions table formula) = false.
Proof.
  intros Hin Hnone. unfold validate_functions.
  exact (check_functions_unknown table formula func _ Hin Hnone).
Qed.

(** Property X19 at a table that knows [SUM] and a formula that calls
    [AVERAGE]. *)
Lemma validate_functions_unknown_witness :
  is_valid (validate_functions
              {["SUM" := {| min_args := Some 1; max_args := None |}]}
              "=sum(A1)+AVERAGE(B1)") = false.
Proof.
  apply (validate_functions_unknown _ "=sum(A1)+AVERAGE(B1)" "AVERAGE").
  - vm_compute. auto.
  - apply lookup_singleton_ne. discriminate.
Defined.

(** Property X20.  The controller accepts no formula with a function call.
    Its validator takes the table of valid functions from the constants,
    which have none, so [_validate_formula] returns a failure for every
    expression in which a name, blanks or none, and an opening parenthesis
    follow each other, whatever the cache of [validate_syntax] holds. *)
Theorem controller_rejects_function_calls (cache : lru_cache)
    (before name spaces after sheet_name locale : string) :
  Str.all function_name_char name = true ->
  1 <= String.length name ->
  Str.all Char.re_space spaces = true ->
  is_valid (FormulaController._validate_formula cache
              (before +:+ name +:+ spaces +:+ "(" +:+ after) sheet_name locale).1 = false.
Proof.
  intros Hname Hlen Hspaces. unfold FormulaController._validate_formula.
  set (expression := before +:+ name +:+ spaces +:+ "(" +:+ after).
  destruct (validate_syntax _ cache expression) as [syntax_result cache'].
  destruct (is_valid syntax_result) eqn:Hs; cbn [negb]; [|exact Hs].
  destruct (is_valid (validate_references _ expression sheet_name ∅)) eqn:Hr;
    cbn [negb]; [|exact Hr].
  rewrite (validate_functions_empty_table expression
             (findall_group_call before name spaces after Hname Hlen Hspaces)).
  cbn [negb fst].
  apply validate_functions_empty_table, findall_group_call; assumption.
Qed.

(** Property X20 at the formula [=SUM(A1:A3)] and an empty cache. *)
Lemma controller_rejects_function_calls_witness :
  is_valid (FormulaController._validate_formula [] "=SUM(A1:A3)" "Sheet1" "en-US").1
  = false.
Proof.
  apply (controller_rejects_function_calls [] "=" "SUM" "" "A1:A3)" "Sheet1" "en-US");
    [reflexivity|simpl; lia|reflexivity].
Defined.

End FunctionsMore.
Module ParenthesisDepth.

Import Re StrFacts FormulaValidator ValidatorFacts.

Lemma excess_nil : excess "" = 0%Z.
Proof. reflexivity. Qed.

Lemma excess_open (text : string) : excess (String "(" text) = (excess text + 1)%Z.
Proof. unfold excess. cbn [Str.count Ascii.eqb Bool.eqb andb]. lia. Qed.

Lemma excess_close (text : string) : excess (String ")" text) = (excess text - 1)%Z.
Proof. unfold excess. cbn [Str.count Ascii.eqb Bool.eqb andb]. lia. Qed.

Lemma excess_other (c : ascii) (text : string) :
  Char.lit "(" c = false -> Char.lit ")" c = false ->
  excess (String c text) = excess text.
Proof.
  unfold Char.lit, excess. intros Ho Hc. cbn [Str.count].
  rewrite (Ascii.eqb_sym "(" c), (Ascii.eqb_sym ")" c), Ho, Hc. lia.
Qed.

Lemma lit_eq (d c : ascii) : Char.lit d c = true -> c = d.
Proof. unfold Char.lit. apply Ascii.eqb_eq. Qed.

(** The three cases of a character for the loops that count
    parentheses. *)
Lemma excess_cons (c : ascii) (text : string) :
  excess (String c text) =
  (excess text + if Char.lit "(" c then 1 else if Char.lit ")" c then -1 else 0)%Z.
Proof.
  destruct (Char.lit "(" c) eqn:Ho; [apply lit_eq in Ho; subst; rewrite excess_open; lia|].
  destruct (Char.lit ")" c) eqn:Hc; [apply lit_eq in Hc; subst; rewrite excess_close; lia|].
  rewrite excess_other; auto; lia.
Qed.

Lemma find_closing_from_spec (text : string) :
  forall (i0 : nat) (count : Z), (0 <= count)%Z ->
  (find_closing_from text i0 count = (-1)%Z /\
   forall j, (0 <= count + excess (Str.take j text))%Z) \/
  (exists i, find_closing_from text i0 count = Z.of_nat (i0 + i) /\
             i < String.length text /\
             (count + excess (Str.take (S i) text) = -1)%Z /\
             forall j, j <= i -> (0 <= count + excess (Str.take j text))%Z).
Proof.
  induction text as [|c text IH]; intros i0 count Hcount.
  - left. split; [reflexivity|]. intros [|j]; simpl; rewrite excess_nil; lia.
  - cbn [find_closing_from].
    assert (Hnext : forall count', (0 <= count')%Z ->
              (count' = count + if Char.lit "(" c then 1
                                else if Char.lit ")" c then -1 else 0)%Z ->
              (find_closing_from text (S i0) count' = (-1)%Z /\
               forall j, (0 <= count + excess (Str.take j (String c text)))%Z) \/
              (exists i, find_closing_from text (S i0) count' = Z.of_nat (i0 + i) /\
                 i < String.length (String c text) /\
                 (count + excess (Str.take (S i) (String c text)) = -1)%Z /\
                 forall j, j <= i ->
                   (0 <= count + excess (Str.take j (String c text)))%Z)).
    { intros count' Hpos Heq.
      destruct (IH (S i0) count' Hpos) as [[Hr Hall]|[i [Hr [Hlt [Hend Hall]]]]].
      - left. split; [exact Hr|]. intros [|j]; [simpl; rewrite excess_nil; lia|].
        cbn [Str.take]. rewrite excess_cons. specialize (Hall j). lia.
      - right. exists (S i). split; [rewrite Hr; f_equal; lia|].
        split; [simpl; lia|]. split.
        + cbn [Str.take] in *. rewrite excess_cons. lia.
        + intros [|j] Hj; [simpl; rewrite excess_nil; lia|].
          cbn [Str.take]. rewrite excess_cons. specialize (Hall j). lia. }
    destruct (Char.lit "(" c) eqn:Ho; [apply Hnext; lia|].
    destruct (Char.lit ")" c) eqn:Hc; [|apply Hnext; lia].
    destruct (count - 1 =? -1)%Z eqn:Hz.
    + apply Z.eqb_eq in Hz. right. exists 0. split; [f_equal; lia|].
      split; [simpl; lia|]. split.
      * cbn [Str.take]. rewrite excess_cons, Ho, Hc, excess_nil. lia.
      * intros j Hj. assert (j = 0) by lia. subst j. simpl. rewrite excess_nil. lia.
    + apply Z.eqb_neq in Hz. apply Hnext; lia.
Qed.

Lemma nesting_spec (formula : string) :
  forall (depth max_depth bound : Z), (depth <= max_depth)%Z ->
  (nesting formula depth max_depth <= bound)%Z <->
  (max_depth <= bound)%Z /\
  forall j, (depth + excess (Str.take j formula) <= bound)%Z.
Proof.
  induction formula as [|c formula IH]; intros depth max_depth bound Hle.
  - cbn [nesting]. split.
    + intros H. split; [exact H|]. intros [|j]; simpl; rewrite excess_nil; lia.
    + intros [H _]. exact H.
  - cbn [nesting].
    assert (Hnext : forall depth' max', (depth' <= max')%Z ->
              (depth' = depth + if Char.lit "(" c then 1
                                else if Char.lit ")" c then -1 else 0)%Z ->
              (max' = Z.max max_depth depth')%Z ->
              (nesting formula depth' max' <= bound)%Z <->
              (max_depth <= bound)%Z /\
              forall j, (depth + excess (Str.take j (String c formula)) <= bound)%Z).
    { intros depth' max' Hle' Hd Hm. rewrite (IH depth' max' bound Hle'). split.
      - intros [Hmax Hall]. split; [lia|].
        intros [|j]; [simpl; rewrite excess_nil; lia|].
        cbn [Str.take]. rewrite excess_cons. specialize (Hall j). lia.
      - intros [Hmax Hall]. split.
        + specialize (Hall 1). cbn [Str.take] in Hall.
          rewrite excess_cons, excess_nil in Hall. lia.
        + intros j. specialize (Hall (S j)). cbn [Str.take] in Hall.
          rewrite excess_cons in Hall. lia. }
    destruct (Char.lit "(" c) eqn:Ho; [apply Hnext; lia|].
    destruct (Char.lit ")" c) eqn:Hc; apply Hnext; lia.
Qed.

End ParenthesisDepth.

Section DepthMore.

Import Re StrFacts FormulaValidator ValidatorFacts ParenthesisDepth.

(** Property X21.  [_find_closing_parenthesis] returns the first index at
    which the closing parentheses read so far outnumber the opening ones,
    and -1 when there is no such index. *)
Theorem find_closing_parenthesis_first (text : string) :
  (_find_closing_parenthesis text = (-1)%Z /\
   forall j, (0 <= excess (Str.take j text))%Z) \/
  (exists i, _find_closing_parenthesis text = Z.of_nat i /\
             i < String.length text /\
             excess (Str.take (S i) text) = (-1)%Z /\
             forall j, j <= i -> (0 <= excess (Str.take j text))%Z).
Proof.
  unfold _find_closing_parenthesis.
  destruct (find_closing_from_spec text 0 0%Z) as [[Hr Hall]|[i [Hr [Hlt [Hend Hall]]]]];
    [lia| |].
  - left. split; [exact Hr|]. intros j. specialize (Hall j). lia.
  - right. exists i. split; [exact Hr|]. split; [exact Hlt|]. split; [lia|].
    intros j Hj. specialize (Hall j Hj). lia.
Qed.

(** Property X22.  [check_semantic_validity] accepts a formula exactly
    when no prefix of it has over seven more opening than closing
    parentheses and, for the locales [de-DE] and [fr-FR], it holds no
    full stop; without a locale the context counts as [en-US]. *)
Theorem check_semantic_validity_accepts (formula : string) (context : semantic_context) :
  is_valid (check_semantic_validity formula context) = true <->
  (forall j, (excess (Str.take j formula) <= 7)%Z) /\
  (locale context = Some "de-DE" \/ locale context = Some "fr-FR" ->
   Str.mem "." formula = false).
Proof.
  unfold check_semantic_validity, _validate_data_types, _validate_formula_complexity.
  cbn [is_valid valid negb].
  pose proof (nesting_spec formula 0 0 7 (Z.le_refl 0)) as Hn.
  destruct (7 <? nesting formula 0 0)%Z eqn:Hdeep.
  - apply Z.ltb_lt in Hdeep. cbn [is_valid invalid negb]. split; [discriminate|].
    intros [Hall _]. assert (nesting formula 0 0 <= 7)%Z; [|lia].
    apply Hn. split; [lia|]. intros j. specialize (Hall j). lia.
  - apply Z.ltb_ge in Hdeep. cbn [is_valid valid negb].
    assert (Hall : forall j, (excess (Str.take j formula) <= 7)%Z).
    { intros j. apply Hn in Hdeep as [_ H]. specialize (H j). lia. }
    unfold _validate_locale_specific.
    set (loc := default "en-US" (locale context)).
    assert (Hloc : (String.eqb loc "de-DE" || String.eqb loc "fr-FR") = true <->
                   (locale context = Some "de-DE" \/ locale context = Some "fr-FR")).
    { unfold loc. destruct (locale context) as [l|]; simpl.
      - rewrite orb_true_iff, !String.eqb_eq.
        split; intros [H|H]; [left|right|left|right]; congruence.
      - split; [discriminate|intros [H|H]; discriminate]. }
    destruct (String.eqb loc "de-DE" || String.eqb loc "fr-FR") eqn:Hb; cbn [andb].
    + destruct (Str.mem "." formula) eqn:Hm; cbn [is_valid invalid valid negb].
      * split; [discriminate|]. intros [_ H]. symmetry. apply H, Hloc. reflexivity.
      * split; auto.
    + cbn [is_valid valid negb]. split; [|reflexivity].
      intros _. split; [exact Hall|]. intros H. apply Hloc in H. discriminate.
Qed.

End DepthMore.
Module ArgumentFacts.

Import Re StrFacts FormulaValidator ValidatorFacts.

Lemma app_of_char (a : string) (c : ascii) (b : string) :
  (a +:+ Str.of_char c) +:+ b = a +:+ String c b.
Proof. rewrite app_assoc. reflexivity. Qed.

Lemma plain_char_cases (c : ascii) :
  plain_char c = true ->
  Char.lit Char.dquote c = false /\ Char.lit "(" c = false /\
  Char.lit ")" c = false /\ Char.lit "," c = false.
Proof.
  unfold plain_char. intros H. apply negb_true_iff in H.
  repeat (apply orb_false_iff in H as [H ?]). auto.
Qed.

(** Outside quotes, a run of plain characters goes to the current
    argument. *)
Lemma argument_loop_plain (a rest : string) :
  forall st, Str.all plain_char a = true -> in_quotes st = false ->
  argument_loop (a +:+ rest) st =
  argument_loop rest {| args := args st; current_arg := current_arg st +:+ a;
                        paren_count := paren_count st; in_quotes := false |}.
Proof.
  induction a as [|c a IH]; intros st Hall Hq.
  - rewrite app_nil_l, app_nil_r. destruct st; simpl in Hq; subst; reflexivity.
  - simpl in Hall. apply andb_true_iff in Hall as [Hc Hall].
    destruct (plain_char_cases c Hc) as [Hd [Ho [Hcl Hcm]]].
    rewrite app_cons. cbn [argument_loop]. unfold argument_step.
    rewrite Hd, Hq, Ho, Hcl, Hcm. cbn [negb andb].
    rewrite IH; auto. cbn [args current_arg paren_count in_quotes].
    rewrite app_of_char. reflexivity.
Qed.

(** The arguments already cut stay in front of those that follow. *)
Lemma argument_loop_args (s : string) :
  forall st pre,
  argument_loop s {| args := pre ++ args st; current_arg := current_arg st;
                     paren_count := paren_count st; in_quotes := in_quotes st |} =
  {| args := pre ++ args (argument_loop s st);
     current_arg := current_arg (argument_loop s st);
     paren_count := paren_count (argument_loop s st);
     in_quotes := in_quotes (argument_loop s st) |}.
Proof.
  induction s as [|c s IH]; intros st pre; [reflexivity|].
  cbn [argument_loop]. rewrite <- IH. f_equal.
  unfold argument_step. cbn [args current_arg paren_count in_quotes].
  destruct (Char.lit Char.dquote c); [reflexivity|].
  destruct (negb (in_quotes st)); [|reflexivity].
  destruct (Char.lit "(" c); [reflexivity|].
  destruct (Char.lit ")" c); [reflexivity|].
  destruct (Char.lit "," c && (paren_count st =? 0)%Z); [|reflexivity].
  cbn [args current_arg paren_count in_quotes]. rewrite List.app_assoc. reflexivity.
Qed.

Lemma argument_step_comma (st : argument_state) :
  in_quotes st = false -> paren_count st = 0%Z ->
  argument_step st "," =
  {| args := args st ++ [Str.strip_space (current_arg st)]; current_arg := "";
     paren_count := 0; in_quotes := false |}.
Proof.
  intros Hq Hp. unfold argument_step. rewrite Hq, Hp. reflexivity.
Qed.

End ArgumentFacts.

Section ArgumentsMore.

Import Re StrFacts FormulaValidator ValidatorFacts ArgumentFacts.

(** Property X23.  [_parse_function_arguments] cuts at the commas: for a
    first argument without quote, parenthesis or comma, the list of
    [a,rest] is the stripped [a] followed by the list of [rest], and the
    list of [a] alone is the stripped [a], or empty when [a] is empty.  An
    empty text after the last comma so gives no argument, while a blank
    one gives an empty argument. *)
Theorem parse_function_arguments_cuts (a rest : string) :
  Str.all plain_char a = true ->
  _parse_function_arguments (a +:+ "," +:+ rest) =
    Str.strip_space a :: _parse_function_arguments rest /\
  _parse_function_arguments a =
    if String.eqb a "" then [] else [Str.strip_space a].
Proof.
  intros Hplain. unfold _parse_function_arguments. split.
  - rewrite argument_loop_plain; auto.
    cbn [args current_arg paren_count in_quotes]. rewrite app_nil_l.
    rewrite app_cons, app_nil_l. cbn [argument_loop].
    rewrite argument_step_comma; [|reflexivity|reflexivity].
    cbn [args current_arg paren_count in_quotes List.app].
    pose proof (argument_loop_args rest
                  {| args := []; current_arg := ""; paren_count := 0; in_quotes := false |}
                  [Str.strip_space a]) as H.
    cbn [args current_arg paren_count in_quotes List.app] in H.
    rewrite H.
    cbn [args current_arg paren_count in_quotes].
    destruct (String.eqb (current_arg (argument_loop rest _)) ""); reflexivity.
  - pose proof (argument_loop_plain a ""
                  {| args := []; current_arg := ""; paren_count := 0; in_quotes := false |}
                  Hplain eq_refl) as H.
    rewrite app_nil_r in H. rewrite H.
    cbn [argument_loop args current_arg paren_count in_quotes].
    rewrite app_nil_l. destruct (String.eqb a ""); reflexivity.
Qed.

(** Property X23 at the arguments [A1, ,] of a call. *)
Lemma parse_function_arguments_cuts_witness :
  _parse_function_arguments ("A1" +:+ "," +:+ " ,") =
    Str.strip_space "A1" :: _parse_function_arguments " ," /\
  _parse_function_arguments "A1" = if String.eqb "A1" "" then [] else [Str.strip_space "A1"].
Proof. apply (parse_function_arguments_cuts "A1" " ,"). reflexivity. Defined.

End ArgumentsMore.
Module SanitizeFacts.

Import StrFacts Formula.

Lemma words_one (c : ascii) :
  Str.words (String c "") = if Char.isspace c then [] else [String c ""].
Proof. reflexivity. Qed.

Lemma words_two (c d : ascii) (s : string) :
  Str.words (String c (String d s)) =
  if Char.isspace c then Str.words (String d s)
  else if Char.isspace d then String c "" :: Str.words (String d s)
  else match Str.words (String d s) with
       | w :: ws => String c w :: ws
       | [] => [String c ""]
       end.
Proof. reflexivity. Qed.

(** The pieces of [split()] are not empty and keep the characters of the
    text that are not whitespace. *)
Lemma words_solid (p : ascii -> bool) (s : string) :
  Str.all p s = true ->
  Forall (fun w => w <> "" /\ Str.all (fun c => negb (Char.isspace c) && p c) w = true)
         (Str.words s).
Proof.
  induction s as [|c s IH]; intros Hall; [constructor|].
  simpl in Hall. apply andb_true_iff in Hall as [Hc Hall]. specialize (IH Hall).
  assert (Hone : Char.isspace c = false ->
                 String c "" <> "" /\
                 Str.all (fun c => negb (Char.isspace c) && p c) (String c "") = true).
  { intros Hs. split; [discriminate|]. simpl. rewrite Hs, Hc. reflexivity. }
  destruct s as [|d s].
  - rewrite words_one. destruct (Char.isspace c) eqn:Hs; [constructor|].
    constructor; [apply Hone; reflexivity|constructor].
  - rewrite words_two. destruct (Char.isspace c) eqn:Hs; [exact IH|].
    destruct (Char.isspace d) eqn:Hd;
      [constructor; [apply Hone; reflexivity|exact IH]|].
    destruct (Str.words (String d s)) as [|w ws];
      [constructor; [apply Hone; reflexivity|constructor]|].
    inversion IH as [|? ? [Hne Hw] Hws]; subst. constructor; [|exact Hws].
    split; [discriminate|]. simpl. rewrite Hs, Hc, Hw. reflexivity.
Qed.

Lemma words_head (c : ascii) (s : string) :
  Char.isspace c = false -> exists w ws, Str.words (String c s) = String c w :: ws.
Proof.
  intros Hs. destruct s as [|d s].
  - rewrite words_one, Hs. eauto.
  - rewrite words_two, Hs. destruct (Char.isspace d); [eauto|].
    destruct (Str.words (String d s)); eauto.
Qed.

Lemma words_of_word (w rest : string) :
  w <> "" -> Str.all (fun c => negb (Char.isspace c)) w = true ->
  Str.words w = [w] /\ Str.words (w +:+ " " +:+ rest) = w :: Str.words rest.
Proof.
  induction w as [|c w IH]; intros Hne Hall; [congruence|].
  simpl in Hall. apply andb_true_iff in Hall as [Hc Hall].
  apply negb_true_iff in Hc.
  destruct w as [|d w].
  - split; [rewrite words_one, Hc; reflexivity|].
    rewrite app_cons, app_nil_l. change (" " +:+ rest) with (String " " rest).
    rewrite words_two, Hc. reflexivity.
  - destruct IH as [IH1 IH2]; [discriminate|exact Hall|].
    assert (Hd : Char.isspace d = false).
    { simpl in Hall. apply andb_true_iff in Hall as [Hd _].
      apply negb_true_iff in Hd. exact Hd. }
    split.
    + rewrite words_two, Hc, Hd, IH1. reflexivity.
    + rewrite !app_cons in *. rewrite words_two, Hc, Hd, IH2. reflexivity.
Qed.

Lemma words_join (ws : list string) :
  Forall (fun w => w <> "" /\ Str.all (fun c => negb (Char.isspace c)) w = true) ws ->
  Str.words (Str.join " " ws) = ws.
Proof.
  induction 1 as [|w ws [Hne Hall] Hws IH]; [reflexivity|].
  destruct ws as [|w' ws].
  - apply (words_of_word w "" Hne Hall).
  - change (Str.join " " (w :: w' :: ws)) with (w +:+ " " +:+ Str.join " " (w' :: ws)).
    destruct (words_of_word w (Str.join " " (w' :: ws)) Hne Hall) as [_ ->].
    rewrite IH. reflexivity.
Qed.

Lemma all_app (p : ascii -> bool) (a b : string) :
  Str.all p (a +:+ b) = Str.all p a && Str.all p b.
Proof.
  induction a as [|c a IH]; [reflexivity|].
  rewrite app_cons. simpl. rewrite IH, andb_assoc. reflexivity.
Qed.

Lemma all_join (p : ascii -> bool) (ws : list string) :
  p " "%char = true -> Forall (fun w => Str.all p w = true) ws ->
  Str.all p (Str.join " " ws) = true.
Proof.
  intros Hsp. induction 1 as [|w ws Hw Hws IH]; [reflexivity|].
  destruct ws as [|w' ws]; [exact Hw|].
  change (Str.join " " (w :: w' :: ws)) with (w +:+ " " +:+ Str.join " " (w' :: ws)).
  rewrite !all_app, Hw, IH. simpl. rewrite Hsp. reflexivity.
Qed.

Lemma all_keep (p : ascii -> bool) (s : string) : Str.all p (Str.keep p s) = true.
Proof.
  induction s as [|c s IH]; [reflexivity|].
  simpl. destruct (p c) eqn:Hc; [simpl; rewrite Hc|]; exact IH.
Qed.

Lemma keep_all (p : ascii -> bool) (s : string) :
  Str.all p s = true -> Str.keep p s = s.
Proof.
  induction s as [|c s IH]; [reflexivity|].
  simpl. intros H. apply andb_true_iff in H as [Hc Hs]. rewrite Hc, IH; auto.
Qed.

Lemma all_weaken (p q : ascii -> bool) (s : string) :
  (forall c, p c = true -> q c = true) -> Str.all p s = true -> Str.all q s = true.
Proof.
  intros Hpq. induction s as [|c s IH]; [reflexivity|].
  simpl. intros H. apply andb_true_iff in H as [Hc Hs]. rewrite (Hpq c Hc), IH; auto.
Qed.

(** The text that [_sanitize_formula] splits begins with [=]. *)
Lemma sanitize_kept (formula : string) :
  exists body,
  Str.keep (fun char => (Char.code char <? 128)%N)
    (if Str.startswith "=" formula then formula else "=" +:+ formula) =
  String "=" body.
Proof.
  destruct formula as [|c formula]; [exists ""; reflexivity|].
  cbn [Str.startswith]. destruct (Ascii.eqb_spec c "=") as [->|Hc].
  - eexists. reflexivity.
  - eexists. reflexivity.
Qed.

(** The words of a sanitized formula. *)
Lemma sanitize_words (formula : string) :
  exists first rest,
  _sanitize_formula formula = Str.join " " (String "=" first :: rest) /\
  Forall (fun w => w <> "" /\
                   Str.all (fun c => negb (Char.isspace c) && (Char.code c <? 128)%N) w
                   = true) (String "=" first :: rest).
Proof.
  unfold _sanitize_formula.
  destruct (sanitize_kept formula) as [body Hbody].
  pose proof (all_keep (fun char => (Char.code char <? 128)%N)
                (if Str.startswith "=" formula then formula else "=" +:+ formula)) as Hall.
  rewrite Hbody in *.
  destruct (words_head "=" body eq_refl) as [first [rest Hw]].
  exists first, rest. rewrite Hw. split; [reflexivity|].
  rewrite <- Hw. apply words_solid. exact Hall.
Qed.

End SanitizeFacts.

Section SanitizeMore.

Import StrFacts Formula SanitizeFacts.

(** Property X24.  A sanitized formula is a list of words joined by single
    blanks.  Every word is not empty and made of characters below 128
    that are not whitespace, and the first word begins with [=]. *)
Theorem sanitize_formula_words (formula : string) :
  exists first rest,
  _sanitize_formula formula = Str.join " " (String "=" first :: rest) /\
  forallb is_word (String "=" first :: rest) = true.
Proof.
  destruct (sanitize_words formula) as [first [rest [Heq Hws]]].
  exists first, rest. split; [exact Heq|].
  apply forallb_forall. intros w Hin.
  rewrite List.Forall_forall in Hws. destruct (Hws w Hin) as [Hne Hall].
  unfold is_word. rewrite Hall, andb_true_r. apply negb_true_iff.
  apply String.eqb_neq. exact Hne.
Qed.

(** Property X25.  [_sanitize_formula] changes nothing in a formula that
    it has sanitized. *)
Theorem sanitize_formula_idempotent (formula : string) :
  _sanitize_formula (_sanitize_formula formula) = _sanitize_formula formula.
Proof.
  destruct (sanitize_words formula) as [first [rest [Heq Hws]]].
  rewrite Heq. set (ws := String "=" first :: rest) in *.
  assert (Hhead : Str.startswith "=" (Str.join " " ws) = true).
  { unfold ws. destruct rest; [reflexivity|].
    change (Str.join " " (String "=" first :: s :: rest))
      with (String "=" first +:+ " " +:+ Str.join " " (s :: rest)).
    rewrite app_cons. reflexivity. }
  unfold _sanitize_formula at 1. rewrite Hhead.
  rewrite keep_all.
  - rewrite words_join; [reflexivity|].
    eapply Forall_impl; [exact Hws|]. intros w [Hne Hall]. split; [exact Hne|].
    eapply all_weaken; [|exact Hall]. intros c Hc.
    apply andb_true_iff in Hc as [Hc _]. exact Hc.
  - apply all_join; [reflexivity|].
    eapply Forall_impl; [exact Hws|]. intros w [Hne Hall].
    eapply all_weaken; [|exact Hall]. intros c Hc.
    apply andb_true_iff in Hc as [_ Hc]. exact Hc.
Qed.

End SanitizeMore.
Module ModelFacts.

Import FormulaParser DependencyFacts Formula.

(** The dependency analysis of a formula's own parser, whose map is empty,
    succeeds. *)
Lemma own_analysis_succeeds (room : nat) (formula sheet_name : string) :
  success (validation (analyze_dependencies ∅ (S room) formula sheet_name)) = true.
Proof.
  unfold analyze_dependencies. rewrite analyze_block_without_map. reflexivity.
Qed.

(** What [validate] does on a formula without cached result, by the
    result of [parse]. *)
Lemma validate_cases (room : nat) (self : formula) :
  validation_result (validation_cache self) = None ->
  validate (S room) self =
  match parse (expression self) with
  | None => None
  | Some (parse_failure error details) =>
      Some ((false, error), record_error self [details])
  | Some (validation_failure _) =>
      Some ((false, Constants.AI_002),
            record_error self ["Validation error: 'details'"])
  | Some (parsed tree _ _) =>
      Some ((true, "Formula validation successful"),
            store_validation (store_ast self tree)
              (analyze_dependencies ∅ (S room) (expression self) (sheet_name self))
              (true, "Formula validation successful"))
  end.
Proof.
  intros Hcache. unfold validate. rewrite Hcache.
  destruct (parse (expression self)) as [[tree c v|error details|v]|]; try reflexivity.
  cbn [store_ast expression sheet_name].
  rewrite own_analysis_succeeds. reflexivity.
Qed.

End ModelFacts.

Section ModelMore.

Import FormulaParser TokenizerFacts Formula ModelFacts.

(** Property X26.  [validate] of a formula without cached result returns,
    and its answer is that of [parse]: it is positive exactly when [parse]
    succeeds on the expression.  The dependency analysis that follows
    cannot fail, the map of the formula's own parser being empty. *)
Theorem validate_follows_parse (recursion_limit : nat) (self : formula) :
  0 < recursion_limit ->
  validation_result (validation_cache self) = None ->
  exists ok message self',
  validate recursion_limit self = Some ((ok, message), self') /\
  (ok = true <->
   exists tree complexity validation,
   parse (expression self) = Some (parsed tree complexity validation)).
Proof.
  intros Hroom Hcache. destruct recursion_limit as [|room]; [lia|].
  rewrite (validate_cases room self Hcache).
  destruct (parse_returns (expression self)) as [r Hr]. rewrite Hr.
  destruct r as [tree c v|error details|v].
  - do 3 eexists. split; [reflexivity|]. split; eauto.
  - do 3 eexists. split; [reflexivity|].
    split; [discriminate|]. intros [? [? [? H]]]. discriminate.
  - do 3 eexists. split; [reflexivity|].
    split; [discriminate|]. intros [? [? [? H]]]. discriminate.
Qed.

(** Property X26 at the formula [=A1+1] on [Sheet1]. *)
Lemma validate_follows_parse_witness :
  exists ok message self',
  validate 1000 {| expression := "=A1+1"; sheet_name := "Sheet1"; ast := None;
                   dependencies := None;
                   validation_cache := {| last_validated := None;
                                          validation_result := None;
                                          ast_cache := None |};
                   validation_errors := [] |} = Some ((ok, message), self') /\
  (ok = true <->
   exists tree complexity validation,
   parse "=A1+1" = Some (parsed tree complexity validation)).
Proof.
  apply (validate_follows_parse 1000
           {| expression := "=A1+1"; sheet_name := "Sheet1"; ast := None;
              dependencies := None;
              validation_cache := {| last_validated := None;
                                     validation_result := None;
                                     ast_cache := None |};
              validation_errors := [] |}); [lia|reflexivity].
Defined.

(** Property X27.  [validate] caches a positive answer only.  After a
    positive answer a second call returns the same pair and changes
    nothing.  After a negative one the second call parses again, returns
    the same pair and appends the same message to [validation_errors] a
    second time. *)
Theorem validate_twice (recursion_limit : nat) (self self' : formula)
    (ok : bool) (message : string) :
  0 < recursion_limit ->
  validation_result (validation_cache self) = None ->
  validate recursion_limit self = Some ((ok, message), self') ->
  if ok then validate recursion_limit self' = Some ((ok, message), self')
  else exists error,
       validation_errors self' = validation_errors self ++ [error] /\
       exists self'',
       validate recursion_limit self' = Some ((ok, message), self'') /\
       validation_errors self'' = validation_errors self ++ [error; error].
Proof.
  intros Hroom Hcache. destruct recursion_limit as [|room]; [lia|].
  rewrite (validate_cases room self Hcache).
  destruct (parse (expression self)) as [[tree c v|error details|v]|] eqn:Hparse;
    intros H; inversion H; subst; clear H.
  - reflexivity.
  - exists details. split; [reflexivity|].
    rewrite (validate_cases room (record_error self [details]) Hcache).
    cbn [record_error expression]. rewrite Hparse.
    eexists. split; [reflexivity|].
    cbn [record_error validation_errors]. rewrite <- List.app_assoc. reflexivity.
  - eexists. split; [reflexivity|].
    rewrite (validate_cases room (record_error self _) Hcache).
    cbn [record_error expression]. rewrite Hparse.
    eexists. split; [reflexivity|].
    cbn [record_error validation_errors]. rewrite <- List.app_assoc. reflexivity.
Qed.

(** Property X27 at the formula [=1+], which does not parse. *)
Lemma validate_twice_witness :
  exists error,
  validation_errors
    {| expression := "=1+"; sheet_name := "Sheet1"; ast := None; dependencies := None;
       validation_cache := {| last_validated := None; validation_result := None;
                              ast_cache := None |};
       validation_errors := ["AST construction failed: pop from empty list"] |}
  = [] ++ [error] /\
  exists self'',
  validate 1000
    {| expression := "=1+"; sheet_name := "Sheet1"; ast := None; dependencies := None;
       validation_cache := {| last_validated := None; validation_result := None;
                              ast_cache := None |};
       validation_errors := ["AST construction failed: pop from empty list"] |}
  = Some ((false, Constants.AI_002), self'') /\
  validation_errors self'' = [] ++ [error; error].
Proof.
  apply (validate_twice 1000
           {| expression := "=1+"; sheet_name := "Sheet1"; ast := None;
              dependencies := None;
              validation_cache := {| last_validated := None; validation_result := None;
                                     ast_cache := None |};
              validation_errors := [] |} _ false Constants.AI_002);
    [lia|reflexivity|reflexivity].
Defined.

End ModelMore.
Section ReturnsMore.

Import FormulaParser TokenizerFacts.

(** Property X28.  [tokenize] and [parse] return for every formula: each
    turn of the loop of the tokenizer moves the position forward, by a
    match that is not empty or by one character, so the loop comes to the
    end of the formula or to an error. *)
Theorem tokenize_and_parse_return (formula : string) :
  (exists r, tokenize formula = Some r) /\ (exists r, parse formula = Some r).
Proof. split; [apply tokenize_returns|apply parse_returns]. Qed.

End ReturnsMore.

Module FormatFacts.

Import Re StrFacts ReFacts FormulaValidator ValidatorFacts ReferenceFacts.

Lemma dollar_of_lang (w rest : string) :
  lang (Maybe (Char.lit "$")) w rest -> dollar w.
Proof.
  simpl. intros [Hall [_ Hlen]].
  destruct w as [|c [|d w]]; [left; reflexivity| |simpl in Hlen; lia].
  simpl in Hall. rewrite andb_true_r in Hall.
  apply Ascii.eqb_eq in Hall. subst. right. reflexivity.
Qed.

(** An optional [$] before a character that is none. *)
Lemma maybe_dollar {A : Type} (d s : string) (k : string -> option A) (a : A) :
  dollar d -> head_fails (Char.lit "$") s -> k s = Some a ->
  rep (Char.lit "$") 0 (Some 1) (d +:+ s) k = Some a.
Proof.
  intros [->| ->] Hs Hk.
  - apply (rep_greedy _ _ _ s "" 0 (Some 1)); auto; simpl; lia.
  - apply (rep_greedy _ _ _ s "$" 0 (Some 1)); auto; simpl; lia.
Qed.

(** The words of the pattern of a cell. *)
Lemma cell_lang (w rest : string) :
  lang (cell plain) w rest ->
  exists d1 letters d2 digits,
  w = d1 +:+ letters +:+ d2 +:+ digits /\ dollar d1 /\ dollar d2 /\
  Str.all Char.re_letter letters = true /\ 1 <= String.length letters <= 3 /\
  Str.all Char.re_digit digits = true /\ 1 <= String.length digits.
Proof.
  unfold cell, plain. cbn [lang].
  intros (d1 & w1 & -> & L1 & letters & w2 & -> & [Hl [Hl1 Hl3]] & d2 & digits
          & -> & L2 & [Hd [Hd1 _]]).
  exists d1, letters, d2, digits. repeat split; eauto using dollar_of_lang.
Qed.

(** The pattern of a cell, run on a cell that no digit follows, takes the
    whole cell at its first try. *)
Lemma cell_run {A : Type} (d1 letters d2 digits s : string) (caps : captures)
    (k : string -> captures -> option A) (a : A) :
  dollar d1 -> dollar d2 ->
  Str.all Char.re_letter letters = true -> 1 <= String.length letters <= 3 ->
  Str.all Char.re_digit digits = true -> 1 <= String.length digits ->
  head_fails Char.re_digit s ->
  k s caps = Some a ->
  run (cell plain) (d1 +:+ letters +:+ d2 +:+ digits +:+ s) caps k = Some a.
Proof.
  intros H1 H2 Hl Hllen Hd Hdlen Hs Hk.
  unfold cell, plain, Maybe, Plus. cbn [run].
  apply maybe_dollar; [exact H1| |].
  { apply (head_of_run Char.re_letter); auto using letter_not_dollar. lia. }
  apply (rep_greedy Char.re_letter _ _ (d2 +:+ digits +:+ s) letters 1 (Some 3));
    [assumption|lia|lia| |].
  { left. destruct H2 as [->| ->].
    - rewrite app_nil_l. apply (head_of_run Char.re_digit); auto using digit_not_letter.
    - reflexivity. }
  apply maybe_dollar; [exact H2| |].
  { apply (head_of_run Char.re_digit); auto using digit_not_dollar. }
  apply (rep_greedy Char.re_digit _ _ s digits 1 None);
    [assumption|lia|exact I|left; assumption|exact Hk].
Qed.

Lemma cell_run_lang {A : Type} (w rest s : string) (caps : captures)
    (k : string -> captures -> option A) (a : A) :
  lang (cell plain) w rest -> head_fails Char.re_digit s -> k s caps = Some a ->
  run (cell plain) (w +:+ s) caps k = Some a.
Proof.
  intros L Hs Hk.
  destruct (cell_lang w rest L)
    as (d1 & letters & d2 & digits & -> & H1 & H2 & Hl & Hllen & Hd & Hdlen).
  rewrite !app_assoc. apply cell_run; auto.
Qed.

Lemma cell_run_end {A : Type} (w rest : string) (caps : captures)
    (k : string -> captures -> option A) (a : A) :
  lang (cell plain) w rest -> k "" caps = Some a ->
  run (cell plain) w caps k = Some a.
Proof.
  intros L Hk. rewrite <- (app_nil_r w).
  exact (cell_run_lang w rest "" caps k a L I Hk).
Qed.

Lemma run_seq {A : Type} (r1 r2 : regex) (s : string) (caps : captures)
    (k : string -> captures -> option A) :
  run (r1 +> r2)%re s caps k = run r1 s caps (fun s1 caps1 => run r2 s1 caps1 k).
Proof. reflexivity. Qed.

Lemma run_grp {A : Type} (r : regex) (s : string) (caps : captures)
    (k : string -> captures -> option A) :
  run (Grp r) s caps k =
  run r s caps (fun s1 caps1 =>
    k s1 (caps1 ++ [Str.take (String.length s - String.length s1) s])).
Proof. reflexivity. Qed.

Lemma opt_first {A : Type} (r : regex) (s : string) (caps : captures)
    (k : string -> captures -> option A) (a : A) :
  run r s caps k = Some a -> run (Opt r) s caps k = Some a.
Proof. intros H. cbn [run]. rewrite H. reflexivity. Qed.

(** What the reference pattern matches has the format of a reference. *)
Lemma reference_format_of_lang (ref rest : string) :
  lang _reference_pattern ref rest -> _validate_reference_format ref = true.
Proof.
  unfold _reference_pattern. cbn [lang].
  intros (w1 & w2 & -> & L1 & [->|(colon & w3 & -> & (c & -> & Hc) & L3)]);
    unfold _validate_reference_format.
  - assert (H : exists r, match_ reference_format_pattern (w1 +:+ "") = Some r).
    { eexists. unfold match_, reference_format_pattern.
      rewrite run_seq, run_grp, app_nil_r.
      eapply cell_run_end; [exact L1|]. reflexivity. }
    destruct H as [r ->]. reflexivity.
  - apply ParenthesisDepth.lit_eq in Hc. subst c.
    assert (H : exists r, match_ reference_format_pattern
                            (w1 +:+ String ":" "" +:+ w3) = Some r).
    { eexists. unfold match_, reference_format_pattern.
      rewrite run_seq, run_grp.
      eapply cell_run_lang; [exact L1|reflexivity|].
      rewrite run_seq. apply opt_first. rewrite run_grp, run_seq.
      rewrite app_cons, app_nil_l.
      change (run (Chr (Char.lit ":")) (String ":" w3) ?c ?k) with (k w3 c).
      cbv beta.
      eapply cell_run_end; [exact L3|]. reflexivity. }
    destruct H as [r ->]. reflexivity.
Qed.

Lemma check_references_message (context : validation_context) (sheet_name : string)
    (existing_references : gset string) (ref : string) :
  forall refs,
  Forall (fun r => _validate_reference_format r = true) refs ->
  error_message (check_references context refs sheet_name existing_references) <>
  "Invalid cell reference format: " +:+ ref.
Proof.
  induction 1 as [|r refs Hr Hrefs IH]; [discriminate|].
  cbn [check_references]. rewrite Hr. cbn [negb].
  destruct (bool_decide _); [discriminate|].
  destruct (_validate_reference_bounds _ _ _); cbn [negb]; [exact IH|discriminate].
Qed.

End FormatFacts.

Section FormatMore.

Import Re StrFacts ReFacts FormulaValidator ValidatorFacts FormatFacts.

(** Property X29.  Every reference that [validate_references] finds in a
    formula has the format that [_validate_reference_format] asks for: what
    the one pattern matches, the other matches whole.  So
    [validate_references] never answers that the format of a cell
    reference is invalid. *)
Theorem validate_references_format (formula ref : string) :
  In ref (findall _reference_pattern formula) ->
  _validate_reference_format ref = true /\
  forall context sheet_name existing_references other,
  error_message (validate_references context formula sheet_name existing_references)
  <> "Invalid cell reference format: " +:+ other.
Proof.
  intros Hin. split.
  - destruct (findall_sound _ _ _ Hin) as [rest L].
    exact (reference_format_of_lang ref rest L).
  - intros context sheet_name existing_references other.
    unfold validate_references. apply check_references_message.
    apply List.Forall_forall. intros r Hr.
    rewrite <- list_elem_of_In, elem_of_remove_dups, list_elem_of_In in Hr.
    destruct (findall_sound _ _ _ Hr) as [rest L].
    exact (reference_format_of_lang r rest L).
Qed.

(** Property X29 at the formula [=$A$1:B2+C3]. *)
Lemma validate_references_format_witness :
  _validate_reference_format "$A$1:B2" = true /\
  forall context sheet_name existing_references other,
  error_message (validate_references context "=$A$1:B2+C3" sheet_name existing_references)
  <> "Invalid cell reference format: " +:+ other.
Proof.
  apply (validate_references_format "=$A$1:B2+C3" "$A$1:B2").
  vm_compute. auto.
Defined.

End FormatMore.
